(** * create-context-engineering-app: the scaffolding scripts

    A shallow embedding of the three variants of the project generator
    found in the repository:

    - [Local]: the first script, which copies the template from the
      directory it is installed in (the fragment ending the unnamed
      source part);
    - [Clone]: the first half of [create-context-engineering-app/index.js],
      which clones the template repository into a temporary directory;
    - [Refactored]: the second half of the same file, split into
      functions, with a [try]/[catch]/[finally] around the pipeline.

    JavaScript strings are [string]s, paths are lists of components,
    the file system is a finite map from paths to nodes, and the scripts
    run in a small monad that threads the file system and the console
    and distinguishes a thrown exception from [process.exit]. *)

From stdpp Require Import gmap strings list fin_maps.
From Stdlib Require Import ZArith Ascii.

Local Open Scope Z_scope.
Local Open Scope stdpp_scope.

(** ** JavaScript string operations *)

Module JsString.

(** [s.startsWith(t)] *)
Fixpoint startsWith (s t : string) {struct t} : bool :=
  match t with
  | EmptyString => true
  | String b t' =>
      match s with
      | EmptyString => false
      | String a s' => Ascii.eqb a b && startsWith s' t'
      end
  end.

Fixpoint drop (n : nat) (s : string) : string :=
  match n with
  | O => s
  | S k => match s with EmptyString => EmptyString | String _ s' => drop k s' end
  end.

(** [s.endsWith(t)] *)
Definition endsWith (s t : string) : bool :=
  (String.length t <=? String.length s)%nat
  && String.eqb (drop (String.length s - String.length t) s) t.

(** [s.replace(p, r)] with a string pattern: only the first occurrence
    is replaced.  The replacement strings used by the scripts contain
    no dollar sign, so replacement patterns do not arise. *)
Fixpoint replace_first (p r s : string) : string :=
  if startsWith s p then r +:+ drop (String.length p) s
  else match s with
       | EmptyString => EmptyString
       | String c s' => String c (replace_first p r s')
       end.

(** [s.replace(/tok/g, rep)] for a regular expression that is a plain
    literal: the scan goes left to right, a match is replaced and the
    scan resumes after it.  [skip] counts the characters of the
    current match still to be passed over. *)
Fixpoint replace_from (skip : nat) (tok rep s : string) : string :=
  match s with
  | EmptyString => EmptyString
  | String c s' =>
      match skip with
      | S k => replace_from k tok rep s'
      | O =>
          if startsWith s tok
          then rep +:+ replace_from (String.length tok - 1) tok rep s'
          else String c (replace_from 0 tok rep s')
      end
  end.

Definition replace_global (tok rep s : string) : string :=
  replace_from 0 tok rep s.

(** [s.toUpperCase()] on the ASCII range: the letters a-z are mapped
    to A-Z and every other byte is kept. *)
Definition upper_ascii (c : ascii) : ascii :=
  let n := nat_of_ascii c in
  if ((97 <=? n) && (n <=? 122))%nat then ascii_of_nat (n - 32) else c.

Fixpoint toUpperCase (s : string) : string :=
  match s with
  | EmptyString => EmptyString
  | String c s' => String (upper_ascii c) (toUpperCase s')
  end.

(** Number of positions of [s] at which [tok] occurs. *)
Fixpoint occurrences (tok s : string) : nat :=
  match s with
  | EmptyString => O
  | String _ s' =>
      ((if startsWith s tok then 1 else 0) + occurrences tok s')%nat
  end.

(** [pieces.join(sep)] *)
Fixpoint join (sep : string) (pieces : list string) : string :=
  match pieces with
  | [] => EmptyString
  | [p] => p
  | p :: rest => p +:+ sep +:+ join sep rest
  end.

(** One string begins with the other. *)
Definition clash (a b : string) : bool := startsWith a b || startsWith b a.

(** No non-empty suffix of [u] clashes with [b]. *)
Fixpoint clean_suffixes (u b : string) : bool :=
  match u with
  | EmptyString => true
  | String _ u' => negb (clash u b) && clean_suffixes u' b
  end.

(** Two strings are equal up to the case of their ASCII letters. *)
Fixpoint eq_nocase (s t : string) : bool :=
  match s, t with
  | EmptyString, EmptyString => true
  | String a s', String b t' =>
      (Ascii.eqb a b
       || (Ascii.eqb (upper_ascii a) (upper_ascii b)))
      && eq_nocase s' t'
  | _, _ => false
  end.

End JsString.

(** ** Paths

    A path is the list of its components from the root.  [path.resolve]
    and [path.join] split their string arguments at the slash and walk
    the components, dropping empty and [.] components and stepping up at
    [..]. *)

Abbreviation path := (list string).

Module Path.

(** [s.split("/")] *)
Fixpoint split_slash (s : string) : list string :=
  match s with
  | EmptyString => [EmptyString]
  | String c s' =>
      if Ascii.eqb c "/" then EmptyString :: split_slash s'
      else match split_slash s' with
           | [] => [String c EmptyString]
           | seg :: rest => String c seg :: rest
           end
  end.

Definition step (acc : path) (seg : string) : path :=
  if String.eqb seg "" || String.eqb seg "." then acc
  else if String.eqb seg ".." then removelast acc
  else acc ++ [seg].

Definition walk (base : path) (segs : list string) : path :=
  fold_left step segs base.

(** [path.join(base, ...parts)] for a normalised absolute [base] *)
Definition join (base : path) (parts : list string) : path :=
  walk base (concat (map split_slash parts)).

(** [path.resolve(cwd, name)] *)
Definition resolve (cwd : path) (name : string) : path :=
  if JsString.startsWith name "/" then walk [] (split_slash name)
  else walk cwd (split_slash name).

(** How a path is printed in a message. *)
Definition show (p : path) : string :=
  fold_left (λ acc seg, acc +:+ "/" +:+ seg) p "".

(** A name that is a single ordinary component. *)
Definition simple (s : string) : bool :=
  bool_decide (split_slash s = [s])
  && negb (String.eqb s "") && negb (String.eqb s ".")
  && negb (String.eqb s "..").

(** [q] lies at or below [p]. *)
Definition under (p q : path) : bool := bool_decide (p `prefix_of` q).

End Path.

(** ** The file system *)

Inductive node : Type :=
| File (content : string)
| Dir.

#[global] Instance node_eq_dec : EqDecision node.
Proof. solve_decision. Defined.

Inductive error : Type :=
| Errno (code : string) (syscall : string) (p : path)
| Error (message : string).

(** [error.message].  The message of a system error is abridged to its
    code, the system call and the path; the message of a failed command
    to the words [Command failed:] and the command, without its
    arguments and without what it printed. *)
Definition error_message (e : error) : string :=
  match e with
  | Errno code syscall p => code +:+ ": " +:+ syscall +:+ " '" +:+ Path.show p +:+ "'"
  | Error message => message
  end.

Inductive result (A : Type) : Type :=
| Ok (a : A)
| Fail (e : error).
Arguments Ok {A} a.
Arguments Fail {A} e.

Module Fs.

Definition is_dir (fs : gmap path node) (p : path) : bool :=
  bool_decide (fs !! p = Some Dir).

Definition is_file (fs : gmap path node) (p : path) : bool :=
  match fs !! p with
  | Some (File _) => true
  | _ => false
  end.

(** [fs.existsSync(p)] *)
Definition existsSync (fs : gmap path node) (p : path) : bool :=
  bool_decide (is_Some (fs !! p)).

Definition parent (p : path) : path := removelast p.

Definition child_name (p k : path) : option string :=
  if bool_decide (p `prefix_of` k)
  then match drop (length p) k with
       | [c] => Some c
       | _ => None
       end
  else None.

(** The names of the entries of directory [p]. *)
Definition entries (fs : gmap path node) (p : path) : list string :=
  omap (child_name p) (map_to_list fs).*1.

(** [fs.readdirSync(p)] *)
Definition readdirSync (fs : gmap path node) (p : path) : result (list string) :=
  match fs !! p with
  | None => Fail (Errno "ENOENT" "scandir" p)
  | Some (File _) => Fail (Errno "ENOTDIR" "scandir" p)
  | Some Dir => Ok (entries fs p)
  end.

(** [fs.readFileSync(p, "utf8")] *)
Definition readFileSync (fs : gmap path node) (p : path) : result string :=
  match fs !! p with
  | None => Fail (Errno "ENOENT" "open" p)
  | Some Dir => Fail (Errno "EISDIR" "read" p)
  | Some (File c) => Ok c
  end.

(** [fs.writeFileSync(p, content)] *)
Definition writeFileSync (fs : gmap path node) (p : path) (content : string)
  : result (gmap path node) :=
  match fs !! p with
  | Some Dir => Fail (Errno "EISDIR" "open" p)
  | _ =>
      if is_dir fs (parent p) then Ok (<[p := File content]> fs)
      else Fail (Errno "ENOENT" "open" p)
  end.

(** [fs.mkdirSync(p)] *)
Definition mkdirSync (fs : gmap path node) (p : path) : result (gmap path node) :=
  match fs !! p with
  | Some _ => Fail (Errno "EEXIST" "mkdir" p)
  | None =>
      if is_dir fs (parent p) then Ok (<[p := Dir]> fs)
      else Fail (Errno "ENOENT" "mkdir" p)
  end.

(** The prefixes of [p], the root first and [p] last. *)
Definition ancestors (p : path) : list path :=
  map (λ k, take k p) (seq 0 (S (length p))).

Definition make_dir (fs : gmap path node) (q : path) : gmap path node :=
  match fs !! q with
  | None => <[q := Dir]> fs
  | Some _ => fs
  end.

(** [fs.mkdirSync(p, { recursive: true })] *)
Definition mkdirSync_recursive (fs : gmap path node) (p : path)
  : result (gmap path node) :=
  match fs !! p with
  | Some (File _) => Fail (Errno "EEXIST" "mkdir" p)
  | _ =>
      if forallb (λ q, negb (is_file fs q)) (ancestors p)
      then Ok (fold_left make_dir (ancestors p) fs)
      else Fail (Errno "ENOTDIR" "mkdir" p)
  end.

(** Every entry of [from] at or below [src] is written into [into] at
    the matching place at or below [dst]. *)
Definition copy_entry (src dst : path) (k : path) (n : node)
    (acc : gmap path node) : gmap path node :=
  if bool_decide (src `prefix_of` k)
  then <[dst ++ drop (length src) k := n]> acc
  else acc.

Definition copy_tree (from : gmap path node) (src dst : path)
    (into : gmap path node) : gmap path node :=
  map_fold (copy_entry src dst) into from.

(** [fs.copySync(src, dst)] of fs-extra: a file is copied over a file,
    a directory is merged into a directory; copying a directory into
    itself and overwriting a file by a directory or a directory by a
    file are refused.  The scripts copy into the project directory
    they have just made, so the directory above [dst] always exists
    and is not made here. *)
Definition copySync (fs : gmap path node) (src dst : path)
  : result (gmap path node) :=
  match fs !! src with
  | None => Fail (Errno "ENOENT" "lstat" src)
  | Some (File c) =>
      match fs !! dst with
      | Some Dir =>
          Fail (Error ("Cannot overwrite directory '" +:+ Path.show dst
                       +:+ "' with non-directory '" +:+ Path.show src +:+ "'."))
      | _ => Ok (<[dst := File c]> fs)
      end
  | Some Dir =>
      match fs !! dst with
      | Some (File _) =>
          Fail (Error ("Cannot overwrite non-directory '" +:+ Path.show dst
                       +:+ "' with directory '" +:+ Path.show src +:+ "'."))
      | _ =>
          if Path.under src dst
          then Fail (Error ("Cannot copy '" +:+ Path.show src
                            +:+ "' to a subdirectory of itself, '"
                            +:+ Path.show dst +:+ "'."))
          else Ok (copy_tree fs src dst fs)
      end
  end.

(** [fs.removeSync(p)] of fs-extra: [p] and all below it go; nothing
    happens when [p] does not exist. *)
Definition removeSync (fs : gmap path node) (p : path) : gmap path node :=
  filter (λ kv, ¬ p `prefix_of` kv.1) fs.

(** [fs.renameSync(old, new)] *)
Definition renameSync (fs : gmap path node) (old new : path)
  : result (gmap path node) :=
  match fs !! old with
  | None => Fail (Errno "ENOENT" "rename" old)
  | Some o =>
      if bool_decide (old = new) then Ok fs
      else if Path.under old new then Fail (Errno "EINVAL" "rename" old)
      else if negb (is_dir fs (parent new)) then Fail (Errno "ENOENT" "rename" old)
      else match o, fs !! new with
           | Dir, Some (File _) => Fail (Errno "ENOTDIR" "rename" old)
           | File _, Some Dir => Fail (Errno "EISDIR" "rename" old)
           | Dir, Some Dir =>
               match entries fs new with
               | [] => Ok (removeSync (copy_tree fs old new fs) old)
               | _ :: _ => Fail (Errno "ENOTEMPTY" "rename" old)
               end
           | _, _ => Ok (removeSync (copy_tree fs old new (removeSync fs new)) old)
           end
  end.

(** A file system in which every entry sits in a directory. *)
Definition wf (fs : gmap path node) : Prop :=
  ∀ p c, is_Some (fs !! (p ++ [c])) → fs !! p = Some Dir.

Definition wfb (fs : gmap path node) : bool :=
  forallb (λ k, match k with
                | [] => true
                | _ :: _ => is_dir fs (removelast k)
                end) (map_to_list fs).*1.

End Fs.

(** ** The process: state, exceptions and exit

    A script runs against the file system and the console.  A
    computation returns, throws, or ends the process through
    [process.exit]; in the last case nothing else runs, not even an
    enclosing [finally] block. *)

Inductive event : Type :=
| Stdout (line : string)
| Stderr (line : string)
| Spawn (command : string) (dir : option path).

Record state : Type := mkState {
  fs : gmap path node;
  console : list event;
}.

Inductive outcome (A : Type) : Type :=
| Returned (a : A)
| Thrown (e : error)
| Exited (code : Z).
Arguments Returned {A} a.
Arguments Thrown {A} e.
Arguments Exited {A} code.

Definition Js (A : Type) : Type := state → outcome A * state.

#[global] Instance Js_ret : MRet Js := λ A a st, (Returned a, st).

#[global] Instance Js_bind : MBind Js := λ A B f m st,
  match m st with
  | (Returned a, st') => f a st'
  | (Thrown e, st') => (Thrown e, st')
  | (Exited code, st') => (Exited code, st')
  end.

Module Process.

Definition throw {A} (e : error) : Js A := λ st, (Thrown e, st).

(** [process.exit(code)] *)
Definition exit {A} (code : Z) : Js A := λ st, (Exited code, st).

Definition emit (ev : event) : Js unit := λ st,
  (Returned (), mkState (fs st) (console st ++ [ev])).

Definition console_log (line : string) : Js unit := emit (Stdout line).
Definition console_warn (line : string) : Js unit := emit (Stderr line).
Definition console_error (line : string) : Js unit := emit (Stderr line).

(** A read of the file system that cannot fail. *)
Definition query {A} (f : gmap path node → A) : Js A := λ st,
  (Returned (f (fs st)), st).

(** A read of the file system that may throw. *)
Definition attempt {A} (f : gmap path node → result A) : Js A := λ st,
  match f (fs st) with
  | Ok a => (Returned a, st)
  | Fail e => (Thrown e, st)
  end.

(** A write to the file system that may throw. *)
Definition update (f : gmap path node → result (gmap path node)) : Js unit :=
  λ st,
  match f (fs st) with
  | Ok fs' => (Returned (), mkState fs' (console st))
  | Fail e => (Thrown e, st)
  end.

(** [try { body } catch (e) { handler }] *)
Definition try_catch {A} (body : Js A) (handler : error → Js A) : Js A :=
  λ st,
  match body st with
  | (Thrown e, st') => handler e st'
  | other => other
  end.

(** [try { body } finally { finalizer }]: the finalizer runs after
    the body has returned or thrown; it does not run when the process
    has exited. *)
Definition try_finally {A} (body : Js A) (finalizer : Js unit) : Js A :=
  λ st,
  match body st with
  | (Exited code, st') => (Exited code, st')
  | (r, st') =>
      match finalizer st' with
      | (Returned _, st'') => (r, st'')
      | (Thrown e, st'') => (Thrown e, st'')
      | (Exited code, st'') => (Exited code, st'')
      end
  end.

Definition try_catch_finally {A} (body : Js A) (handler : error → Js A)
    (finalizer : Js unit) : Js A :=
  try_finally (try_catch body handler) finalizer.

(** [items.forEach(f)] *)
Fixpoint for_each {A} (items : list A) (f : A → Js unit) : Js unit :=
  match items with
  | [] => mret ()
  | x :: rest => f x;; for_each rest f
  end.

Definition when (b : bool) (m : Js unit) : Js unit :=
  if b then m else mret ().

(** The process runs [script] to its end; an exception nobody caught
    goes to [uncaught].  The result is the exit code and the final
    state. *)
Definition run (uncaught : error → Js unit) (script : Js unit) (st : state)
  : Z * state :=
  match script st with
  | (Returned _, st') => (0, st')
  | (Exited code, st') => (code, st')
  | (Thrown e, st') =>
      match uncaught e st' with
      | (Exited code, st'') => (code, st'')
      | (_, st'') => (1, st'')
      end
  end.

(** Node's own treatment of an uncaught exception: the error is
    printed and the exit code is 1. *)
Definition default_uncaught (e : error) : Js unit :=
  console_error (error_message e).

(** Every run of [m] takes a state to one related to it by [R],
    however it ends. *)
Definition respects {A} (R : relation state) (m : Js A) : Prop :=
  ∀ st, R st (m st).2.

(** [m] never ends the process. *)
Definition quiet {A} (m : Js A) : Prop :=
  ∀ st code, (m st).1 ≠ Exited code.

(** The state has moved on by printing events that all satisfy [P]. *)
Definition emits (P : event → Prop) : relation state :=
  λ st st', ∃ evs, console st' = console st ++ evs ∧ Forall P evs.

(** The file at [p], if there was none, is still not there. *)
Definition no_file_at (p : path) : relation state :=
  λ st st', Fs.is_file (fs st) p = false → Fs.is_file (fs st') p = false.

(** [m] cannot return when nothing is at [p]. *)
Definition needs {A} (p : path) (m : Js A) : Prop :=
  ∀ st a, fs st !! p = None → (m st).1 ≠ Returned a.

(** What is at [p], or that there is nothing, is as it was. *)
Definition same_at (p : path) : relation state :=
  λ st st', fs st' !! p = fs st !! p.

End Process.

(** ** The world outside the scripts *)

(** The values given on the command line for the three options. *)
Record raw_args : Type := mkRaw {
  given_name : option string;
  given_lang : option string;
  given_llm : option string;
}.

Record args : Type := mkArgs {
  name : string;
  lang : string;
  llm : string;
}.

Record world : Type := mkWorld {
  (** [process.cwd()] *)
  cwd : path;
  (** [os.tmpdir()] *)
  tmpdir : path;
  (** [crypto.randomBytes(6).toString("hex")] *)
  random_hex : string;
  (** [__dirname] of the installed script *)
  dirname : path;
  (** the tree that [git clone] of the template repository fetches;
      [None] when the clone fails *)
  origin : option (gmap path node);
  (** whether [git init] succeeds in the given directory *)
  git_init_ok : path → bool;
  (** [hideBin(process.argv)], option by option *)
  argv : raw_args;
}.

Definition REPO_URL : string :=
  "https://github.com/RamySobhieh/context-engineering-framework.git".
Definition SUPPORTED_LLMS : list string := ["GEMINI"; "CLAUDE"].
Definition REQUIRED_FILES : list string :=
  ["INITIAL_EXAMPLE.md"; "INITIAL.md"; "README.md"].
Definition PLACEHOLDER : string := "{{LLM_AGENT}}".

Module Extern.
Import Process.

(** [execSync("git clone --depth 1 <url> <dir>")]: git refuses a
    target that is a file or a directory with entries; otherwise the
    fetched tree is placed at [dir].  The directory above [dir],
    [os.tmpdir()], is taken to exist, so that the clone makes no
    directory above its target. *)
Definition git_clone (w : world) (dir : path) : Js unit :=
  emit (Spawn ("git clone --depth 1 " +:+ REPO_URL +:+ " " +:+ Path.show dir) None);;
  update (λ fs,
    match origin w with
    | None => Fail (Error "Command failed: git clone")
    | Some tree =>
        if Fs.is_file fs dir || negb (bool_decide (Fs.entries fs dir = []))
        then Fail (Error "Command failed: git clone")
        else Ok (<[dir := Dir]> (Fs.copy_tree tree [] dir fs))
    end).

(** [execSync("git init", { cwd: dir })] *)
Definition git_init (w : world) (dir : path) : Js unit :=
  emit (Spawn "git init" (Some dir));;
  update (λ fs,
    if negb (Fs.is_dir fs dir) then Fail (Errno "ENOENT" "spawnSync" dir)
    else if git_init_ok w dir then Ok (Fs.make_dir fs (dir ++ [".git"]))
    else Fail (Error "Command failed: git init")).

(** The yargs parser configured with the three options: each is
    demanded, [llm] is coerced to upper case before the check, and
    [lang] and [llm] must be among their choices.  On a failed check
    yargs prints the reason and ends the process with code 1. *)
Definition yargs (lang_choices llm_choices : list string) (raw : raw_args)
  : Js args :=
  match given_name raw, given_lang raw, JsString.toUpperCase <$> given_llm raw with
  | Some n, Some l, Some m =>
      if bool_decide (l ∈ lang_choices) && bool_decide (m ∈ llm_choices)
      then mret (mkArgs n l m)
      else (console_error "Invalid values";; exit 1)
  | _, _, _ => (console_error "Missing required argument";; exit 1)
  end.

(** The language names of a listing of the Rules directory. *)
Definition languages_of (files : list string) : list string :=
  map (JsString.replace_first ".md" "")
      (List.filter (λ file, JsString.endsWith file ".md") files).

End Extern.

(** ** The local script

    The template is the parent of the directory the script is installed
    in; nothing is cloned. *)

Module Local.
Import Process Extern.

Definition templateDir (w : world) : path := Path.resolve (dirname w) "..".

Definition copy (from to : path) (entry : string) : Js unit :=
  update (λ fs, Fs.copySync fs (Path.join from [entry]) (Path.join to [entry])).

(** The languages and the arguments. *)
Definition discover (w : world) : Js args :=
  files ← attempt (λ fs, Fs.readdirSync fs (Path.resolve (dirname w) "../Rules"));
  let availableLangs := languages_of files in
  yargs availableLangs ["GEMINI"; "CLAUDE"] (argv w).

(** The project. *)
Definition build (w : world) (argv : args) : Js unit :=
  let projectName := name argv in
  let lang := lang argv in
  let llm := llm argv in
  let projectDir := Path.resolve (cwd w) projectName in
  let templateDir := templateDir w in
  update (λ fs, Fs.mkdirSync fs projectDir);;
  copy templateDir projectDir ".gemini";;
  copy templateDir projectDir "examples";;
  copy templateDir projectDir "Rules";;
  copy templateDir projectDir "src";;
  copy templateDir projectDir "tests";;
  copy templateDir projectDir ".gitattributes";;
  copy templateDir projectDir ".gitignore";;
  copy templateDir projectDir "CLAUDE.md";;
  copy templateDir projectDir "GEMINI.md";;
  copy templateDir projectDir "INITIAL_EXAMPLE.md";;
  copy templateDir projectDir "INITIAL.md";;
  copy templateDir projectDir "README.md";;
  let prpTemplatePath :=
    Path.join projectDir [".gemini"; "templates"; "prp_template.md"] in
  let langTemplatePath :=
    Path.join projectDir [".gemini"; "templates"; "prp_template_" +:+ lang +:+ ".md"] in
  has_template ← query (λ fs, Fs.existsSync fs langTemplatePath);
  when has_template (
    prpContent ← attempt (λ fs, Fs.readFileSync fs langTemplatePath);
    let prpContent := JsString.replace_global PLACEHOLDER llm prpContent in
    update (λ fs, Fs.writeFileSync fs prpTemplatePath prpContent));;
  let geminiRulesPath := Path.join projectDir ["GEMINI.md"] in
  let claudeRulesPath := Path.join projectDir ["CLAUDE.md"] in
  let langRulesPath := Path.join projectDir ["Rules"; lang +:+ ".md"] in
  has_rules ← query (λ fs, Fs.existsSync fs langRulesPath);
  when has_rules (
    langRulesContent ← attempt (λ fs, Fs.readFileSync fs langRulesPath);
    update (λ fs, Fs.writeFileSync fs geminiRulesPath langRulesContent);;
    update (λ fs, Fs.writeFileSync fs claudeRulesPath langRulesContent));;
  update (λ fs, Fs.renameSync fs (Path.join projectDir ["src"])
                                 (Path.join projectDir [projectName]));;
  git_init w projectDir;;
  console_log ("Project " +:+ projectName +:+ " created successfully!").

Definition script (w : world) : Js unit :=
  argv ← discover w;
  build w argv.

Definition main (w : world) (st : state) : Z * state :=
  run default_uncaught (script w) st.

End Local.

(** ** The cloning script (first half of index.js) *)

Module Clone.
Import Process Extern.

Definition tempDir (w : world) : path :=
  Path.join (tmpdir w) ["context-engineering-framework-" +:+ random_hex w].

Definition copy (from to : path) (entry : string) : Js unit :=
  update (λ fs, Fs.copySync fs (Path.join from [entry]) (Path.join to [entry])).

(** Lines 91 to 108: the PRP template. *)
Definition configure_prp_template (projectDir : path) (lang llm : string)
  : Js unit :=
  let prpTemplatePath :=
    Path.join projectDir [".context"; "templates"; "prp_template.md"] in
  let langTemplatePath :=
    Path.join projectDir [".context"; "templates"; "prp_template_" +:+ lang +:+ ".md"] in
  has_template ← query (λ fs, Fs.existsSync fs langTemplatePath);
  when has_template (
    prpContent ← attempt (λ fs, Fs.readFileSync fs langTemplatePath);
    let prpContent := JsString.replace_global PLACEHOLDER llm prpContent in
    update (λ fs, Fs.writeFileSync fs prpTemplatePath prpContent)).

(** Lines 110 to 121: the language rules. *)
Definition geminiRulesPath (projectDir : path) : path :=
  Path.join projectDir ["GEMINI.md"].
Definition claudeRulesPath (projectDir : path) : path :=
  Path.join projectDir ["CLAUDE.md"].
Definition langRulesPath (templateDir : path) (lang : string) : path :=
  Path.join templateDir ["Rules"; lang +:+ ".md"].

Definition write_language_rules (templateDir projectDir : path)
    (lang llm : string) : Js unit :=
  has_rules ← query (λ fs, Fs.existsSync fs (langRulesPath templateDir lang));
  when has_rules (
    langRulesContent ← attempt (λ fs, Fs.readFileSync fs (langRulesPath templateDir lang));
    if String.eqb llm "GEMINI"
    then update (λ fs, Fs.writeFileSync fs (langRulesPath templateDir lang)
                         (Path.show (geminiRulesPath projectDir)))
    else update (λ fs, Fs.writeFileSync fs (langRulesPath templateDir lang)
                         (Path.show (claudeRulesPath projectDir)))).

(** Lines 17 to 47: the clone, the languages and the arguments. *)
Definition discover (w : world) : Js args :=
  git_clone w (tempDir w);;
  files ← attempt (λ fs, Fs.readdirSync fs (Path.join (tempDir w) ["Rules"]));
  let availableLangs := languages_of files in
  yargs availableLangs ["GEMINI"; "CLAUDE"] (argv w).

(** Lines 49 to 130: the project. *)
Definition build (w : world) (argv : args) : Js unit :=
  let projectName := name argv in
  let lang := lang argv in
  let llm := llm argv in
  let projectDir := Path.resolve (cwd w) projectName in
  let templateDir := tempDir w in
  update (λ fs, Fs.mkdirSync fs projectDir);;
  copy templateDir projectDir ".context";;
  copy templateDir projectDir "examples";;
  (if String.eqb llm "CLAUDE"
   then copy templateDir projectDir "CLAUDE.md"
   else copy templateDir projectDir "GEMINI.md");;
  copy templateDir projectDir "INITIAL_EXAMPLE.md";;
  copy templateDir projectDir "INITIAL.md";;
  copy templateDir projectDir "README.md";;
  configure_prp_template projectDir lang llm;;
  write_language_rules templateDir projectDir lang llm;;
  update (λ fs, Fs.mkdirSync fs (Path.join projectDir [projectName]));;
  git_init w (Path.join projectDir [projectName]);;
  update (λ fs, Ok (Fs.removeSync fs (tempDir w)));;
  console_log ("Project " +:+ projectName +:+ " created successfully!").

Definition script (w : world) : Js unit :=
  argv ← discover w;
  build w argv.

Definition main (w : world) (st : state) : Z * state :=
  run default_uncaught (script w) st.

End Clone.

(** ** The refactored script (second half of index.js) *)

Module Refactored.
Import Process Extern.

Definition generateTempDir (w : world) : path :=
  let randomSuffix := random_hex w in
  Path.join (tmpdir w) ["context-engineering-framework-" +:+ randomSuffix].

Definition cloneRepository (w : world) (tempDir : path) : Js unit :=
  try_catch
    (console_log "Cloning repository...";;
     git_clone w tempDir)
    (λ error,
      throw (Error ("Failed to clone repository: " +:+ error_message error))).

Definition getAvailableLanguages (tempDir : path) : Js (list string) :=
  let rulesDir := Path.join tempDir ["Rules"] in
  has_rules ← query (λ fs, Fs.existsSync fs rulesDir);
  if negb has_rules
  then throw (Error "Rules directory not found in the cloned repository")
  else
    files ← attempt (λ fs, Fs.readdirSync fs rulesDir);
    let languages := languages_of files in
    if bool_decide (length languages = 0%nat)
    then throw (Error "No language files found in Rules directory")
    else mret languages.

Definition parseArguments (w : world) (availableLanguages : list string)
  : Js args :=
  yargs availableLanguages SUPPORTED_LLMS (argv w).

Definition validateProjectDirectory (projectDir : path) : Js unit :=
  present ← query (λ fs, Fs.existsSync fs projectDir);
  if (present : bool)
  then throw (Error ("Directory '" +:+ Path.show projectDir +:+ "' already exists"))
  else mret ().

Definition createProjectDirectory (projectDir : path) : Js unit :=
  try_catch
    (update (λ fs, Fs.mkdirSync_recursive fs projectDir);;
     console_log ("Created project directory: " +:+ Path.show projectDir))
    (λ error,
      throw (Error ("Failed to create project directory: " +:+ error_message error))).

Definition copyCoreDiretories (templateDir projectDir : path) : Js unit :=
  let coreDirectories := [".context"; "examples"] in
  for_each coreDirectories (λ dir,
    let srcPath := Path.join templateDir [dir] in
    let destPath := Path.join projectDir [dir] in
    present ← query (λ fs, Fs.existsSync fs srcPath);
    when present (
      update (λ fs, Fs.copySync fs srcPath destPath);;
      console_log ("Copied " +:+ dir +:+ " directory"))).

Definition copyRequiredFiles (templateDir projectDir : path) : Js unit :=
  for_each REQUIRED_FILES (λ file,
    let srcPath := Path.join templateDir [file] in
    let destPath := Path.join projectDir [file] in
    present ← query (λ fs, Fs.existsSync fs srcPath);
    when present (
      update (λ fs, Fs.copySync fs srcPath destPath);;
      console_log ("Copied " +:+ file))).

Definition copyLLMFile (templateDir projectDir : path) (llm : string) : Js unit :=
  let llmFile := llm +:+ ".md" in
  let srcPath := Path.join templateDir [llmFile] in
  let destPath := Path.join projectDir [llmFile] in
  present ← query (λ fs, Fs.existsSync fs srcPath);
  when present (
    update (λ fs, Fs.copySync fs srcPath destPath);;
    console_log ("Copied " +:+ llmFile)).

Definition configurePRPTemplate (projectDir : path) (language llm : string)
  : Js unit :=
  let prpTemplatePath :=
    Path.join projectDir [".context"; "templates"; "prp_template.md"] in
  let langTemplatePath :=
    Path.join projectDir
      [".context"; "templates"; "prp_template_" +:+ language +:+ ".md"] in
  present ← query (λ fs, Fs.existsSync fs langTemplatePath);
  when present (
    prpContent ← attempt (λ fs, Fs.readFileSync fs langTemplatePath);
    let prpContent := JsString.replace_global PLACEHOLDER llm prpContent in
    update (λ fs, Fs.writeFileSync fs prpTemplatePath prpContent);;
    console_log ("Configured PRP template for " +:+ language +:+ " and " +:+ llm)).

Definition applyLanguageRules (templateDir projectDir : path)
    (language llm : string) : Js unit :=
  let langRulesPath := Path.join templateDir ["Rules"; language +:+ ".md"] in
  present ← query (λ fs, Fs.existsSync fs langRulesPath);
  if negb present
  then console_warn ("Warning: No language rules found for " +:+ language)
  else
    langRulesContent ← attempt (λ fs, Fs.readFileSync fs langRulesPath);
    let targetRulesPath := Path.join projectDir [llm +:+ ".md"] in
    update (λ fs, Fs.writeFileSync fs targetRulesPath langRulesContent);;
    console_log ("Applied " +:+ language +:+ " rules to " +:+ llm +:+ ".md").

Definition initializeProjectStructure (w : world) (projectDir : path)
    (projectName : string) : Js unit :=
  let srcDir := Path.join projectDir [projectName] in
  update (λ fs, Fs.mkdirSync_recursive fs srcDir);;
  console_log ("Created source directory: " +:+ Path.show srcDir);;
  try_catch
    (git_init w srcDir;;
     console_log "Initialized git repository")
    (λ error,
      console_warn ("Warning: Failed to initialize git repository: "
                    +:+ error_message error)).

Definition cleanupTemplateFiles (projectDir : path) : Js unit :=
  let templatesDir := Path.join projectDir [".context"; "templates"] in
  present ← query (λ fs, Fs.existsSync fs templatesDir);
  if negb present then mret ()
  else
    files ← attempt (λ fs, Fs.readdirSync fs templatesDir);
    for_each files (λ file,
      when (negb (String.eqb file "prp_template.md")) (
        let filePath := Path.join templatesDir [file] in
        update (λ fs, Ok (Fs.removeSync fs filePath))));;
    console_log "Cleaned up template files".

Definition cleanupTempDirectory (tempDir : path) : Js unit :=
  try_catch
    (update (λ fs, Ok (Fs.removeSync fs tempDir));;
     console_log "Cleaned up temporary files")
    (λ error,
      console_warn ("Warning: Failed to cleanup temporary directory: "
                    +:+ error_message error)).

(** The body of the [try] block of [main], phase by phase as its
    comments name them. *)
Definition setup_phase (w : world) (tempDir : path) : Js args :=
  cloneRepository w tempDir;;
  availableLanguages ← getAvailableLanguages tempDir;
  parseArguments w availableLanguages.

Definition creation_phase (tempDir projectDir : path) (argv : args) : Js unit :=
  console_log ("Creating project '" +:+ name argv +:+ "' with " +:+ lang argv
               +:+ " language rules for " +:+ llm argv +:+ "...");;
  createProjectDirectory projectDir;;
  copyCoreDiretories tempDir projectDir;;
  copyRequiredFiles tempDir projectDir;;
  copyLLMFile tempDir projectDir (llm argv).

Definition configuration_phase (w : world) (tempDir projectDir : path)
    (argv : args) : Js unit :=
  configurePRPTemplate projectDir (lang argv) (llm argv);;
  applyLanguageRules tempDir projectDir (lang argv) (llm argv);;
  initializeProjectStructure w projectDir (name argv).

(** The four lines that report success.  The strings are those of the
    source without the pictograph that opens each of them, and without
    the line feed before the first; the same holds for the message of the
    [catch] block of [main]. *)
Definition report (projectDir : path) (argv : args) : Js unit :=
  console_log ("Project '" +:+ name argv +:+ "' created successfully!");;
  console_log ("Location: " +:+ Path.show projectDir);;
  console_log ("Language: " +:+ lang argv);;
  console_log ("LLM: " +:+ llm argv).

Definition pipeline (w : world) (tempDir : path) : Js unit :=
  argv ← setup_phase w tempDir;
  let projectDir := Path.resolve (cwd w) (name argv) in
  validateProjectDirectory projectDir;;
  creation_phase tempDir projectDir argv;;
  configuration_phase w tempDir projectDir argv;;
  cleanupTemplateFiles projectDir;;
  report projectDir argv.

Definition main (w : world) : Js unit :=
  let tempDir := generateTempDir w in
  try_catch_finally
    (pipeline w tempDir)
    (λ error,
      console_error ("Error: " +:+ error_message error);;
      exit 1)
    (cleanupTempDirectory tempDir).

(** The handler installed for [uncaughtException]; the handler for
    [unhandledRejection] prints and exits in the same way.  Neither is
    ever entered for an error of [main], which lets none escape. *)
Definition on_uncaught (e : error) : Js unit :=
  console_error ("Uncaught Exception: " +:+ error_message e);;
  exit 1.

Definition start (w : world) (st : state) : Z * state :=
  run on_uncaught (main w) st.

End Refactored.

(** ** What the specification asks for *)

Module Spec.
Import JsString.

(** What the PRP template is to hold once [content] has had its
    placeholders resolved to [llm]: cut at its occurrences of the
    placeholder, the content gives as many pieces as occurrences plus
    one, the written text is those pieces with [llm] between them,
    and it holds no placeholder. *)
Definition resolved (llm content written : string) : Prop :=
  occurrences PLACEHOLDER written = 0%nat
  ∧ (∃ pieces, content = join PLACEHOLDER pieces
               ∧ length pieces = S (occurrences PLACEHOLDER content))
  ∧ (∀ pieces, content = join PLACEHOLDER pieces →
               length pieces = S (occurrences PLACEHOLDER content) →
               written = join llm pieces).

(** [after] agrees with [before] everywhere but at and below [t]. *)
Definition outside (t : path) (before after : gmap path node) : Prop :=
  ∀ p, ¬ t `prefix_of` p → after !! p = before !! p.

(** Nothing lives at or below [t]. *)
Definition vacant (t : path) (fs : gmap path node) : Prop :=
  map_Forall (λ k _, ¬ t `prefix_of` k) fs.

(** What [git clone] leaves when it has put [tree] at [dir]. *)
Definition cloned (tree : gmap path node) (dir : path)
    (fs : gmap path node) : gmap path node :=
  <[dir := Dir]> (Fs.copy_tree tree [] dir fs).

(** Where the file system stands once the cloning scripts have parsed
    their arguments: as it was, or with the clone in place. *)
Definition reached (w : world) (dir : path) (st st' : state) : Prop :=
  fs st' = fs st
  ∨ ∃ tree, origin w = Some tree ∧ fs st' = cloned tree dir (fs st).

(** The languages the cloning scripts offer: the markdown files of
    the Rules directory of the clone. *)
Definition discovered (w : world) (dir : path) (fs : gmap path node)
  : list string :=
  match origin w with
  | Some tree =>
      Extern.languages_of (Fs.entries (cloned tree dir fs) (dir ++ ["Rules"]))
  | None => []
  end.

(** [m] is GEMINI or CLAUDE up to case. *)
Definition llm_accepted (m : string) : bool :=
  eq_nocase m "GEMINI" || eq_nocase m "CLAUDE".

(** The command line names a language that is not offered or an LLM
    that is not supported. *)
Definition invalid (langs : list string) (raw : raw_args) : Prop :=
  (∃ l, given_lang raw = Some l ∧ l ∉ langs)
  ∨ (∃ m, given_llm raw = Some m ∧ llm_accepted m = false).

(** Every component of every path of the file system is an ordinary
    name: none is empty, a dot, two dots, or holds a slash. *)
Definition proper (fs : gmap path node) : Prop :=
  map_Forall (λ k _, forallb Path.simple k = true) fs.

(** A proper file system is left proper. *)
Definition stays_proper : relation state :=
  λ st st', proper (fs st) → proper (fs st').

(** From a proper file system, the entry at [q] is left as it was. *)
Definition kept (q : path) : relation state :=
  λ st st', proper (fs st) → proper (fs st') ∧ fs st' !! q = fs st !! q.

(** The console ends with the events [evs]. *)
Definition ends_with (evs : list event) (st : state) : Prop :=
  ∃ before, console st = before ++ evs.

(** The last thing printed is a line on the error stream. *)
Definition ends_in_error (st : state) : Prop :=
  ∃ line, last (console st) = Some (Stderr line).

(** The lines that close a successful run of the refactored script. *)
Definition success_report (projectDir : path) (a : args) : list event :=
  [Stdout ("Project '" +:+ name a +:+ "' created successfully!");
   Stdout ("Location: " +:+ Path.show projectDir);
   Stdout ("Language: " +:+ lang a);
   Stdout ("LLM: " +:+ llm a);
   Stdout "Cleaned up temporary files"].

(** Whether [q] lies at or below an entry, other than the PRP template,
    of the directory [dir] whose entries are [files]. *)
Definition swept (dir : path) (files : list string) (q : path) : bool :=
  existsb (λ file, negb (String.eqb file "prp_template.md")
                   && bool_decide ((dir ++ [file]) `prefix_of` q)) files.

(** Every event that is not the start of a command satisfies [P]. *)
Definition chatty (P : event → Prop) : Prop :=
  (∀ line, P (Stdout line)) ∧ (∀ line, P (Stderr line)).

(** No event but a [git init] in [dir] is a [git init]. *)
Definition only_in (dir : path) (ev : event) : Prop :=
  ∀ d, ev = Spawn "git init" d → d = Some dir.

(** An event that starts a process starts [command] in [dir]. *)
Definition starts_only (command : string) (dir : path) (ev : event) : Prop :=
  ∀ c d, ev = Spawn c d → c = command ∧ d = Some dir.

(** Since [before], [git init] has been run in [dir], and nowhere else. *)
Definition git_init_only_in (dir : path) (before after : state) : Prop :=
  ∃ evs, console after = console before ++ evs
         ∧ Spawn "git init" (Some dir) ∈ evs
         ∧ ∀ d, Spawn "git init" d ∈ evs → d = Some dir.

(** What is found at [q] when the clone of [tree] is in place at [temp]
    and the entries [copied] of its root have been copied into the
    fresh directory [dest] of the disk [fs0]. *)
Definition stage (tree : gmap path node) (temp dest : path)
    (copied : list string) (fs0 : gmap path node) (q : path) : option node :=
  if bool_decide (dest `prefix_of` q)
  then match skipn (length dest) q with
       | [] => Some Dir
       | c :: rest =>
           if bool_decide (c ∈ copied) then tree !! (c :: rest) else None
       end
  else if bool_decide (temp `prefix_of` q)
  then match skipn (length temp) q with
       | [] => Some Dir
       | r => tree !! r
       end
  else fs0 !! q.

(** A request the refactored script can serve: the template can be
    cloned and is a proper tree in which the documents the script
    reads and writes are not directories and the templates directory
    is not a file; the arguments are accepted; the name is an ordinary
    one that none of the copied entries bears; the disk is proper, the
    working directory exists, the destination and the temporary
    directory are free and apart from each other. *)
Record ready (w : world) (st : state) (tree : gmap path node)
    (nm l m : string) : Prop := {
  ready_origin : origin w = Some tree;
  ready_argv : argv w = mkRaw (Some nm) (Some l) (Some m);
  ready_llm : JsString.toUpperCase m ∈ SUPPORTED_LLMS;
  ready_lang : l ∈ Extern.languages_of (Fs.entries tree ["Rules"]);
  ready_name : Path.simple nm = true;
  ready_name_free :
    nm ∉ [".context"; "examples"; "INITIAL_EXAMPLE.md"; "INITIAL.md";
          "README.md"; "GEMINI.md"; "CLAUDE.md"];
  ready_lang_simple : Path.simple (l +:+ ".md") = true;
  ready_variant_simple : Path.simple ("prp_template_" +:+ l +:+ ".md") = true;
  ready_tree_wf : Fs.wf tree;
  ready_tree_proper : proper tree;
  ready_rules_file : tree !! ["Rules"; l +:+ ".md"] ≠ Some Dir;
  ready_variant_file :
    tree !! [".context"; "templates"; "prp_template_" +:+ l +:+ ".md"] ≠ Some Dir;
  ready_generic_file :
    tree !! [".context"; "templates"; "prp_template.md"] ≠ Some Dir;
  ready_branding_file : tree !! [JsString.toUpperCase m +:+ ".md"] ≠ Some Dir;
  ready_templates_dir : Fs.is_file tree [".context"; "templates"] = false;
  ready_disk_wf : Fs.wf (fs st);
  ready_disk_proper : proper (fs st);
  ready_cwd : fs st !! cwd w = Some Dir;
  ready_cwd_proper : forallb Path.simple (cwd w) = true;
  ready_free : fs st !! (cwd w ++ [nm]) = None;
  ready_temp_proper : forallb Path.simple (Refactored.generateTempDir w) = true;
  ready_temp_vacant : vacant (Refactored.generateTempDir w) (fs st);
  ready_temp_apart : ¬ Refactored.generateTempDir w `prefix_of` (cwd w ++ [nm]);
  ready_dest_apart : ¬ (cwd w ++ [nm]) `prefix_of` Refactored.generateTempDir w;
}.

End Spec.

(** ** Scenarios

    A small template repository, a small disk and a few invocations,
    used to run the scripts on concrete inputs. *)

Module Scenario.

Definition template : gmap path node := list_to_map [
  ([], Dir);
  (["Rules"], Dir);
  (["Rules"; "react.md"], File "react rules");
  (["Rules"; "dotnet.md"], File "dotnet rules");
  ([".context"], Dir);
  ([".context"; "scripts"], Dir);
  ([".context"; "scripts"; "execute-prp.sh"], File "#!/bin/bash");
  ([".context"; "templates"], Dir);
  ([".context"; "templates"; "prp_template.md"], File "generic");
  ([".context"; "templates"; "prp_template_react.md"],
     File "standards: {{LLM_AGENT}}.md, agent: {{LLM_AGENT}}");
  (["examples"], Dir);
  (["CLAUDE.md"], File "claude branding");
  (["GEMINI.md"], File "gemini branding");
  (["INITIAL_EXAMPLE.md"], File "initial example");
  (["INITIAL.md"], File "initial");
  (["README.md"], File "readme")].

(** A template whose Rules directory holds no markdown file. *)
Definition template_without_rules : gmap path node := list_to_map [
  ([], Dir);
  (["Rules"], Dir);
  (["Rules"; "notes.txt"], File "nothing here");
  (["CLAUDE.md"], File "claude branding");
  (["GEMINI.md"], File "gemini branding")].

Definition disk : gmap path node := list_to_map [
  ([], Dir);
  (["tmp"], Dir);
  (["home"], Dir);
  (["home"; "u"], Dir)].

(** The same disk with the template installed under [/opt/tpl], as
    the local script expects it. *)
Definition disk_with_template : gmap path node := list_to_map [
  ([], Dir);
  (["tmp"], Dir);
  (["home"], Dir);
  (["home"; "u"], Dir);
  (["opt"], Dir);
  (["opt"; "tpl"], Dir);
  (["opt"; "tpl"; "bin"], Dir);
  (["opt"; "tpl"; "Rules"], Dir);
  (["opt"; "tpl"; "Rules"; "react.md"], File "react rules");
  (["opt"; "tpl"; ".gemini"], Dir);
  (["opt"; "tpl"; ".gemini"; "templates"], Dir);
  (["opt"; "tpl"; ".gemini"; "templates"; "prp_template.md"], File "generic");
  (["opt"; "tpl"; "examples"], Dir);
  (["opt"; "tpl"; "src"], Dir);
  (["opt"; "tpl"; "tests"], Dir);
  (["opt"; "tpl"; ".gitattributes"], File "* text=auto");
  (["opt"; "tpl"; ".gitignore"], File "node_modules");
  (["opt"; "tpl"; "CLAUDE.md"], File "claude branding");
  (["opt"; "tpl"; "GEMINI.md"], File "gemini branding");
  (["opt"; "tpl"; "INITIAL_EXAMPLE.md"], File "initial example");
  (["opt"; "tpl"; "INITIAL.md"], File "initial");
  (["opt"; "tpl"; "README.md"], File "readme")].

Definition invocation (n l m : string) : raw_args :=
  mkRaw (Some n) (Some l) (Some m).

Definition world_of (tree : option (gmap path node)) (git : bool)
    (raw : raw_args) : world :=
  {| cwd := ["home"; "u"];
     tmpdir := ["tmp"];
     random_hex := "00ff00ff00ff";
     dirname := ["opt"; "tpl"; "bin"];
     origin := tree;
     git_init_ok := λ _, git;
     argv := raw |}.

(** [--name app --lang react --llm claude] *)
Definition request : world :=
  world_of (Some template) true (invocation "app" "react" "claude").

(** [--name app --lang cobol --llm claude] *)
Definition bad_lang : world :=
  world_of (Some template) true (invocation "app" "cobol" "claude").

(** [--name app --lang react --llm gpt] *)
Definition bad_llm : world :=
  world_of (Some template) true (invocation "app" "react" "gpt").

(** The same request when [git init] fails. *)
Definition git_fails : world :=
  world_of (Some template) false (invocation "app" "react" "claude").

(** The same request against a template without language rules. *)
Definition no_rules : world :=
  world_of (Some template_without_rules) true (invocation "app" "react" "claude").

Definition temp : path := ["tmp"; "context-engineering-framework-00ff00ff00ff"].
Definition app : path := ["home"; "u"; "app"].

(** The destination is free. *)
Definition fresh : state := mkState disk [].
(** The destination is taken. *)
Definition taken : state := mkState (<[app := Dir]> disk) [].

(** The state the cloning script has reached when it comes to the
    language rules: the clone is in place and the destination holds
    the copied entries. *)
Definition staged : state :=
  mkState
    (Fs.copy_tree template [] temp
       (list_to_map [
          ([], Dir); (["tmp"], Dir); (temp, Dir); (["home"], Dir); (["home"; "u"], Dir);
          (app, Dir);
          (app ++ [".context"], Dir);
          (app ++ [".context"; "templates"], Dir);
          (app ++ [".context"; "templates"; "prp_template.md"],
             File "standards: CLAUDE.md, agent: CLAUDE");
          (app ++ ["examples"], Dir);
          (app ++ ["CLAUDE.md"], File "claude branding");
          (app ++ ["INITIAL_EXAMPLE.md"], File "initial example");
          (app ++ ["INITIAL.md"], File "initial");
          (app ++ ["README.md"], File "readme")]))
    [].

End Scenario.

(** * Properties *)

(** ** Strings: the global replacement *)

Module StringFacts.
Import JsString.

Lemma append_cons (c : ascii) (t s : string) :
  String c t +:+ s = String c (t +:+ s).
Proof. reflexivity. Qed.

Lemma append_nil (s : string) : "" +:+ s = s.
Proof. reflexivity. Qed.

Lemma startsWith_app (t s : string) : startsWith (t +:+ s) t = true.
Proof.
  induction t as [|c t IH]; [done|].
  rewrite append_cons. cbn [startsWith]. by rewrite Ascii.eqb_refl, IH.
Qed.

Lemma startsWith_inv (t s : string) :
  startsWith s t = true → s = t +:+ drop (String.length t) s.
Proof.
  revert s; induction t as [|c t IH]; intros s; simpl; [done|].
  destruct s as [|a s]; [done|].
  intros [Hc Ht]%andb_true_iff. apply Ascii.eqb_eq in Hc as ->.
  rewrite append_cons. f_equal. by apply IH.
Qed.

Lemma append_assoc (a b c : string) : (a +:+ b) +:+ c = a +:+ b +:+ c.
Proof. induction a; rewrite ?append_cons, ?append_nil; congruence. Qed.

Lemma length_append (a b : string) :
  String.length (a +:+ b) = (String.length a + String.length b)%nat.
Proof. induction a; rewrite ?append_cons, ?append_nil; simpl; congruence. Qed.

Lemma startsWith_app_clash (a z b : string) :
  startsWith (a +:+ z) b = true → clash a b = true.
Proof.
  unfold clash. revert b; induction a as [|x a IH]; intros b.
  - intros _. by destruct b.
  - rewrite append_cons. destruct b as [|y b]; simpl; [done|].
    intros [Hxy Hb]%andb_true_iff. rewrite (Ascii.eqb_sym y x), Hxy. simpl.
    by apply IH.
Qed.

Section Replace.
Variables tok rep : string.
Hypothesis tok_nonempty : tok ≠ "".

Lemma replace_from_skip (k s : string) :
  replace_from (String.length k) tok rep (k +:+ s) = replace_from 0 tok rep s.
Proof. induction k as [|a k IH]; [done|exact IH]. Qed.

Lemma replace_match (s : string) :
  replace_global tok rep (tok +:+ s) = rep +:+ replace_global tok rep s.
Proof.
  destruct tok as [|c k] eqn:E; [done|].
  rewrite <- E. unfold replace_global.
  assert (tok +:+ s = String c (k +:+ s)) as -> by by rewrite E.
  cbn [replace_from].
  assert (startsWith (String c (k +:+ s)) tok = true) as ->.
  { rewrite E. apply (startsWith_app (String c k)). }
  rewrite E at 1. cbn [String.length]. rewrite Nat.sub_1_r. cbn [Nat.pred].
  by rewrite replace_from_skip.
Qed.

Lemma replace_nomatch (a : ascii) (s : string) :
  startsWith (String a s) tok = false →
  replace_global tok rep (String a s) = String a (replace_global tok rep s).
Proof. intros H. unfold replace_global. cbn [replace_from]. by rewrite H. Qed.

Lemma occurrences_cons (a : ascii) (s : string) :
  occurrences tok (String a s) =
    ((if startsWith (String a s) tok then 1 else 0) + occurrences tok s)%nat.
Proof. reflexivity. Qed.

Lemma occurrences_app_ge (p x : string) :
  (occurrences tok x ≤ occurrences tok (p +:+ x))%nat.
Proof.
  induction p as [|a p IH]; [done|].
  change (String a p +:+ x) with (String a (p +:+ x)).
  rewrite occurrences_cons. lia.
Qed.

(** A prefix that starts no occurrence is copied. *)
Lemma replace_clean_prefix (p x : string) :
  (occurrences tok (p +:+ x) ≤ occurrences tok x)%nat →
  replace_global tok rep (p +:+ x) = p +:+ replace_global tok rep x.
Proof.
  induction p as [|a p IH]; [done|].
  change (String a p +:+ x) with (String a (p +:+ x)).
  rewrite occurrences_cons. intros H.
  pose proof (occurrences_app_ge p x).
  destruct (startsWith (String a (p +:+ x)) tok) eqn:E; [lia|].
  rewrite (replace_nomatch _ _ E), IH by lia. done.
Qed.

Lemma replace_no_occurrence (s : string) :
  occurrences tok s = 0%nat → replace_global tok rep s = s.
Proof.
  induction s as [|a s IH]; [done|].
  rewrite occurrences_cons.
  destruct (startsWith (String a s) tok) eqn:E; [lia|]. intros H.
  rewrite (replace_nomatch _ _ E), IH by lia. done.
Qed.

Lemma occurrences_match_ge (x : string) :
  (S (occurrences tok x) ≤ occurrences tok (tok +:+ x))%nat.
Proof.
  destruct tok as [|c k] eqn:E; [done|].
  change (String c k +:+ x) with (String c (k +:+ x)).
  rewrite <- E, occurrences_cons.
  assert (startsWith (String c (k +:+ x)) tok = true) as ->.
  { rewrite E. apply (startsWith_app (String c k)). }
  pose proof (occurrences_app_ge k x). lia.
Qed.

Lemma join_cons2 (sep p q : string) (rest : list string) :
  join sep (p :: q :: rest) = p +:+ sep +:+ join sep (q :: rest).
Proof. reflexivity. Qed.

Lemma occurrences_join_ge (pieces : list string) :
  (length pieces - 1 ≤ occurrences tok (join tok pieces))%nat.
Proof.
  induction pieces as [|p [|q rest] IH]; simpl length; [lia..|].
  rewrite join_cons2.
  pose proof (occurrences_app_ge p (tok +:+ join tok (q :: rest))).
  pose proof (occurrences_match_ge (join tok (q :: rest))).
  simpl length in IH. lia.
Qed.

(** When the separators are the only occurrences of [tok], the
    replacement puts [rep] in the place of each separator. *)
Lemma replace_join (pieces : list string) :
  occurrences tok (join tok pieces) = (length pieces - 1)%nat →
  replace_global tok rep (join tok pieces) = join rep pieces.
Proof.
  induction pieces as [|p [|q rest] IH]; [done| |].
  - simpl. apply replace_no_occurrence.
  - rewrite !join_cons2. simpl length. intros H.
    pose proof (occurrences_app_ge p (tok +:+ join tok (q :: rest))).
    pose proof (occurrences_match_ge (join tok (q :: rest))).
    pose proof (occurrences_join_ge (q :: rest)) as Hj. simpl length in Hj.
    rewrite replace_clean_prefix by lia.
    rewrite replace_match, IH; [done|]. simpl length. lia.
Qed.

(** The output starts with a suffix of the token only where the
    input did. *)
Lemma startsWith_replace (u s : string) :
  clean_suffixes u rep = true →
  startsWith (replace_global tok rep s) u = true → startsWith s u = true.
Proof.
  revert s. induction u as [|y u IH]; intros s Hu; [done|].
  cbn [clean_suffixes] in Hu. apply andb_true_iff in Hu as [Hc Hu].
  apply negb_true_iff in Hc.
  destruct s as [|a s]; [done|].
  destruct (startsWith (String a s) tok) eqn:E.
  - rewrite (startsWith_inv _ _ E), replace_match.
    intros H%startsWith_app_clash. unfold clash in *.
    rewrite orb_comm in H. congruence.
  - rewrite (replace_nomatch _ _ E). cbn [startsWith].
    intros [-> H]%andb_true_iff. rewrite (IH s Hu H). done.
Qed.

Lemma occurrences_clean_prefix (v y : string) :
  clean_suffixes v tok = true →
  occurrences tok (v +:+ y) = occurrences tok y.
Proof.
  induction v as [|a v IH]; [done|]. cbn [clean_suffixes].
  intros [Hc Hv]%andb_true_iff. apply negb_true_iff in Hc.
  change (String a v +:+ y) with (String a (v +:+ y)).
  rewrite occurrences_cons, IH by done.
  destruct (startsWith (String a (v +:+ y)) tok) eqn:E; [|done].
  apply (startsWith_app_clash (String a v)) in E. congruence.
Qed.

(** No occurrence of the token is left, provided token and
    replacement cannot overlap. *)
Lemma occurrences_replace (s : string) :
  clean_suffixes tok rep = true →
  clean_suffixes rep tok = true →
  occurrences tok (replace_global tok rep s) = 0%nat.
Proof.
  intros Htok Hrep.
  remember (String.length s) as n eqn:En.
  revert s En. induction (lt_wf n) as [n _ IH]. intros s ->.
  destruct s as [|a s]; [done|].
  destruct (startsWith (String a s) tok) eqn:E.
  - rewrite (startsWith_inv _ _ E), replace_match.
    rewrite occurrences_clean_prefix by done.
    eapply IH; [|reflexivity].
    rewrite (startsWith_inv _ _ E) at 2. rewrite length_append.
    destruct tok; [done|]. simpl. lia.
  - rewrite (replace_nomatch _ _ E), occurrences_cons.
    rewrite (IH (String.length s)) by (simpl; lia || done).
    destruct (startsWith (String a (replace_global tok rep s)) tok) eqn:E2;
      [|done].
    rewrite <- (replace_nomatch _ _ E) in E2.
    apply startsWith_replace in E2; [congruence|done].
Qed.

(** Every string splits at the occurrences of a token that cannot
    overlap itself. *)
Lemma split_exists (s : string) :
  clean_suffixes (drop 1 tok) tok = true →
  ∃ pieces, s = join tok pieces
            ∧ length pieces = S (occurrences tok s).
Proof.
  intros Hfree.
  remember (String.length s) as n eqn:En.
  revert s En. induction (lt_wf n) as [n _ IH]. intros s ->.
  destruct s as [|a s]; [by exists [""]|].
  rewrite occurrences_cons.
  destruct (startsWith (String a s) tok) eqn:E.
  - pose proof (startsWith_inv _ _ E) as Hs.
    set (x := drop (String.length tok) (String a s)) in *.
    destruct (IH (String.length x)) with (s := x) as (ps & Hj & Hl); [|done|].
    { rewrite Hs, length_append. destruct tok; [done|]. simpl. lia. }
    exists ("" :: ps). destruct ps as [|q ps]; [done|].
    rewrite join_cons2, <- Hj. split; [done|].
    assert (occurrences tok (String a s) = S (occurrences tok x)) as Ho.
    { rewrite Hs. destruct tok as [|c k] eqn:Et; [done|].
      change (String c k +:+ x) with (String c (k +:+ x)).
      rewrite <- Et, occurrences_cons.
      assert (startsWith (String c (k +:+ x)) tok = true) as ->.
      { rewrite Et. apply (startsWith_app (String c k)). }
      rewrite occurrences_clean_prefix; [done|]. rewrite Et. exact Hfree. }
    rewrite occurrences_cons, E in Ho. simpl length in *. lia.
  - destruct (IH (String.length s)) with (s := s) as (ps & Hj & Hl);
      [simpl; lia|done|].
    destruct ps as [|p ps]; [done|].
    exists (String a p :: ps). split; [|simpl in *; lia].
    rewrite Hj. by destruct ps.
Qed.

End Replace.
End StringFacts.

(** ** Paths *)

Module PathFacts.
Import Path.

Lemma walk_app (base : path) (xs ys : list string) :
  walk base (xs ++ ys) = walk (walk base xs) ys.
Proof. apply fold_left_app. Qed.

Lemma step_simple (base : path) (s : string) :
  simple s = true → step base s = base ++ [s].
Proof.
  unfold simple, step. rewrite !andb_true_iff, !negb_true_iff.
  intros [[[_ ->] ->] ->]. done.
Qed.

Lemma split_simple (s : string) : simple s = true → split_slash s = [s].
Proof.
  unfold simple. rewrite !andb_true_iff. intros [[[H _] _] _].
  by apply bool_decide_eq_true in H.
Qed.

Lemma join_simple (base : path) (parts : list string) :
  forallb simple parts = true → join base parts = base ++ parts.
Proof.
  unfold join. revert base.
  induction parts as [|s parts IH]; intros base; simpl.
  - by rewrite app_nil_r.
  - intros [Hs Hp]%andb_true_iff.
    rewrite (split_simple _ Hs). simpl.
    change (fold_left step (concat (map split_slash parts)) (step base s))
      with (walk (step base s) (concat (map split_slash parts))).
    rewrite (step_simple _ _ Hs), IH by done. by rewrite <- app_assoc.
Qed.

Lemma join_cons (base : path) (s : string) (parts : list string) :
  join base (s :: parts) = join (join base [s]) parts.
Proof.
  unfold join. simpl. rewrite app_nil_r. apply walk_app.
Qed.

Lemma resolve_simple (base : path) (s : string) :
  simple s = true → resolve base s = base ++ [s].
Proof.
  intros Hs. unfold resolve.
  assert (JsString.startsWith s "/" = false) as ->.
  { pose proof (split_simple s Hs) as H.
    destruct s as [|c s]; [done|]. simpl in *.
    destruct (Ascii.eqb c "/") eqn:E; [|by rewrite andb_false_l].
    injection H as H _. discriminate. }
  rewrite (split_simple s Hs). simpl. by apply step_simple.
Qed.

End PathFacts.

(** ** Running computations *)

Module Run.
Import Process.

Lemma bind_eq {A B} (m : Js A) (f : A → Js B) (st : state) :
  (m ≫= f) st =
    match m st with
    | (Returned a, st') => f a st'
    | (Thrown e, st') => (Thrown e, st')
    | (Exited code, st') => (Exited code, st')
    end.
Proof. reflexivity. Qed.

Lemma bind_returned {A B} (m : Js A) (f : A → Js B) (st st' : state) (a : A) :
  m st = (Returned a, st') → (m ≫= f) st = f a st'.
Proof. intros H. by rewrite bind_eq, H. Qed.

Lemma bind_thrown {A B} (m : Js A) (f : A → Js B) (st st' : state) (e : error) :
  m st = (Thrown e, st') → (m ≫= f) st = (Thrown e, st').
Proof. intros H. by rewrite bind_eq, H. Qed.

Lemma bind_exited {A B} (m : Js A) (f : A → Js B) (st st' : state) (c : Z) :
  m st = (Exited c, st') → (m ≫= f) st = (Exited c, st').
Proof. intros H. by rewrite bind_eq, H. Qed.

Lemma ret_eq {A} (a : A) (st : state) : (mret a : Js A) st = (Returned a, st).
Proof. reflexivity. Qed.

Lemma query_eq {A} (f : gmap path node → A) (st : state) :
  query f st = (Returned (f (fs st)), st).
Proof. reflexivity. Qed.

Lemma emit_eq (ev : event) (st : state) :
  emit ev st = (Returned (), mkState (fs st) (console st ++ [ev])).
Proof. reflexivity. Qed.

Lemma attempt_ok {A} (f : gmap path node → result A) (st : state) (a : A) :
  f (fs st) = Ok a → attempt f st = (Returned a, st).
Proof. unfold attempt. by intros ->. Qed.

Lemma attempt_fail {A} (f : gmap path node → result A) (st : state) (e : error) :
  f (fs st) = Fail e → attempt f st = (Thrown e, st).
Proof. unfold attempt. by intros ->. Qed.

Lemma update_ok (f : gmap path node → result (gmap path node)) (st : state)
    (fs' : gmap path node) :
  f (fs st) = Ok fs' → update f st = (Returned (), mkState fs' (console st)).
Proof. unfold update. by intros ->. Qed.

Lemma update_fail (f : gmap path node → result (gmap path node)) (st : state)
    (e : error) :
  f (fs st) = Fail e → update f st = (Thrown e, st).
Proof. unfold update. by intros ->. Qed.

End Run.

(** ** File-system operations *)

Module FsFacts.
Import Fs.

Lemma existsSync_true (fs : gmap path node) (p : path) (n : node) :
  fs !! p = Some n → existsSync fs p = true.
Proof. intros H. unfold existsSync. apply bool_decide_eq_true. by rewrite H. Qed.

Lemma existsSync_false (fs : gmap path node) (p : path) :
  fs !! p = None → existsSync fs p = false.
Proof.
  intros H. unfold existsSync. apply bool_decide_eq_false. rewrite H.
  by intros [? ?].
Qed.

Lemma is_dir_true (fs : gmap path node) (p : path) :
  is_dir fs p = true ↔ fs !! p = Some Dir.
Proof. unfold is_dir. apply bool_decide_eq_true. Qed.

Lemma parent_snoc (p : path) (c : string) : parent (p ++ [c]) = p.
Proof. apply removelast_last. Qed.

Lemma writeFileSync_ok (fs : gmap path node) (p : path) (content : string) :
  fs !! p ≠ Some Dir → fs !! parent p = Some Dir →
  writeFileSync fs p content = Ok (<[p := File content]> fs).
Proof.
  intros Hp Hd. unfold writeFileSync.
  apply is_dir_true in Hd. rewrite Hd.
  by destruct (fs !! p) as [[]|].
Qed.

End FsFacts.

(** ** The placeholder *)

Module Placeholder.
Import JsString.

Import Spec.

Lemma replace_resolved (llm content : string) :
  llm ∈ SUPPORTED_LLMS →
  resolved llm content (replace_global PLACEHOLDER llm content).
Proof.
  intros Hllm.
  assert (clean_suffixes PLACEHOLDER llm = true
          ∧ clean_suffixes llm PLACEHOLDER = true) as [H1 H2].
  { unfold SUPPORTED_LLMS in Hllm.
    apply elem_of_cons in Hllm as [->|Hllm]; [by vm_compute|].
    apply list_elem_of_singleton in Hllm as ->. by vm_compute. }
  split; [|split].
  - by apply StringFacts.occurrences_replace.
  - by apply StringFacts.split_exists.
  - intros pieces -> Hlen. apply StringFacts.replace_join; [done|].
    rewrite Hlen. simpl. lia.
Qed.

End Placeholder.

(** ** Step 4: the PRP template *)

Section ConfigurePRP.
Import Process.
Variables (projectDir : path) (language llm content : string) (st : state).

Let templates := projectDir ++ [".context"; "templates"].
Let generic := projectDir ++ [".context"; "templates"; "prp_template.md"].
Let variant :=
  Path.join projectDir
    [".context"; "templates"; "prp_template_" +:+ language +:+ ".md"].

Hypothesis variant_file : fs st !! variant = Some (File content).
Hypothesis templates_dir : fs st !! templates = Some Dir.
Hypothesis generic_not_dir : fs st !! generic ≠ Some Dir.

Lemma write_generic :
  Fs.writeFileSync (fs st) generic
    (JsString.replace_global PLACEHOLDER llm content)
  = Ok (<[generic := File (JsString.replace_global PLACEHOLDER llm content)]> (fs st)).
Proof.
  apply FsFacts.writeFileSync_ok; [done|].
  unfold generic.
  change [".context"; "templates"; "prp_template.md"]
    with ([".context"; "templates"] ++ ["prp_template.md"]).
  rewrite app_assoc, FsFacts.parent_snoc. exact templates_dir.
Qed.

Lemma refactored_configure_writes :
  ∃ st', Refactored.configurePRPTemplate projectDir language llm st
         = (Returned (), st')
    ∧ fs st' !! generic
      = Some (File (JsString.replace_global PLACEHOLDER llm content)).
Proof.
  unfold Refactored.configurePRPTemplate.
  rewrite (PathFacts.join_simple projectDir
             [".context"; "templates"; "prp_template.md"]) by done.
  fold variant generic.
  rewrite Run.bind_eq, Run.query_eq, (FsFacts.existsSync_true _ _ _ variant_file).
  unfold when.
  erewrite Run.bind_returned;
    [|apply Run.attempt_ok; unfold Fs.readFileSync; by rewrite variant_file].
  erewrite Run.bind_returned; [|apply Run.update_ok, write_generic].
  eexists. split; [reflexivity|]. cbn [fs]. apply lookup_insert_eq.
Qed.

Lemma clone_configure_writes :
  ∃ st', Clone.configure_prp_template projectDir language llm st
         = (Returned (), st')
    ∧ fs st' !! generic
      = Some (File (JsString.replace_global PLACEHOLDER llm content)).
Proof.
  unfold Clone.configure_prp_template.
  rewrite (PathFacts.join_simple projectDir
             [".context"; "templates"; "prp_template.md"]) by done.
  fold variant generic.
  rewrite Run.bind_eq, Run.query_eq, (FsFacts.existsSync_true _ _ _ variant_file).
  unfold when.
  erewrite Run.bind_returned;
    [|apply Run.attempt_ok; unfold Fs.readFileSync; by rewrite variant_file].
  erewrite Run.update_ok; [|apply write_generic].
  eexists. split; [reflexivity|]. cbn [fs]. apply lookup_insert_eq.
Qed.

End ConfigurePRP.

(** C4.  When the per-language variant of the PRP template exists with
    some content, both cloning scripts write [prp_template.md], and
    what they write is the content with every occurrence of the
    placeholder replaced by the selected LLM name: cut at its N
    occurrences the content gives N+1 pieces, the written text is those
    pieces joined by the LLM name, and no placeholder is left in it. *)
Theorem prp_placeholders_resolved
    (projectDir : path) (language llm content : string) (st : state) :
  llm ∈ SUPPORTED_LLMS →
  fs st !! Path.join projectDir
             [".context"; "templates"; "prp_template_" +:+ language +:+ ".md"]
    = Some (File content) →
  fs st !! (projectDir ++ [".context"; "templates"]) = Some Dir →
  fs st !! (projectDir ++ [".context"; "templates"; "prp_template.md"]) ≠ Some Dir →
  ∃ written,
    Spec.resolved llm content written
    ∧ (∃ st', Refactored.configurePRPTemplate projectDir language llm st
              = (Returned (), st')
         ∧ fs st' !! (projectDir ++ [".context"; "templates"; "prp_template.md"])
           = Some (File written))
    ∧ (∃ st', Clone.configure_prp_template projectDir language llm st
              = (Returned (), st')
         ∧ fs st' !! (projectDir ++ [".context"; "templates"; "prp_template.md"])
           = Some (File written)).
Proof.
  intros Hllm Hvar Hdir Hgen.
  exists (JsString.replace_global PLACEHOLDER llm content).
  split; [by apply Placeholder.replace_resolved|]. split.
  - by apply refactored_configure_writes.
  - by apply clone_configure_writes.
Qed.

Lemma prp_placeholders_resolved_witness :
  ∃ written,
    Spec.resolved "CLAUDE" "standards: {{LLM_AGENT}}.md, agent: {{LLM_AGENT}}" written
    ∧ (∃ st', Refactored.configurePRPTemplate Scenario.temp "react" "CLAUDE"
                Scenario.staged = (Returned (), st')
         ∧ fs st' !! (Scenario.temp ++ [".context"; "templates"; "prp_template.md"])
           = Some (File written))
    ∧ (∃ st', Clone.configure_prp_template Scenario.temp "react" "CLAUDE"
                Scenario.staged = (Returned (), st')
         ∧ fs st' !! (Scenario.temp ++ [".context"; "templates"; "prp_template.md"])
           = Some (File written)).
Proof.
  apply (prp_placeholders_resolved Scenario.temp "react" "CLAUDE"
           "standards: {{LLM_AGENT}}.md, agent: {{LLM_AGENT}}" Scenario.staged).
  - unfold SUPPORTED_LLMS. apply list_elem_of_In. simpl. auto.
  - vm_compute. reflexivity.
  - vm_compute. reflexivity.
  - vm_compute. discriminate.
Defined.

Module FsLookup.
Import Fs.

Lemma lookup_removeSync (fs : gmap path node) (p q : path) :
  removeSync fs p !! q = if bool_decide (p `prefix_of` q) then None else fs !! q.
Proof.
  unfold removeSync. case_bool_decide as H.
  - apply map_lookup_filter_None. right. intros x _. simpl. tauto.
  - destruct (fs !! q) as [n|] eqn:E.
    + apply map_lookup_filter_Some. done.
    + apply map_lookup_filter_None. by left.
Qed.

Lemma lookup_copy_tree (from into : gmap path node) (src dst q : path) :
  copy_tree from src dst into !! q =
    if bool_decide (dst `prefix_of` q)
    then match from !! (src ++ drop (length dst) q) with
         | Some n => Some n
         | None => into !! q
         end
    else into !! q.
Proof.
  unfold copy_tree. case_bool_decide as Hdst.
  - destruct Hdst as [r ->]. rewrite drop_app_length.
    apply (map_fold_weak_ind
             (λ acc m, acc !! (dst ++ r) =
                match m !! (src ++ r) with
                | Some n => Some n
                | None => into !! (dst ++ r)
                end)).
    + by rewrite lookup_empty.
    + intros k n m acc Hk IH. unfold copy_entry.
      case_bool_decide as Hsrc.
      * destruct Hsrc as [r' ->]. rewrite drop_app_length.
        destruct (decide (r' = r)) as [->|Hne].
        -- by rewrite !lookup_insert_eq.
        -- rewrite !lookup_insert_ne; [done| |]; by intros ?%app_inv_head.
      * rewrite lookup_insert_ne; [done|].
        intros ->. apply Hsrc. by eexists.
  - apply (map_fold_weak_ind (λ acc m, acc !! q = into !! q)); [done|].
    intros k n m acc Hk IH. unfold copy_entry.
    case_bool_decide as Hsrc; [|done].
    rewrite lookup_insert_ne; [done|].
    intros <-. apply Hdst. by eexists.
Qed.

Lemma elem_of_entries (fs : gmap path node) (p : path) (c : string) :
  c ∈ entries fs p ↔ is_Some (fs !! (p ++ [c])).
Proof.
  unfold entries. rewrite list_elem_of_omap. split.
  - intros (k & Hk & Hc). unfold child_name in Hc.
    case_bool_decide as Hp; [|done]. destruct Hp as [r ->].
    rewrite drop_app_length in Hc. destruct r as [|c' [|? ?]]; try done.
    injection Hc as ->.
    apply list_elem_of_fmap in Hk as ([k n] & -> & Hkn).
    apply elem_of_map_to_list in Hkn. simpl. by rewrite Hkn.
  - intros [n Hn]. exists (p ++ [c]). split.
    + apply list_elem_of_fmap. exists (p ++ [c], n). split; [done|].
      by apply elem_of_map_to_list.
    + unfold child_name. rewrite bool_decide_eq_true_2 by by eexists.
      by rewrite drop_app_length.
Qed.

Lemma lookup_make_dir (fs : gmap path node) (d q : path) :
  make_dir fs d !! q =
    if bool_decide (q = d) then Some (default Dir (fs !! d)) else fs !! q.
Proof.
  unfold make_dir. case_bool_decide as H.
  - subst. destruct (fs !! d) eqn:E; simpl; [done|]. by rewrite lookup_insert_eq.
  - destruct (fs !! d) eqn:E; [done|]. by rewrite lookup_insert_ne.
Qed.

Lemma lookup_make_dirs (ds : list path) (fs : gmap path node) (q : path) :
  fold_left make_dir ds fs !! q =
    if bool_decide (q ∈ ds) then Some (default Dir (fs !! q)) else fs !! q.
Proof.
  revert fs. induction ds as [|d ds IH]; intros fs; cbn [fold_left].
  - rewrite bool_decide_eq_false_2; [done|]. apply not_elem_of_nil.
  - rewrite IH, lookup_make_dir.
    destruct (decide (q = d)) as [->|Hne].
    + rewrite (bool_decide_eq_true_2 (d = d)) by done.
      rewrite (bool_decide_eq_true_2 (d ∈ d :: ds)) by apply list_elem_of_here.
      simpl. by case_bool_decide.
    + rewrite (bool_decide_eq_false_2 (q = d)) by done.
      case_bool_decide as H1; case_bool_decide as H2; try done.
      * exfalso. apply H2. by apply list_elem_of_further.
      * exfalso. apply H1. by apply elem_of_cons in H2 as [?|?].
Qed.

Lemma elem_of_ancestors (p q : path) : q ∈ ancestors p ↔ q `prefix_of` p.
Proof.
  unfold ancestors. rewrite list_elem_of_fmap. split.
  - intros (k & -> & _). apply prefix_take.
  - intros [r ->]. exists (length q). split.
    + by rewrite take_app_length.
    + apply elem_of_seq. rewrite length_app. lia.
Qed.

End FsLookup.

(** ** Discovery and argument parsing *)

Module Setup.
Import Process Extern Spec.

Lemma outside_refl (t : path) (fs : gmap path node) : outside t fs fs.
Proof. by intros p _. Qed.

Lemma outside_trans (t : path) (a b c : gmap path node) :
  outside t a b → outside t b c → outside t a c.
Proof. intros H1 H2 p Hp. by rewrite H2, H1. Qed.

Lemma cloned_outside (tree : gmap path node) (dir : path) (fs : gmap path node) :
  outside dir fs (cloned tree dir fs).
Proof.
  intros p Hp. unfold cloned.
  rewrite lookup_insert_ne by (intros ->; by apply Hp).
  rewrite FsLookup.lookup_copy_tree. by rewrite bool_decide_eq_false_2.
Qed.

Lemma cloned_keeps (tree : gmap path node) (dir : path) (fs : gmap path node)
    (p : path) :
  is_Some (fs !! p) → is_Some (cloned tree dir fs !! p).
Proof.
  intros Hp. unfold cloned.
  destruct (decide (dir = p)) as [->|Hne]; [by rewrite lookup_insert_eq|].
  rewrite lookup_insert_ne by done. rewrite FsLookup.lookup_copy_tree.
  case_bool_decide; [|done]. by destruct (tree !! _).
Qed.

Lemma git_clone_inv (w : world) (dir : path) (st : state) :
  match git_clone w dir st with
  | (Returned _, st') =>
      ∃ tree, origin w = Some tree ∧ fs st' = cloned tree dir (fs st)
  | (Thrown _, st') => fs st' = fs st
  | (Exited _, _) => False
  end.
Proof.
  unfold git_clone. rewrite Run.bind_eq, Run.emit_eq.
  unfold update. cbn [fs console].
  destruct (origin w) as [tree|]; [|done].
  destruct (_ || _); [done|]. by exists tree.
Qed.

Lemma yargs_inv (langs llms : list string) (raw : raw_args) (st : state) :
  match yargs langs llms raw st with
  | (Returned a, st') =>
      st' = st
      ∧ ∃ n l m, raw = mkRaw (Some n) (Some l) (Some m)
                 ∧ a = mkArgs n l (JsString.toUpperCase m)
                 ∧ l ∈ langs ∧ JsString.toUpperCase m ∈ llms
  | (Thrown _, _) => False
  | (Exited code, st') =>
      code = 1 ∧ fs st' = fs st
      ∧ ∃ line, console st' = console st ++ [Stderr line]
  end.
Proof.
  unfold yargs. destruct raw as [[n|] [l|] [m|]]; cbn;
    try (split; [done|split; [done|by eexists]]).
  case_bool_decide as Hl; case_bool_decide as Hm; cbn;
    try (split; [done|split; [done|by eexists]]).
  split; [done|]. by exists n, l, m.
Qed.

(** The refusal of an argument that is not among the choices. *)
Lemma yargs_rejects (langs llms : list string) (raw : raw_args) (st : state) :
  (∀ l, given_lang raw = Some l → l ∉ langs)
  ∨ (∀ m, given_llm raw = Some m → JsString.toUpperCase m ∉ llms) →
  ∃ st', yargs langs llms raw st = (Exited 1, st').
Proof.
  intros H. pose proof (yargs_inv langs llms raw st) as Hy.
  destruct (yargs langs llms raw st) as [[a| |c] st']; [|done|].
  - destruct Hy as (_ & n & l & m & -> & _ & Hl & Hm). simpl in H.
    destruct H as [H|H]; exfalso; eapply H; eauto.
  - destruct Hy as (-> & _). by eexists.
Qed.

End Setup.

Module RefactoredSetup.
Import Process Extern Spec Refactored.

Lemma cloneRepository_inv (w : world) (dir : path) (st : state) :
  match cloneRepository w dir st with
  | (Returned _, st') =>
      ∃ tree, origin w = Some tree ∧ fs st' = cloned tree dir (fs st)
  | (Thrown _, st') => fs st' = fs st
  | (Exited _, _) => False
  end.
Proof.
  unfold cloneRepository, try_catch.
  rewrite Run.bind_eq. unfold console_log. rewrite Run.emit_eq.
  set (st0 := mkState _ _).
  pose proof (Setup.git_clone_inv w dir st0) as H.
  destruct (git_clone w dir st0) as [[[]|e|c] st']; [done| |done].
  unfold throw. exact H.
Qed.

Lemma getAvailableLanguages_inv (dir : path) (st : state) :
  match getAvailableLanguages dir st with
  | (Returned langs, st') =>
      st' = st
      ∧ fs st !! (dir ++ ["Rules"]) = Some Dir
      ∧ langs = languages_of (Fs.entries (fs st) (dir ++ ["Rules"]))
      ∧ langs ≠ []
  | (Thrown e, st') =>
      st' = st
      ∧ (fs st !! (dir ++ ["Rules"]) = Some Dir →
         e = Error "No language files found in Rules directory"
         ∧ languages_of (Fs.entries (fs st) (dir ++ ["Rules"])) = [])
  | (Exited _, _) => False
  end.
Proof.
  unfold getAvailableLanguages.
  rewrite (PathFacts.join_simple dir ["Rules"]) by done.
  rewrite Run.bind_eq, Run.query_eq. unfold Fs.existsSync.
  destruct (fs st !! (dir ++ ["Rules"])) as [[c|]|] eqn:E.
  - rewrite bool_decide_eq_true_2 by done. cbn [negb].
    rewrite Run.bind_eq. unfold attempt, Fs.readdirSync. rewrite E. done.
  - rewrite bool_decide_eq_true_2 by done. cbn [negb].
    rewrite Run.bind_eq. unfold attempt, Fs.readdirSync. rewrite E.
    case_bool_decide as Hl.
    + unfold throw. split; [done|]. intros _. split; [done|].
      by apply length_zero_iff_nil.
    + rewrite Run.ret_eq. repeat split; try done.
      intros Hnil. by rewrite Hnil in Hl.
  - rewrite bool_decide_eq_false_2 by (by intros [? ?]). cbn [negb].
    unfold throw. done.
Qed.

Lemma reached_outside (w : world) (dir : path) (st st' : state) :
  reached w dir st st' → outside dir (fs st) (fs st').
Proof.
  intros [->|(tree & _ & ->)]; [apply Setup.outside_refl|].
  apply Setup.cloned_outside.
Qed.

Lemma reached_keeps (w : world) (dir : path) (st st' : state) (p : path) :
  reached w dir st st' → is_Some (fs st !! p) → is_Some (fs st' !! p).
Proof.
  intros [->|(tree & _ & ->)]; [done|]. apply Setup.cloned_keeps.
Qed.

Lemma setup_phase_inv (w : world) (dir : path) (st : state) :
  match setup_phase w dir st with
  | (Returned a, st') =>
      ∃ tree n l m,
        origin w = Some tree
        ∧ fs st' = cloned tree dir (fs st)
        ∧ argv w = mkRaw (Some n) (Some l) (Some m)
        ∧ a = mkArgs n l (JsString.toUpperCase m)
        ∧ l ∈ languages_of (Fs.entries (fs st') (dir ++ ["Rules"]))
        ∧ JsString.toUpperCase m ∈ SUPPORTED_LLMS
  | (Thrown e, st') => reached w dir st st'
  | (Exited code, st') => code = 1 ∧ reached w dir st st'
  end.
Proof.
  unfold setup_phase. rewrite Run.bind_eq.
  pose proof (cloneRepository_inv w dir st) as Hc.
  destruct (cloneRepository w dir st) as [[[]|e|c] st1]; [|by left|done].
  destruct Hc as (tree & Ho & Hfs).
  rewrite Run.bind_eq.
  pose proof (getAvailableLanguages_inv dir st1) as Hl.
  destruct (getAvailableLanguages dir st1) as [[langs|e|c] st2];
    [|destruct Hl as [-> _]; right; eauto|done].
  destruct Hl as (-> & Hdir & -> & Hne).
  unfold parseArguments.
  pose proof (Setup.yargs_inv (languages_of (Fs.entries (fs st1) (dir ++ ["Rules"])))
                SUPPORTED_LLMS (argv w) st1) as Hy.
  destruct (yargs _ _ _ st1) as [[a|e|c] st3]; [|done|].
  - destruct Hy as (-> & n & l & m & Hraw & -> & Hlang & Hllm).
    by exists tree, n, l, m.
  - destruct Hy as (-> & Hfs3 & _). split; [done|]. right.
    exists tree. split; [done|]. by rewrite Hfs3.
Qed.

Lemma validateProjectDirectory_inv (p : path) (st : state) :
  match validateProjectDirectory p st with
  | (Returned _, st') => st' = st ∧ fs st !! p = None
  | (Thrown e, st') =>
      st' = st ∧ is_Some (fs st !! p)
      ∧ e = Error ("Directory '" +:+ Path.show p +:+ "' already exists")
  | (Exited _, _) => False
  end.
Proof.
  unfold validateProjectDirectory. rewrite Run.bind_eq, Run.query_eq.
  unfold Fs.existsSync. case_bool_decide as H.
  - unfold throw. done.
  - rewrite Run.ret_eq. split; [done|].
    destruct (fs st !! p); [|done]. exfalso. by apply H.
Qed.

(** When the pipeline does not return, the handler of [main] reports
    the error and ends the process with code 1; the [finally] block
    is not reached. *)
Lemma start_failed (w : world) (st st1 : state) (o : outcome ()) :
  pipeline w (generateTempDir w) st = (o, st1) →
  match o with
  | Returned _ => False
  | Thrown _ => True
  | Exited code => code = 1
  end →
  ∃ st', start w st = (1, st') ∧ fs st' = fs st1
         ∧ ∀ e, o = Thrown e →
                console st' = console st1 ++ [Stderr ("Error: " +:+ error_message e)].
Proof.
  intros Hp Ho. unfold start, run, main, try_catch_finally, try_finally, try_catch.
  cbv zeta. rewrite Hp. destruct o as [[]|e|c]; [done| |].
  - rewrite Run.bind_eq. unfold console_error. rewrite Run.emit_eq.
    unfold exit. eexists. split; [done|]. split; [done|].
    intros e' [= <-]. done.
  - subst c. eexists. split; [done|]. split; [done|]. intros e [=].
Qed.

End RefactoredSetup.

Module CloneSetup.
Import Process Extern Spec Clone.

Lemma clone_discover_inv (w : world) (st : state) :
  match discover w st with
  | (Returned a, st') =>
      ∃ tree n l m,
        origin w = Some tree
        ∧ fs st' = cloned tree (tempDir w) (fs st)
        ∧ argv w = mkRaw (Some n) (Some l) (Some m)
        ∧ a = mkArgs n l (JsString.toUpperCase m)
        ∧ l ∈ languages_of (Fs.entries (fs st') (tempDir w ++ ["Rules"]))
        ∧ JsString.toUpperCase m ∈ SUPPORTED_LLMS
  | (Thrown e, st') => reached w (tempDir w) st st'
  | (Exited code, st') =>
      code = 1 ∧ reached w (tempDir w) st st'
      ∧ ∃ line, console st' = console st
                  ++ [Spawn ("git clone --depth 1 " +:+ REPO_URL +:+ " "
                             +:+ Path.show (tempDir w)) None; Stderr line]
  end.
Proof.
  unfold discover. rewrite Run.bind_eq.
  pose proof (Setup.git_clone_inv w (tempDir w) st) as Hc.
  assert (∀ o st1, git_clone w (tempDir w) st = (o, st1) →
            console st1 = console st
              ++ [Spawn ("git clone --depth 1 " +:+ REPO_URL +:+ " "
                         +:+ Path.show (tempDir w)) None]) as Hcon.
  { unfold git_clone. intros o st1. rewrite Run.bind_eq, Run.emit_eq.
    unfold update. cbn [fs console]. destruct (origin w); [|by intros [= _ <-]].
    destruct (_ || _); by intros [= _ <-]. }
  destruct (git_clone w (tempDir w) st) as [[[]|e|c] st1] eqn:Eg; [|by left|done].
  specialize (Hcon _ _ eq_refl).
  destruct Hc as (tree & Ho & Hfs).
  rewrite (PathFacts.join_simple (tempDir w) ["Rules"]) by done.
  rewrite Run.bind_eq. unfold attempt, Fs.readdirSync.
  destruct (fs st1 !! (tempDir w ++ ["Rules"])) as [[c|]|];
    [right; eauto| |right; eauto].
  pose proof (Setup.yargs_inv (languages_of (Fs.entries (fs st1) (tempDir w ++ ["Rules"])))
                ["GEMINI"; "CLAUDE"] (argv w) st1) as Hy.
  destruct (yargs _ _ _ st1) as [[a|e|c] st3]; [|done|].
  - destruct Hy as (-> & n & l & m & Hraw & -> & Hlang & Hllm).
    by exists tree, n, l, m.
  - destruct Hy as (-> & Hfs3 & line & Hline). split; [done|]. split.
    + right. exists tree. split; [done|]. by rewrite Hfs3.
    + exists line. by rewrite Hline, Hcon, <- app_assoc.
Qed.

Lemma clone_build_refused (w : world) (a : args) (st : state) :
  is_Some (fs st !! Path.resolve (cwd w) (name a)) →
  ∃ e, build w a st = (Thrown e, st).
Proof.
  intros [n Hn]. unfold build. cbv zeta.
  eexists. apply Run.bind_thrown, Run.update_fail.
  unfold Fs.mkdirSync. by rewrite Hn.
Qed.

(** Whatever stops the script leads to exit code 1. *)
Lemma clone_main_failed (w : world) (st st1 : state) (o : outcome ()) :
  script w st = (o, st1) →
  match o with
  | Returned _ => False
  | Thrown _ => True
  | Exited code => code = 1
  end →
  ∃ st', main w st = (1, st') ∧ fs st' = fs st1.
Proof.
  intros Hs Ho. unfold main, run. rewrite Hs.
  destruct o as [[]|e|c]; [done| |subst c; by eexists].
  unfold default_uncaught, console_error. rewrite Run.emit_eq. by eexists.
Qed.

End CloneSetup.

Module LocalSetup.
Import Process Extern Spec Local.

Lemma local_discover_inv (w : world) (st : state) :
  match discover w st with
  | (Returned a, st') =>
      st' = st
      ∧ ∃ n l m,
          argv w = mkRaw (Some n) (Some l) (Some m)
          ∧ a = mkArgs n l (JsString.toUpperCase m)
          ∧ l ∈ languages_of
                  (Fs.entries (fs st) (Path.resolve (dirname w) "../Rules"))
          ∧ JsString.toUpperCase m ∈ SUPPORTED_LLMS
  | (Thrown e, st') => st' = st
  | (Exited code, st') =>
      code = 1 ∧ fs st' = fs st
      ∧ ∃ line, console st' = console st ++ [Stderr line]
  end.
Proof.
  unfold discover. rewrite Run.bind_eq. unfold attempt, Fs.readdirSync.
  destruct (fs st !! _) as [[c|]|]; [done| |done].
  pose proof (Setup.yargs_inv
                (languages_of (Fs.entries (fs st) (Path.resolve (dirname w) "../Rules")))
                ["GEMINI"; "CLAUDE"] (argv w) st) as Hy.
  destruct (yargs _ _ _ st) as [[a|e|c] st3]; [|done|done].
  destruct Hy as (-> & n & l & m & Hraw & -> & Hlang & Hllm).
  split; [done|]. by exists n, l, m.
Qed.

Lemma local_build_refused (w : world) (a : args) (st : state) :
  is_Some (fs st !! Path.resolve (cwd w) (name a)) →
  ∃ e, build w a st = (Thrown e, st).
Proof.
  intros [n Hn]. unfold build. cbv zeta.
  eexists. apply Run.bind_thrown, Run.update_fail.
  unfold Fs.mkdirSync. by rewrite Hn.
Qed.

Lemma local_main_failed (w : world) (st st1 : state) (o : outcome ()) :
  script w st = (o, st1) →
  match o with
  | Returned _ => False
  | Thrown _ => True
  | Exited code => code = 1
  end →
  ∃ st', main w st = (1, st') ∧ fs st' = fs st1.
Proof.
  intros Hs Ho. unfold main, run. rewrite Hs.
  destruct o as [[]|e|c]; [done| |subst c; by eexists].
  unfold default_uncaught, console_error. rewrite Run.emit_eq. by eexists.
Qed.

End LocalSetup.

(** ** An existing destination *)

Section ExistingDestination.
Import Process Extern Spec.
Variables (w : world) (st : state) (nm : string).
Hypothesis given : given_name (argv w) = Some nm.
Hypothesis present : is_Some (fs st !! Path.resolve (cwd w) nm).

Lemma refactored_refuses :
  ∃ st', Refactored.start w st = (1, st')
         ∧ reached w (Refactored.generateTempDir w) st st'.
Proof.
  destruct (Refactored.pipeline w (Refactored.generateTempDir w) st)
    as [o st1] eqn:Ep.
  assert (match o with
          | Returned _ => False
          | Thrown _ => True
          | Exited code => code = 1
          end ∧ reached w (Refactored.generateTempDir w) st st1) as [Ho Hr].
  { revert Ep. unfold Refactored.pipeline. rewrite Run.bind_eq.
    pose proof (RefactoredSetup.setup_phase_inv w (Refactored.generateTempDir w) st) as Hs.
    destruct (Refactored.setup_phase w _ st) as [[a|e|c] st0].
    - destruct Hs as (tree & n & l & m & Ho & Hfs & Hraw & -> & _).
      rewrite Hraw in given. injection given as ->. cbn [name].
      rewrite Run.bind_eq.
      pose proof (RefactoredSetup.validateProjectDirectory_inv
                    (Path.resolve (cwd w) nm) st0) as Hv.
      destruct (Refactored.validateProjectDirectory _ st0) as [[[]|e|c] st2].
      + exfalso. destruct Hv as [_ Hv]. rewrite Hfs in Hv.
        apply (Setup.cloned_keeps tree (Refactored.generateTempDir w)) in present.
        rewrite Hv in present. by destruct present.
      + destruct Hv as (-> & _). intros [= <- <-]. split; [done|]. right. eauto.
      + done.
    - intros [= <- <-]. done.
    - intros [= <- <-]. done. }
  destruct (RefactoredSetup.start_failed w st st1 o Ep Ho) as (st' & Hst & Hfs & _).
  exists st'. split; [done|]. unfold reached in *. by rewrite Hfs.
Qed.

Lemma clone_refuses :
  ∃ st', Clone.main w st = (1, st') ∧ reached w (Clone.tempDir w) st st'.
Proof.
  destruct (Clone.script w st) as [o st1] eqn:Ep.
  assert (match o with
          | Returned _ => False
          | Thrown _ => True
          | Exited code => code = 1
          end ∧ reached w (Clone.tempDir w) st st1) as [Ho Hr].
  { revert Ep. unfold Clone.script. rewrite Run.bind_eq.
    pose proof (CloneSetup.clone_discover_inv w st) as Hs.
    destruct (Clone.discover w st) as [[a|e|c] st0].
    - destruct Hs as (tree & n & l & m & Ho & Hfs & Hraw & -> & _).
      rewrite Hraw in given. injection given as ->.
      destruct (CloneSetup.clone_build_refused w (mkArgs nm l (JsString.toUpperCase m)) st0)
        as [e ->].
      { cbn [name]. rewrite Hfs. by apply Setup.cloned_keeps. }
      intros [= <- <-]. split; [done|]. right. eauto.
    - intros [= <- <-]. done.
    - intros [= <- <-]. destruct Hs as (? & ? & _). done. }
  destruct (CloneSetup.clone_main_failed w st st1 o Ep Ho) as (st' & Hst & Hfs).
  exists st'. split; [done|]. unfold reached in *. by rewrite Hfs.
Qed.

Lemma local_refuses : ∃ st', Local.main w st = (1, st') ∧ fs st' = fs st.
Proof.
  destruct (Local.script w st) as [o st1] eqn:Ep.
  assert (match o with
          | Returned _ => False
          | Thrown _ => True
          | Exited code => code = 1
          end ∧ fs st1 = fs st) as [Ho Hr].
  { revert Ep. unfold Local.script. rewrite Run.bind_eq.
    pose proof (LocalSetup.local_discover_inv w st) as Hs.
    destruct (Local.discover w st) as [[a|e|c] st0].
    - destruct Hs as (-> & n & l & m & Hraw & -> & _).
      rewrite Hraw in given. injection given as ->.
      destruct (LocalSetup.local_build_refused w (mkArgs nm l (JsString.toUpperCase m)) st)
        as [e ->]; [done|].
      intros [= <- <-]. done.
    - intros [= <- <-]. by subst.
    - intros [= <- <-]. destruct Hs as (? & ? & _). done. }
  destruct (LocalSetup.local_main_failed w st st1 o Ep Ho) as (st' & Hst & Hfs).
  exists st'. split; [done|]. congruence.
Qed.

End ExistingDestination.




(** ** Invalid arguments *)

Module Arguments.
Import JsString Process Extern Spec.

Lemma upper_idem (c : ascii) : upper_ascii (upper_ascii c) = upper_ascii c.
Proof.
  destruct c as [[] [] [] [] [] [] [] []]; reflexivity.
Qed.

Lemma toUpperCase_eq_nocase (m t : string) :
  toUpperCase t = t → (toUpperCase m = t ↔ eq_nocase m t = true).
Proof.
  revert t. induction m as [|a m IH]; intros [|b t]; simpl; try done.
  intros [= Hb Ht]. rewrite andb_true_iff, orb_true_iff, <- (IH t Ht).
  rewrite !Ascii.eqb_eq. split.
  - intros [= <- <-]. split; [|done]. right. by rewrite upper_idem.
  - intros [[->|Hab] <-]; by rewrite ?Hab, Hb.
Qed.

Lemma supported_iff_accepted (m : string) :
  toUpperCase m ∈ SUPPORTED_LLMS ↔ llm_accepted m = true.
Proof.
  unfold SUPPORTED_LLMS, llm_accepted.
  rewrite orb_true_iff, elem_of_cons, list_elem_of_singleton.
  by rewrite !toUpperCase_eq_nocase.
Qed.

End Arguments.

Section InvalidArguments.
Import Process Extern Spec.
Variables (w : world) (st : state).

Let dir := Refactored.generateTempDir w.

Hypothesis bad : invalid (discovered w dir (fs st)) (argv w).

Lemma not_parsed (tree : gmap path node) (n l m : string) :
  origin w = Some tree →
  argv w = mkRaw (Some n) (Some l) (Some m) →
  l ∈ languages_of (Fs.entries (cloned tree dir (fs st)) (dir ++ ["Rules"])) →
  JsString.toUpperCase m ∈ SUPPORTED_LLMS →
  False.
Proof.
  intros Ho Hraw Hl Hm. unfold invalid, discovered in bad.
  rewrite Ho, Hraw in bad. cbn in bad.
  destruct bad as [(l' & [= <-] & Hn)|(m' & [= <-] & Hn)]; [done|].
  apply Arguments.supported_iff_accepted in Hm. congruence.
Qed.

Lemma refactored_rejects :
  ∃ st', Refactored.start w st = (1, st') ∧ reached w dir st st'.
Proof.
  destruct (Refactored.pipeline w dir st) as [o st1] eqn:Ep.
  assert (match o with
          | Returned _ => False
          | Thrown _ => True
          | Exited code => code = 1
          end ∧ reached w dir st st1) as [Ho Hr].
  { revert Ep. unfold Refactored.pipeline. rewrite Run.bind_eq.
    pose proof (RefactoredSetup.setup_phase_inv w dir st) as Hs.
    destruct (Refactored.setup_phase w dir st) as [[a|e|c] st0].
    - exfalso. destruct Hs as (tree & n & l & m & Ho & Hfs & Hraw & -> & Hl & Hm).
      rewrite Hfs in Hl. eauto using not_parsed.
    - intros [= <- <-]. done.
    - intros [= <- <-]. done. }
  destruct (RefactoredSetup.start_failed w st st1 o Ep Ho) as (st' & Hst & Hfs & _).
  exists st'. split; [done|]. unfold reached in *. by rewrite Hfs.
Qed.

Lemma clone_rejects :
  ∃ st', Clone.main w st = (1, st') ∧ reached w dir st st'.
Proof.
  destruct (Clone.script w st) as [o st1] eqn:Ep.
  assert (match o with
          | Returned _ => False
          | Thrown _ => True
          | Exited code => code = 1
          end ∧ reached w dir st st1) as [Ho Hr].
  { revert Ep. unfold Clone.script. rewrite Run.bind_eq.
    pose proof (CloneSetup.clone_discover_inv w st) as Hs.
    destruct (Clone.discover w st) as [[a|e|c] st0].
    - exfalso. destruct Hs as (tree & n & l & m & Ho & Hfs & Hraw & -> & Hl & Hm).
      rewrite Hfs in Hl. eauto using not_parsed.
    - intros [= <- <-]. done.
    - intros [= <- <-]. destruct Hs as (? & ? & _). done. }
  destruct (CloneSetup.clone_main_failed w st st1 o Ep Ho) as (st' & Hst & Hfs).
  exists st'. split; [done|]. unfold reached in *. by rewrite Hfs.
Qed.

End InvalidArguments.




(** ** An empty set of languages *)

Module Vacant.
Import Spec.

Lemma vacant_lookup (t : path) (fs : gmap path node) (p : path) :
  vacant t fs → t `prefix_of` p → fs !! p = None.
Proof.
  intros Hv Hp. destruct (fs !! p) as [n|] eqn:E; [|done].
  exfalso. by apply (Hv p n E).
Qed.

Lemma lookup_cloned (tree : gmap path node) (dir : path)
    (fs : gmap path node) (r : path) :
  vacant dir fs → r ≠ [] → cloned tree dir fs !! (dir ++ r) = tree !! r.
Proof.
  intros Hv Hr. unfold cloned.
  rewrite lookup_insert_ne.
  2:{ intros H. apply Hr. rewrite <- (app_nil_r dir) in H at 1.
      by apply app_inv_head in H. }
  rewrite FsLookup.lookup_copy_tree.
  rewrite bool_decide_eq_true_2 by by eexists.
  rewrite drop_app_length. simpl.
  destruct (tree !! r); [done|]. apply vacant_lookup with dir; [done|by eexists].
Qed.

Lemma entries_cloned (tree : gmap path node) (dir : path)
    (fs : gmap path node) (r : path) (c : string) :
  vacant dir fs →
  c ∈ Fs.entries (cloned tree dir fs) (dir ++ r) ↔ c ∈ Fs.entries tree r.
Proof.
  intros Hv. rewrite !FsLookup.elem_of_entries, <- app_assoc.
  rewrite lookup_cloned; [done..|]. by destruct r.
Qed.

Lemma entries_vacant (dir : path) (fs : gmap path node) :
  vacant dir fs → Fs.entries fs dir = [].
Proof.
  intros Hv. apply elem_of_nil_inv. intros c Hc.
  apply FsLookup.elem_of_entries in Hc as [n Hn].
  rewrite (vacant_lookup dir fs (dir ++ [c])) in Hn; [done..|by eexists].
Qed.

Lemma languages_of_nil (files : list string) :
  (∀ c, c ∈ files → JsString.endsWith c ".md" = false) →
  Extern.languages_of files = [].
Proof.
  intros H. unfold Extern.languages_of.
  induction files as [|f files IH]; [done|]. simpl.
  rewrite (H f) by apply list_elem_of_here.
  apply IH. intros c Hc. apply H. by apply list_elem_of_further.
Qed.

Lemma git_clone_vacant (w : world) (dir : path) (st : state)
    (tree : gmap path node) :
  origin w = Some tree → vacant dir (fs st) →
  Extern.git_clone w dir st
  = (Returned (),
     mkState (cloned tree dir (fs st))
       (console st ++ [Spawn ("git clone --depth 1 " +:+ REPO_URL +:+ " "
                              +:+ Path.show dir) None])).
Proof.
  intros Ho Hv. unfold Extern.git_clone.
  rewrite Run.bind_eq, Run.emit_eq. unfold Process.update. cbn [fs console].
  rewrite Ho. unfold Fs.is_file.
  rewrite (vacant_lookup dir (fs st) dir Hv) by done.
  rewrite (entries_vacant dir (fs st) Hv).
  rewrite bool_decide_eq_true_2 by done. done.
Qed.

End Vacant.

Section NoLanguages.
Import Process Extern Spec.
Variables (w : world) (st : state) (tree : gmap path node).

Let dir := Refactored.generateTempDir w.

Hypothesis fetched : origin w = Some tree.
Hypothesis rules_dir : tree !! ["Rules"] = Some Dir.
Hypothesis no_markdown :
  ∀ c, c ∈ Fs.entries tree ["Rules"] → JsString.endsWith c ".md" = false.
Hypothesis fresh_temp : vacant dir (fs st).

Lemma cloned_rules_dir : cloned tree dir (fs st) !! (dir ++ ["Rules"]) = Some Dir.
Proof. by rewrite Vacant.lookup_cloned. Qed.

Lemma cloned_no_languages :
  languages_of (Fs.entries (cloned tree dir (fs st)) (dir ++ ["Rules"])) = [].
Proof.
  apply Vacant.languages_of_nil. intros c Hc. apply no_markdown.
  by apply (Vacant.entries_cloned tree dir (fs st) ["Rules"] c).
Qed.

Lemma refactored_no_languages :
  ∃ st', Refactored.start w st = (1, st')
         ∧ fs st' = cloned tree dir (fs st)
         ∧ last (console st')
           = Some (Stderr "Error: No language files found in Rules directory").
Proof.
  assert (∃ st1, Refactored.pipeline w dir st
                 = (Thrown (Error "No language files found in Rules directory"), st1)
                 ∧ fs st1 = cloned tree dir (fs st)) as (st1 & Hp & Hfs).
  { set (st1 := mkState (cloned tree dir (fs st))
                  ((console st ++ [Stdout "Cloning repository..."])
                   ++ [Spawn ("git clone --depth 1 " +:+ REPO_URL +:+ " "
                              +:+ Path.show dir) None])).
    assert (Refactored.cloneRepository w dir st = (Returned (), st1)) as Hc.
    { unfold Refactored.cloneRepository, try_catch.
      rewrite Run.bind_eq. unfold console_log. rewrite Run.emit_eq.
      by rewrite (Vacant.git_clone_vacant w dir _ tree). }
    exists st1. split; [|done].
    unfold Refactored.pipeline, Refactored.setup_phase.
    apply Run.bind_thrown. rewrite (Run.bind_returned _ _ _ _ _ Hc).
    apply Run.bind_thrown.
    pose proof (RefactoredSetup.getAvailableLanguages_inv dir st1) as Hl.
    destruct (Refactored.getAvailableLanguages dir st1) as [[langs|e|c] st2];
      [|destruct Hl as [-> He]|done].
    - destruct Hl as (_ & _ & -> & Hne). exfalso. apply Hne.
      exact cloned_no_languages.
    - by destruct (He cloned_rules_dir) as [-> _]. }
  destruct (RefactoredSetup.start_failed w st st1 _ Hp I) as (st' & Hs & Hf & Hc).
  exists st'. split; [done|]. split; [congruence|].
  rewrite (Hc _ eq_refl). apply last_snoc.
Qed.

Lemma clone_no_languages :
  ∃ st' line, Clone.main w st = (1, st')
              ∧ fs st' = cloned tree dir (fs st)
              ∧ last (console st') = Some (Stderr line).
Proof.
  unfold Clone.main, run, Clone.script, Clone.discover.
  change (Clone.tempDir w) with dir.
  rewrite Run.bind_eq.
  erewrite (Run.bind_returned (git_clone w dir));
    [|by apply (Vacant.git_clone_vacant w dir _ tree)].
  set (st1 := mkState _ _).
  rewrite (PathFacts.join_simple dir ["Rules"]) by done.
  erewrite Run.bind_returned;
    [|apply Run.attempt_ok; unfold Fs.readdirSync, st1; cbn [fs];
      by rewrite cloned_rules_dir].
  change (fs st1) with (cloned tree dir (fs st)). rewrite cloned_no_languages.
  pose proof (Setup.yargs_inv [] ["GEMINI"; "CLAUDE"] (argv w) st1) as Hy.
  destruct (yargs [] _ (argv w) st1) as [[a|e|c] st2]; [|done|].
  - destruct Hy as (_ & n & l & m & _ & _ & Hl & _). by apply elem_of_nil in Hl.
  - destruct Hy as (-> & Hfs & line & Hline). exists st2, line.
    split; [done|]. split; [by rewrite Hfs|]. rewrite Hline. apply last_snoc.
Qed.

End NoLanguages.



(** ** Step 5: the language rules *)

Section LanguageRules.
Import Process.
Variables (templateDir projectDir : path) (language llm content : string).
Variable st : state.

Let rules := Path.join templateDir ["Rules"; language +:+ ".md"].
Let target := Path.join projectDir [llm +:+ ".md"].

Hypothesis rules_file : fs st !! rules = Some (File content).

(** The refactored script writes the rules into the destination. *)
Lemma refactored_applies_rules :
  fs st !! target ≠ Some Dir →
  fs st !! Fs.parent target = Some Dir →
  ∃ st', Refactored.applyLanguageRules templateDir projectDir language llm st
         = (Returned (), st')
         ∧ fs st' = <[target := File content]> (fs st).
Proof.
  intros Ht Hp. unfold Refactored.applyLanguageRules. fold rules target.
  rewrite Run.bind_eq, Run.query_eq, (FsFacts.existsSync_true _ _ _ rules_file).
  cbn [negb].
  erewrite Run.bind_returned;
    [|apply Run.attempt_ok; unfold Fs.readFileSync; by rewrite rules_file].
  erewrite Run.bind_returned;
    [|by apply Run.update_ok, FsFacts.writeFileSync_ok].
  by eexists.
Qed.

(** The first cloning script writes the path of the destination file
    into the rules document of the clone and leaves the destination
    as it is. *)
Lemma clone_overwrites_rules :
  llm ∈ SUPPORTED_LLMS →
  fs st !! Fs.parent (Clone.langRulesPath templateDir language) = Some Dir →
  ∃ st', Clone.write_language_rules templateDir projectDir language llm st
         = (Returned (), st')
         ∧ fs st' = <[rules := File (Path.show (projectDir ++ [llm +:+ ".md"]))]> (fs st).
Proof.
  intros Hllm Hp. unfold Clone.write_language_rules.
  unfold Clone.langRulesPath in *. fold rules in Hp |- *.
  rewrite Run.bind_eq, Run.query_eq, (FsFacts.existsSync_true _ _ _ rules_file).
  unfold when.
  erewrite Run.bind_returned;
    [|apply Run.attempt_ok; unfold Fs.readFileSync; by rewrite rules_file].
  assert (fs st !! rules ≠ Some Dir) as Hnd by by rewrite rules_file.
  unfold SUPPORTED_LLMS in Hllm.
  apply elem_of_cons in Hllm as [->|Hllm];
    [|apply list_elem_of_singleton in Hllm as ->]; cbn [String.eqb Ascii.eqb Bool.eqb];
    (erewrite Run.update_ok; [|by apply FsFacts.writeFileSync_ok]);
    eexists; (split; [reflexivity|]); cbn [fs];
    unfold Clone.geminiRulesPath, Clone.claudeRulesPath;
    by rewrite PathFacts.join_simple.
Qed.

End LanguageRules.

(** C1, at the failing input.  The first cloning script, run for
    [--name app --lang react --llm claude], reaches its fifth step with
    the rules document [Rules/react.md] in the clone and the branding
    file [CLAUDE.md] in the destination.  The step returns, the rules
    document of the clone then holds the path of the destination file,
    and the destination file still holds the branding text, as it does
    when the whole run has ended with exit code 0. *)
Theorem clone_rules_written_as_path :
  let rules := Scenario.temp ++ ["Rules"; "react.md"] in
  let target := Scenario.app ++ ["CLAUDE.md"] in
  let step :=
    Clone.write_language_rules Scenario.temp Scenario.app "react" "CLAUDE"
      Scenario.staged in
  let run := Clone.main Scenario.request Scenario.fresh in
  fs Scenario.staged !! rules = Some (File "react rules")
  ∧ fs Scenario.staged !! target = Some (File "claude branding")
  ∧ step.1 = Returned ()
  ∧ fs step.2 !! rules = Some (File "/home/u/app/CLAUDE.md")
  ∧ fs step.2 !! target = Some (File "claude branding")
  ∧ run.1 = 0
  ∧ fs run.2 !! target = Some (File "claude branding").
Proof. cbv zeta. repeat split; vm_compute; reflexivity. Qed.

(** The refactored script on the same input: the destination file holds
    the rules. *)
Lemma refactored_rules_at_same_input :
  let target := Scenario.app ++ ["CLAUDE.md"] in
  let run := Refactored.start Scenario.request Scenario.fresh in
  run.1 = 0 ∧ fs run.2 !! target = Some (File "react rules").
Proof. cbv zeta. split; vm_compute; reflexivity. Qed.

(** ** The temporary clone *)

Module TempClone.
Import Process Refactored.

(** When the pipeline returns, the [finally] block removes the
    temporary directory and the process ends with code 0. *)
Lemma start_succeeded (w : world) (st st1 : state) :
  pipeline w (generateTempDir w) st = (Returned (), st1) →
  ∃ st', start w st = (0, st')
         ∧ fs st' = Fs.removeSync (fs st1) (generateTempDir w)
         ∧ console st' = console st1 ++ [Stdout "Cleaned up temporary files"].
Proof.
  intros Hp. unfold start, run, main, try_catch_finally, try_finally, try_catch.
  cbv zeta. rewrite Hp. unfold cleanupTempDirectory, try_catch.
  rewrite Run.bind_eq. unfold update, console_log. cbn [fs console].
  rewrite Run.emit_eq. by eexists.
Qed.

End TempClone.

(** C2, at the failing input.  With the destination taken, the
    refactored script clones the template, fails at the validation,
    and ends with exit code 1 while the temporary clone is still on the
    disk; so does the first cloning script, and so does either of them
    when it refuses an argument. *)
Theorem temp_clone_survives_failure :
  let refactored := Refactored.start Scenario.request Scenario.taken in
  let clone := Clone.main Scenario.request Scenario.taken in
  let rejected := Refactored.start Scenario.bad_llm Scenario.fresh in
  fs Scenario.taken !! Scenario.temp = None
  ∧ refactored.1 = 1
  ∧ fs refactored.2 !! Scenario.temp = Some Dir
  ∧ fs refactored.2 !! (Scenario.temp ++ ["README.md"]) = Some (File "readme")
  ∧ clone.1 = 1
  ∧ fs clone.2 !! Scenario.temp = Some Dir
  ∧ rejected.1 = 1
  ∧ fs rejected.2 !! Scenario.temp = Some Dir.
Proof. cbv zeta. repeat split; vm_compute; reflexivity. Qed.

(** ** Relations that every step respects *)

Module Respect.
Import Process.

Section Rules.
Context (R : relation state) `{!PreOrder R}.

Lemma respects_ret {A} (a : A) : respects R (mret a : Js A).
Proof. intros st. reflexivity. Qed.

Lemma respects_throw {A} (e : error) : respects R (throw e : Js A).
Proof. intros st. reflexivity. Qed.

Lemma respects_exit {A} (c : Z) : respects R (exit c : Js A).
Proof. intros st. reflexivity. Qed.

Lemma respects_query {A} (f : gmap path node → A) : respects R (query f).
Proof. intros st. reflexivity. Qed.

Lemma respects_attempt {A} (f : gmap path node → result A) :
  respects R (attempt f).
Proof. intros st. unfold attempt. destruct (f (fs st)); reflexivity. Qed.

Lemma respects_update (f : gmap path node → result (gmap path node)) :
  (∀ st fs', f (fs st) = Ok fs' → R st (mkState fs' (console st))) →
  respects R (update f).
Proof.
  intros H st. unfold update. destruct (f (fs st)) eqn:E; [|reflexivity].
  by apply H.
Qed.

Lemma respects_emit (ev : event) :
  (∀ st, R st (mkState (fs st) (console st ++ [ev]))) →
  respects R (emit ev).
Proof. intros H st. apply H. Qed.

Lemma respects_bind {A B} (m : Js A) (f : A → Js B) :
  respects R m → (∀ a, respects R (f a)) → respects R (m ≫= f).
Proof.
  intros Hm Hf st. rewrite Run.bind_eq. specialize (Hm st).
  destruct (m st) as [[a|e|c] st1]; [|done..].
  simpl in Hm. etransitivity; [exact Hm|]. apply Hf.
Qed.

Lemma respects_when (b : bool) (m : Js ()) :
  respects R m → respects R (when b m).
Proof. intros H. destruct b; [done|]. apply respects_ret. Qed.

Lemma respects_if {A} (b : bool) (m1 m2 : Js A) :
  respects R m1 → respects R m2 → respects R (if b then m1 else m2).
Proof. by destruct b. Qed.

Lemma respects_try_catch {A} (body : Js A) (handler : error → Js A) :
  respects R body → (∀ e, respects R (handler e)) →
  respects R (try_catch body handler).
Proof.
  intros Hb Hh st. unfold try_catch. specialize (Hb st).
  destruct (body st) as [[a|e|c] st1]; [done| |done].
  simpl in Hb. etransitivity; [exact Hb|]. apply Hh.
Qed.

Lemma respects_try_finally {A} (body : Js A) (finalizer : Js ()) :
  respects R body → respects R finalizer →
  respects R (try_finally body finalizer).
Proof.
  intros Hb Hf st. unfold try_finally. specialize (Hb st).
  destruct (body st) as [[a|e|c] st1]; [| |done]; simpl in Hb;
    specialize (Hf st1); destruct (finalizer st1) as [[[]|e'|c'] st2];
    simpl in *; by etransitivity.
Qed.

Lemma respects_for_each {A} (items : list A) (f : A → Js ()) :
  (∀ x, x ∈ items → respects R (f x)) → respects R (for_each items f).
Proof.
  induction items as [|x items IH]; intros H; simpl.
  - apply respects_ret.
  - apply respects_bind.
    + apply H, list_elem_of_here.
    + intros _. apply IH. intros y Hy. apply H. by apply list_elem_of_further.
Qed.

End Rules.

(** A whole run: the script, then the handler of what nobody caught. *)
Lemma run_respects (R : relation state) `{!PreOrder R}
    (uncaught : error → Js ()) (script : Js ()) (st : state) :
  respects R script → (∀ e, respects R (uncaught e)) →
  R st (run uncaught script st).2.
Proof.
  intros Hs Hu. unfold run. specialize (Hs st).
  destruct (script st) as [[[]|e|c] st1]; simpl in *; [done| |done].
  specialize (Hu e st1).
  destruct (uncaught e st1) as [[[]|e'|c] st2]; simpl in *;
    by etransitivity.
Qed.

(** What a run that returns tells about its two halves. *)
Lemma bind_returned_inv {A B} (m : Js A) (f : A → Js B) (st st' : state) (b : B) :
  (m ≫= f) st = (Returned b, st') →
  ∃ a st1, m st = (Returned a, st1) ∧ f a st1 = (Returned b, st').
Proof.
  rewrite Run.bind_eq. destruct (m st) as [[a|e|c] st1]; [|done..].
  intros H. by exists a, st1.
Qed.

End Respect.

(** Breaks a goal [respects R m] down to the writes and prints of [m]. *)
Ltac respects_step :=
  lazymatch goal with
  | |- Process.respects ?R _ =>
      first
        [ apply (Respect.respects_ret R)
        | apply (Respect.respects_throw R)
        | apply (Respect.respects_exit R)
        | apply (Respect.respects_query R)
        | apply (Respect.respects_attempt R)
        | apply (Respect.respects_bind R); [|intros ?]
        | apply (Respect.respects_when R)
        | apply (Respect.respects_if R)
        | apply (Respect.respects_try_catch R); [|intros ?]
        | apply (Respect.respects_try_finally R)
        | apply (Respect.respects_for_each R); intros ? ?
        | progress cbv zeta ]
  end.

Ltac respects_walk := repeat respects_step.

Module Quiet.
Import Process.

Lemma quiet_ret {A} (a : A) : quiet (mret a : Js A).
Proof. by intros st c. Qed.

Lemma quiet_throw {A} (e : error) : quiet (throw e : Js A).
Proof. by intros st c. Qed.

Lemma quiet_query {A} (f : gmap path node → A) : quiet (query f).
Proof. by intros st c. Qed.

Lemma quiet_attempt {A} (f : gmap path node → result A) : quiet (attempt f).
Proof. intros st c. unfold attempt. by destruct (f (fs st)). Qed.

Lemma quiet_update (f : gmap path node → result (gmap path node)) :
  quiet (update f).
Proof. intros st c. unfold update. by destruct (f (fs st)). Qed.

Lemma quiet_emit (ev : event) : quiet (emit ev).
Proof. by intros st c. Qed.

Lemma quiet_bind {A B} (m : Js A) (f : A → Js B) :
  quiet m → (∀ a, quiet (f a)) → quiet (m ≫= f).
Proof.
  intros Hm Hf st c. rewrite Run.bind_eq. specialize (Hm st).
  destruct (m st) as [[a|e|c'] st1]; [apply Hf|done|].
  by specialize (Hm c').
Qed.

Lemma quiet_when (b : bool) (m : Js ()) : quiet m → quiet (when b m).
Proof. intros H. destruct b; [done|]. apply quiet_ret. Qed.

Lemma quiet_if {A} (b : bool) (m1 m2 : Js A) :
  quiet m1 → quiet m2 → quiet (if b then m1 else m2).
Proof. by destruct b. Qed.

Lemma quiet_try_catch {A} (body : Js A) (handler : error → Js A) :
  quiet body → (∀ e, quiet (handler e)) → quiet (try_catch body handler).
Proof.
  intros Hb Hh st c. unfold try_catch. specialize (Hb st).
  destruct (body st) as [[a|e|c'] st1]; [done|apply Hh|by specialize (Hb c')].
Qed.

Lemma quiet_for_each {A} (items : list A) (f : A → Js ()) :
  (∀ x, quiet (f x)) → quiet (for_each items f).
Proof.
  intros H. induction items as [|x items IH]; simpl.
  - apply quiet_ret.
  - apply quiet_bind; [apply H|]. by intros _.
Qed.

End Quiet.

Ltac quiet_step :=
  first
    [ apply Quiet.quiet_ret
    | apply Quiet.quiet_throw
    | apply Quiet.quiet_query
    | apply Quiet.quiet_attempt
    | apply Quiet.quiet_update
    | apply Quiet.quiet_emit
    | apply Quiet.quiet_bind; [|intros ?]
    | apply Quiet.quiet_when
    | apply Quiet.quiet_if
    | apply Quiet.quiet_try_catch; [|intros ?]
    | apply Quiet.quiet_for_each; intros ?
    | progress cbv zeta ].

Ltac quiet_walk :=
  unfold Process.console_log, Process.console_warn, Process.console_error,
    Extern.git_init, Extern.git_clone;
  repeat quiet_step.

Module RefactoredQuiet.
Import Process Refactored.

Lemma validate_quiet (p : path) : quiet (validateProjectDirectory p).
Proof. unfold validateProjectDirectory. quiet_walk. Qed.

Lemma creation_quiet (t p : path) (a : args) : quiet (creation_phase t p a).
Proof.
  unfold creation_phase, createProjectDirectory, copyCoreDiretories,
    copyRequiredFiles, copyLLMFile. quiet_walk.
Qed.

Lemma configuration_quiet (w : world) (t p : path) (a : args) :
  quiet (configuration_phase w t p a).
Proof.
  unfold configuration_phase, configurePRPTemplate, applyLanguageRules,
    initializeProjectStructure. quiet_walk.
Qed.

Lemma cleanup_quiet (p : path) : quiet (cleanupTemplateFiles p).
Proof. unfold cleanupTemplateFiles. quiet_walk. Qed.

Lemma report_quiet (p : path) (a : args) : quiet (report p a).
Proof. unfold report. quiet_walk. Qed.

(** The pipeline ends the process only from within yargs, with code 1. *)
Lemma pipeline_exit_code (w : world) (dir : path) (st st' : state) (code : Z) :
  pipeline w dir st = (Exited code, st') → code = 1.
Proof.
  unfold pipeline. rewrite Run.bind_eq.
  pose proof (RefactoredSetup.setup_phase_inv w dir st) as Hs.
  destruct (setup_phase w dir st) as [[a|e|c] st0]; [|done|].
  - intros H. exfalso.
    assert (quiet (validateProjectDirectory (Path.resolve (cwd w) (name a));;
                   creation_phase dir (Path.resolve (cwd w) (name a)) a;;
                   configuration_phase w dir (Path.resolve (cwd w) (name a)) a;;
                   cleanupTemplateFiles (Path.resolve (cwd w) (name a));;
                   report (Path.resolve (cwd w) (name a)) a)) as Hq.
    { apply Quiet.quiet_bind; [apply validate_quiet|intros _].
      apply Quiet.quiet_bind; [apply creation_quiet|intros _].
      apply Quiet.quiet_bind; [apply configuration_quiet|intros _].
      apply Quiet.quiet_bind; [apply cleanup_quiet|intros _].
      apply report_quiet. }
    apply (Hq st0 code). by rewrite H.
  - intros [= <- <-]. by destruct Hs.
Qed.

(** A process that ends with code 0 went through the whole pipeline. *)
Lemma start_zero_inv (w : world) (st st' : state) :
  start w st = (0, st') →
  ∃ st1, pipeline w (generateTempDir w) st = (Returned (), st1)
         ∧ fs st' = Fs.removeSync (fs st1) (generateTempDir w)
         ∧ console st' = console st1 ++ [Stdout "Cleaned up temporary files"].
Proof.
  intros Hs.
  destruct (pipeline w (generateTempDir w) st) as [[[]|e|c] st1] eqn:Ep.
  - destruct (TempClone.start_succeeded w st st1 Ep) as (st2 & Hs2 & Hf & Hc).
    exists st1. split; [done|]. rewrite Hs in Hs2. by injection Hs2 as <-.
  - destruct (RefactoredSetup.start_failed w st st1 _ Ep I) as (st2 & Hs2 & _).
    rewrite Hs in Hs2. discriminate.
  - pose proof (pipeline_exit_code _ _ _ _ _ Ep) as ->.
    destruct (RefactoredSetup.start_failed w st st1 _ Ep eq_refl) as (st2 & Hs2 & _).
    rewrite Hs in Hs2. discriminate.
Qed.

End RefactoredQuiet.

(** ** What is printed and started *)

Module Events.
Import Process Extern Spec.

#[global] Instance emits_preorder (P : event → Prop) : PreOrder (emits P).
Proof.
  split.
  - intros st. exists []. by rewrite app_nil_r.
  - intros a b c. unfold emits. intros (e1 & H1 & F1) (e2 & H2 & F2).
    exists (e1 ++ e2).
    split; [by rewrite H2, H1, app_assoc|]. by apply Forall_app.
Qed.

Section Emits.
Context (P : event → Prop) (talk : chatty P).

Lemma emits_update (f : gmap path node → result (gmap path node)) :
  respects (emits P) (update f).
Proof.
  apply (Respect.respects_update (emits P)). intros st fs' _.
  exists []. by rewrite app_nil_r.
Qed.

Lemma emits_event (ev : event) : P ev → respects (emits P) (emit ev).
Proof.
  intros H. apply (Respect.respects_emit (emits P)). intros st.
  exists [ev]. split; [done|]. by apply Forall_singleton.
Qed.

Lemma emits_log (line : string) : respects (emits P) (console_log line).
Proof. apply emits_event, talk. Qed.

Lemma emits_warn (line : string) : respects (emits P) (console_warn line).
Proof. apply emits_event, talk. Qed.

Lemma emits_error (line : string) : respects (emits P) (console_error line).
Proof. apply emits_event, talk. Qed.

Lemma emits_git_clone (w : world) (dir : path) :
  P (Spawn ("git clone --depth 1 " +:+ REPO_URL +:+ " " +:+ Path.show dir) None) →
  respects (emits P) (git_clone w dir).
Proof.
  intros H. unfold git_clone.
  apply (Respect.respects_bind (emits P)); [by apply emits_event|intros _].
  apply emits_update.
Qed.

Lemma emits_git_init (w : world) (dir : path) :
  P (Spawn "git init" (Some dir)) → respects (emits P) (git_init w dir).
Proof.
  intros H. unfold git_init.
  apply (Respect.respects_bind (emits P)); [by apply emits_event|intros _].
  apply emits_update.
Qed.

End Emits.

End Events.

(** Breaks a goal [respects (emits P) m] down to the commands started. *)
Ltac emits_walk talk :=
  repeat
    lazymatch goal with
    | |- Process.respects _ (Extern.git_init _ _) => fail
    | |- Process.respects _ (Extern.git_clone _ _) => fail
    | |- _ =>
      first
        [ apply (Events.emits_update _)
        | apply (Events.emits_log _ talk)
        | apply (Events.emits_warn _ talk)
        | apply (Events.emits_error _ talk)
        | respects_step ]
    end.

Module RefactoredEvents.
Import Process Extern Spec Refactored.

Section Emits.
Context (P : event → Prop) (talk : chatty P).

Lemma validate_emits (p : path) : respects (emits P) (validateProjectDirectory p).
Proof. unfold validateProjectDirectory. emits_walk talk. Qed.

Lemma creation_emits (t p : path) (a : args) :
  respects (emits P) (creation_phase t p a).
Proof.
  unfold creation_phase, createProjectDirectory, copyCoreDiretories,
    copyRequiredFiles, copyLLMFile. emits_walk talk.
Qed.

Lemma configure_emits (p : path) (l m : string) :
  respects (emits P) (configurePRPTemplate p l m).
Proof. unfold configurePRPTemplate. emits_walk talk. Qed.

Lemma rules_emits (t p : path) (l m : string) :
  respects (emits P) (applyLanguageRules t p l m).
Proof. unfold applyLanguageRules. emits_walk talk. Qed.

Lemma initialize_emits (w : world) (p : path) (nm : string) :
  P (Spawn "git init" (Some (Path.join p [nm]))) →
  respects (emits P) (initializeProjectStructure w p nm).
Proof.
  intros H. unfold initializeProjectStructure. emits_walk talk.
  by apply Events.emits_git_init.
Qed.

Lemma cleanup_emits (p : path) : respects (emits P) (cleanupTemplateFiles p).
Proof. unfold cleanupTemplateFiles. emits_walk talk. Qed.

Lemma report_emits (p : path) (a : args) : respects (emits P) (report p a).
Proof. unfold report. emits_walk talk. Qed.

Lemma yargs_emits (langs llms : list string) (raw : raw_args) :
  respects (emits P) (yargs langs llms raw).
Proof.
  unfold yargs. destruct raw as [[n|] [l|] [m|]]; cbn [given_name given_lang given_llm fmap option_fmap option_map];
    emits_walk talk.
Qed.

Lemma setup_emits (w : world) (dir : path) :
  P (Spawn ("git clone --depth 1 " +:+ REPO_URL +:+ " " +:+ Path.show dir) None) →
  respects (emits P) (setup_phase w dir).
Proof.
  intros H. unfold setup_phase, cloneRepository, getAvailableLanguages,
    parseArguments.
  apply (Respect.respects_bind (emits P)); [|intros _].
  { emits_walk talk. by apply Events.emits_git_clone. }
  apply (Respect.respects_bind (emits P)); [|intros langs].
  { emits_walk talk. }
  apply yargs_emits.
Qed.

End Emits.

End RefactoredEvents.

(** ** Step 7: the repository *)

Module GitInit.
Import Process Extern Spec.

Lemma only_in_chatty (dir : path) : chatty (only_in dir).
Proof. split; intros line d [=]. Qed.

Lemma only_in_clone (dir t : path) :
  only_in dir
    (Spawn ("git clone --depth 1 " +:+ REPO_URL +:+ " " +:+ Path.show t) None).
Proof.
  intros d H. exfalso. inversion H.
Qed.

Lemma only_in_init (dir : path) : only_in dir (Spawn "git init" (Some dir)).
Proof. by intros d [= <-]. Qed.

Lemma mkdir_recursive_dir (fs fs' : gmap path node) (p : path) :
  Fs.mkdirSync_recursive fs p = Ok fs' → fs' !! p = Some Dir.
Proof.
  unfold Fs.mkdirSync_recursive. intros H.
  assert (fs' = fold_left Fs.make_dir (Fs.ancestors p) fs
          ∧ ∀ c, fs !! p ≠ Some (File c)) as [-> Hp].
  { destruct (fs !! p) as [[c|]|] eqn:E; [done| |];
      destruct (forallb _ _); try done; injection H as <-; by split. }
  rewrite FsLookup.lookup_make_dirs.
  rewrite bool_decide_eq_true_2 by by apply FsLookup.elem_of_ancestors.
  destruct (fs !! p) as [[c|]|] eqn:E; [by destruct (Hp c)|done..].
Qed.

(** What [git init] prints and whether it took place. *)
Lemma git_init_run (w : world) (dir : path) (st : state) :
  Fs.is_dir (fs st) dir = true →
  ∃ st', git_init w dir st
         = ((if git_init_ok w dir then Returned ()
             else Thrown (Error "Command failed: git init")), st')
         ∧ console st' = console st ++ [Spawn "git init" (Some dir)].
Proof.
  intros Hd. unfold git_init. rewrite Run.bind_eq, Run.emit_eq.
  unfold update. cbn [fs console]. rewrite Hd. cbn [negb].
  destruct (git_init_ok w dir); by eexists.
Qed.

Lemma initialize_inv (w : world) (p : path) (nm : string) (st st' : state) :
  Refactored.initializeProjectStructure w p nm st = (Returned (), st') →
  console st'
  = console st
    ++ [Stdout ("Created source directory: " +:+ Path.show (Path.join p [nm]));
        Spawn "git init" (Some (Path.join p [nm]));
        if git_init_ok w (Path.join p [nm])
        then Stdout "Initialized git repository"
        else Stderr "Warning: Failed to initialize git repository: Command failed: git init"].
Proof.
  unfold Refactored.initializeProjectStructure. cbv zeta.
  intros H. apply Respect.bind_returned_inv in H as ([] & s1 & H1 & H).
  apply Respect.bind_returned_inv in H as ([] & s2 & H2 & H).
  revert H1. unfold update.
  destruct (Fs.mkdirSync_recursive (fs st) (Path.join p [nm])) as [fs1|] eqn:Em;
    [|done].
  intros [= <-]. apply mkdir_recursive_dir in Em.
  unfold console_log in H2. rewrite Run.emit_eq in H2. injection H2 as <-.
  revert H. unfold try_catch. rewrite Run.bind_eq.
  set (s2 := mkState fs1 _).
  destruct (git_init_run w (Path.join p [nm]) s2) as (s3 & -> & Hc).
  { by apply FsFacts.is_dir_true. }
  destruct (git_init_ok w (Path.join p [nm])).
  - unfold console_log. rewrite Run.emit_eq. intros [= <-]. cbn [console].
    rewrite Hc. unfold s2. cbn [console]. by rewrite <- !app_assoc.
  - unfold console_warn. rewrite Run.emit_eq. intros [= <-]. cbn [console].
    rewrite Hc. unfold s2. cbn [console]. by rewrite <- !app_assoc.
Qed.

(** Events that satisfy [only_in dir] and hold a [git init] in [dir]
    make up a run that has started git there and nowhere else. *)
Lemma only_in_between (dir : path) (a b c d : state) (x z : event) :
  emits (only_in dir) a b →
  console c = console b ++ [x; Spawn "git init" (Some dir); z] →
  only_in dir x → only_in dir z →
  emits (only_in dir) c d →
  git_init_only_in dir a d.
Proof.
  intros (e1 & H1 & F1) Hc Hx Hz (e2 & H2 & F2).
  exists (e1 ++ [x; Spawn "git init" (Some dir); z] ++ e2). split; [|split].
  - rewrite H2, Hc, H1. by rewrite <- !app_assoc.
  - apply elem_of_app. right. apply elem_of_app. left.
    apply list_elem_of_further, list_elem_of_here.
  - intros d' Hd.
    assert (Forall (only_in dir)
              (e1 ++ [x; Spawn "git init" (Some dir); z] ++ e2)) as HF.
    { apply Forall_app. split; [done|]. apply Forall_app. split; [|done].
      repeat constructor; auto using only_in_init. }
    rewrite Forall_forall in HF. by apply (HF _ Hd).
Qed.

End GitInit.

Ltac bind_inv H :=
  let a := fresh "a" in
  let s := fresh "s" in
  let H1 := fresh "Hstep" in
  apply Respect.bind_returned_inv in H as (a & s & H1 & H).

Section RefactoredGitInit.
Import Process Extern Spec Refactored.
Variables (w : world) (st : state) (nm : string).
Hypothesis given : given_name (argv w) = Some nm.

Let srcDir := Path.join (Path.resolve (cwd w) nm) [nm].

Lemma refactored_git_init :
  (start w st).1 = 0 →
  git_init_only_in srcDir st (start w st).2
  ∧ (git_init_ok w srcDir = false →
     Stderr "Warning: Failed to initialize git repository: Command failed: git init"
     ∈ console (start w st).2).
Proof.
  destruct (start w st) as [code st'] eqn:E. cbn [fst snd]. intros ->.
  apply RefactoredQuiet.start_zero_inv in E as (st1 & Hp & _ & Hcon).
  pose proof (GitInit.only_in_chatty srcDir) as talk.
  set (dir := generateTempDir w) in *.
  unfold pipeline in Hp. bind_inv Hp.
  pose proof (RefactoredSetup.setup_phase_inv w dir st) as Hs.
  pose proof (RefactoredEvents.setup_emits _ talk w dir
                (GitInit.only_in_clone srcDir dir) st) as E0.
  rewrite Hstep in Hs, E0. cbn [snd] in E0.
  destruct Hs as (tree & n & l & m & _ & _ & Hraw & -> & _).
  rewrite Hraw in given. injection given as ->. cbn [name] in Hp.
  bind_inv Hp. bind_inv Hp. bind_inv Hp. bind_inv Hp.
  unfold configuration_phase in Hstep2. cbn [name lang llm] in Hstep2.
  bind_inv Hstep2. bind_inv Hstep2.
  pose proof (RefactoredEvents.validate_emits (only_in srcDir) (Path.resolve (cwd w) nm) s) as E1.
  rewrite Hstep0 in E1.
  pose proof (RefactoredEvents.creation_emits _ talk dir (Path.resolve (cwd w) nm)
                (mkArgs nm l (JsString.toUpperCase m)) s0) as E2.
  rewrite Hstep1 in E2.
  pose proof (RefactoredEvents.configure_emits _ talk (Path.resolve (cwd w) nm) l
                (JsString.toUpperCase m) s1) as E3.
  rewrite Hstep4 in E3.
  pose proof (RefactoredEvents.rules_emits _ talk dir (Path.resolve (cwd w) nm) l
                (JsString.toUpperCase m) s4) as E4.
  rewrite Hstep5 in E4.
  pose proof (RefactoredEvents.cleanup_emits _ talk (Path.resolve (cwd w) nm) s2) as E5.
  rewrite Hstep3 in E5.
  pose proof (RefactoredEvents.report_emits _ talk (Path.resolve (cwd w) nm)
                (mkArgs nm l (JsString.toUpperCase m)) s3) as E6.
  rewrite Hp in E6. cbn [snd] in *.
  repeat match goal with u : () |- _ => destruct u end.
  apply GitInit.initialize_inv in Hstep2 as Hinit.
  fold srcDir in Hinit.
  set (line := if git_init_ok w srcDir then _ else _) in Hinit.
  assert (emits (only_in srcDir) st s5) as Ebefore.
  { etransitivity; [exact E0|]. etransitivity; [exact E1|].
    etransitivity; [exact E2|]. etransitivity; [exact E3|]. exact E4. }
  assert (emits (only_in srcDir) s2 st') as Eafter.
  { etransitivity; [exact E5|]. etransitivity; [exact E6|].
    exists [Stdout "Cleaned up temporary files"]. split; [done|].
    apply Forall_singleton, talk. }
  assert (only_in srcDir line) as Hl.
  { unfold line. destruct (git_init_ok w srcDir); apply talk. }
  split.
  - eapply GitInit.only_in_between; eauto. apply talk.
  - intros Hg. destruct Eafter as (e2 & -> & _). rewrite Hinit.
    apply elem_of_app. left. apply elem_of_app. right.
    unfold line. rewrite Hg.
    do 2 apply list_elem_of_further. apply list_elem_of_here.
Qed.

End RefactoredGitInit.

Module CloneEvents.
Import Process Extern Spec Clone.

Lemma build_quiet (w : world) (a : args) : quiet (build w a).
Proof.
  unfold build, copy, configure_prp_template, write_language_rules. quiet_walk.
Qed.

(** The first script ends with code 0 only when it has run to its end. *)
Lemma main_zero_inv (w : world) (st : state) :
  (main w st).1 = 0 → script w st = (Returned (), (main w st).2).
Proof.
  unfold main, run.
  destruct (script w st) as [[[]|e|c] st1] eqn:Es; cbn [fst snd]; [done| |].
  - unfold default_uncaught, console_error. rewrite Run.emit_eq. done.
  - intros ->. exfalso. revert Es. unfold script. rewrite Run.bind_eq.
    pose proof (CloneSetup.clone_discover_inv w st) as Hd.
    destruct (discover w st) as [[a|e|c] s0]; [|done|].
    + intros H. apply (build_quiet w a s0 0). by rewrite H.
    + intros [= -> _]. by destruct Hd.
Qed.

Section Emits.
Context (P : event → Prop) (talk : chatty P).

Lemma step_emits {A} (m : Js A) (st st' : state) (o : outcome A) :
  respects (emits P) m → m st = (o, st') → emits P st st'.
Proof. intros H E. specialize (H st). by rewrite E in H. Qed.

Lemma copy_emits (t p : path) (entry : string) :
  respects (emits P) (copy t p entry).
Proof. apply Events.emits_update. Qed.

Lemma clone_configure_emits (p : path) (l m : string) :
  respects (emits P) (configure_prp_template p l m).
Proof using talk. unfold configure_prp_template. emits_walk talk. Qed.

Lemma clone_rules_emits (t p : path) (l m : string) :
  respects (emits P) (write_language_rules t p l m).
Proof using talk. unfold write_language_rules. emits_walk talk. Qed.

Lemma discover_emits (w : world) :
  P (Spawn ("git clone --depth 1 " +:+ REPO_URL +:+ " "
            +:+ Path.show (tempDir w)) None) →
  respects (emits P) (discover w).
Proof using talk.
  intros H. unfold discover.
  apply (Respect.respects_bind (emits P)); [by apply Events.emits_git_clone|].
  intros _. apply (Respect.respects_bind (emits P)); [emits_walk talk|].
  intros files. apply RefactoredEvents.yargs_emits, talk.
Qed.

End Emits.

End CloneEvents.

Section CloneGitInit.
Import Process Extern Spec Clone.
Variables (w : world) (st : state) (nm : string).
Hypothesis given : given_name (argv w) = Some nm.

Let srcDir := Path.join (Path.resolve (cwd w) nm) [nm].

Lemma clone_git_init :
  (main w st).1 = 0 →
  git_init_only_in srcDir st (main w st).2 ∧ git_init_ok w srcDir = true.
Proof.
  intros Hz. apply CloneEvents.main_zero_inv in Hz.
  set (st' := (main w st).2) in *. clearbody st'.
  pose proof (GitInit.only_in_chatty srcDir) as talk.
  unfold script in Hz. bind_inv Hz.
  pose proof (CloneSetup.clone_discover_inv w st) as Hs.
  pose proof (CloneEvents.step_emits _ _ _ _ _
                (CloneEvents.discover_emits _ talk w
                   (GitInit.only_in_clone srcDir (tempDir w))) Hstep) as E0.
  rewrite Hstep in Hs.
  destruct Hs as (tree & n & l & m & _ & _ & Hraw & -> & _).
  rewrite Hraw in given. injection given as ->.
  unfold build in Hz. cbv zeta in Hz. cbn [name lang llm] in Hz.
  fold srcDir in Hz.
  do 12 bind_inv Hz.
  repeat match goal with u : () |- _ => destruct u end.
  (* the directory made for the sources is where git is started *)
  assert (Fs.is_dir (fs s9) srcDir = true) as Hdir.
  { revert Hstep9. unfold update.
    destruct (Fs.mkdirSync (fs s8) srcDir) as [fs'|] eqn:Em; [|done].
    intros [= <-]. cbn [fs]. apply FsFacts.is_dir_true.
    revert Em. unfold Fs.mkdirSync. destruct (fs s8 !! srcDir); [done|].
    destruct (Fs.is_dir _ _); [|done]. intros [= <-]. apply lookup_insert_eq. }
  destruct (GitInit.git_init_run w srcDir s9 Hdir) as (s10' & Hg & Hc).
  rewrite Hstep10 in Hg.
  destruct (git_init_ok w srcDir) eqn:Eg; [|done]. injection Hg as <-.
  split; [|done].
  assert (emits (only_in srcDir) st s9) as Ebefore.
  { etransitivity; [exact E0|].
    etransitivity; [apply (CloneEvents.step_emits _ _ _ _ _ (Events.emits_update _ _) Hstep0)|].
    etransitivity; [apply (CloneEvents.step_emits _ _ _ _ _ (CloneEvents.copy_emits _ _ _ _) Hstep1)|].
    etransitivity; [apply (CloneEvents.step_emits _ _ _ _ _ (CloneEvents.copy_emits _ _ _ _) Hstep2)|].
    etransitivity.
    { eapply CloneEvents.step_emits; [|exact Hstep3].
      destruct (String.eqb _ _); apply CloneEvents.copy_emits. }
    etransitivity; [apply (CloneEvents.step_emits _ _ _ _ _ (CloneEvents.copy_emits _ _ _ _) Hstep4)|].
    etransitivity; [apply (CloneEvents.step_emits _ _ _ _ _ (CloneEvents.copy_emits _ _ _ _) Hstep5)|].
    etransitivity; [apply (CloneEvents.step_emits _ _ _ _ _ (CloneEvents.copy_emits _ _ _ _) Hstep6)|].
    etransitivity; [apply (CloneEvents.step_emits _ _ _ _ _ (CloneEvents.clone_configure_emits _ talk _ _ _) Hstep7)|].
    etransitivity; [apply (CloneEvents.step_emits _ _ _ _ _ (CloneEvents.clone_rules_emits _ talk _ _ _ _) Hstep8)|].
    apply (CloneEvents.step_emits _ _ _ _ _ (Events.emits_update _ _) Hstep9). }
  assert (emits (only_in srcDir) s10 st') as Eafter.
  { etransitivity; [apply (CloneEvents.step_emits _ _ _ _ _ (Events.emits_update _ _) Hstep11)|].
    apply (CloneEvents.step_emits _ _ _ _ _ (Events.emits_log _ talk _) Hz). }
  destruct Ebefore as (e1 & H1 & F1). destruct Eafter as (e2 & H2 & F2).
  exists (e1 ++ [Spawn "git init" (Some srcDir)] ++ e2). split; [|split].
  - rewrite H2, Hc, H1. by rewrite <- !app_assoc.
  - apply elem_of_app. right. apply list_elem_of_here.
  - intros d Hd.
    assert (Forall (only_in srcDir)
              (e1 ++ [Spawn "git init" (Some srcDir)] ++ e2)) as HF.
    { apply Forall_app. split; [done|]. constructor; [|done].
      apply GitInit.only_in_init. }
    rewrite Forall_forall in HF. by apply (HF _ Hd).
Qed.

End CloneGitInit.



(** At concrete inputs: in the refactored script a failing [git init]
    is not fatal, the run ends with exit code 0; in the local script
    [git init] is run in the destination root, not in an inner source
    directory. *)
Lemma git_init_counterexample :
  let refactored := Refactored.start Scenario.git_fails Scenario.fresh in
  let local :=
    Local.main Scenario.request (mkState Scenario.disk_with_template []) in
  git_init_ok Scenario.git_fails (Scenario.app ++ ["app"]) = false
  ∧ refactored.1 = 0
  ∧ fs refactored.2 !! (Scenario.app ++ ["app"; ".git"]) = None
  ∧ local.1 = 0
  ∧ console local.2
    = [Spawn "git init" (Some Scenario.app);
       Stdout "Project app created successfully!"]
  ∧ fs local.2 !! (Scenario.app ++ [".git"]) = Some Dir.
Proof. cbv zeta. repeat split; vm_compute; reflexivity. Qed.

(** ** Step 3: the branding file *)

Module NoFile.
Import Process Extern Spec.

#[global] Instance no_file_at_preorder (p : path) : PreOrder (no_file_at p).
Proof. split; unfold no_file_at; [by intros ?|intros a b c; auto]. Qed.

Lemma respects_bind_val {A B} (R : relation state) `{!PreOrder R}
    (m : Js A) (f : A → Js B) :
  respects R m →
  (∀ st a st1, m st = (Returned a, st1) → respects R (f a)) →
  respects R (m ≫= f).
Proof.
  intros Hm Hf st. rewrite Run.bind_eq. specialize (Hm st).
  destruct (m st) as [[a|e|c] st1] eqn:E; [|done..].
  simpl in Hm. etransitivity; [exact Hm|]. by eapply Hf.
Qed.

Section At.
Variable p : path.

Lemma is_file_insert_ne (fs : gmap path node) (q : path) (n : node) :
  q ≠ p → Fs.is_file (<[q := n]> fs) p = Fs.is_file fs p.
Proof. intros H. unfold Fs.is_file. by rewrite lookup_insert_ne. Qed.

Lemma is_file_insert_dir (fs : gmap path node) (q : path) :
  Fs.is_file fs p = false → Fs.is_file (<[q := Dir]> fs) p = false.
Proof.
  intros H. destruct (decide (q = p)) as [->|Hne].
  - unfold Fs.is_file. by rewrite lookup_insert_eq.
  - by rewrite is_file_insert_ne.
Qed.

Lemma keeps_event (ev : event) : respects (no_file_at p) (emit ev).
Proof.
  apply (Respect.respects_emit (no_file_at p)). intros st.
  unfold no_file_at. done.
Qed.

Lemma keeps_write (q : path) (content : string) :
  q ≠ p →
  respects (no_file_at p) (update (λ fs, Fs.writeFileSync fs q content)).
Proof.
  intros Hq. apply (Respect.respects_update (no_file_at p)).
  intros st fs'. unfold Fs.writeFileSync, no_file_at. cbn [fs].
  destruct (fs st !! q) as [[c|]|]; try done;
    destruct (Fs.is_dir _ _); try done; intros [= <-];
    by rewrite is_file_insert_ne.
Qed.

Lemma keeps_mkdir (q : path) :
  respects (no_file_at p) (update (λ fs, Fs.mkdirSync fs q)).
Proof.
  apply (Respect.respects_update (no_file_at p)).
  intros st fs'. unfold Fs.mkdirSync, no_file_at. cbn [fs].
  destruct (fs st !! q); [done|]. destruct (Fs.is_dir _ _); [|done].
  intros [= <-]. apply is_file_insert_dir.
Qed.

Lemma is_file_make_dirs (ds : list path) (fs : gmap path node) :
  Fs.is_file fs p = false → Fs.is_file (fold_left Fs.make_dir ds fs) p = false.
Proof.
  unfold Fs.is_file. rewrite FsLookup.lookup_make_dirs.
  case_bool_decide; [|done]. by destruct (fs !! p) as [[]|].
Qed.

Lemma keeps_mkdir_recursive (q : path) :
  respects (no_file_at p) (update (λ fs, Fs.mkdirSync_recursive fs q)).
Proof.
  apply (Respect.respects_update (no_file_at p)).
  intros st fs'. unfold Fs.mkdirSync_recursive, no_file_at. cbn [fs].
  destruct (fs st !! q) as [[c|]|]; try done;
    destruct (forallb _ _); try done; intros [= <-];
    apply (is_file_make_dirs (Fs.ancestors q) (fs st)).
Qed.

Lemma keeps_remove (q : path) :
  respects (no_file_at p) (update (λ fs, Ok (Fs.removeSync fs q))).
Proof.
  apply (Respect.respects_update (no_file_at p)).
  intros st fs' [= <-]. unfold no_file_at, Fs.is_file. cbn [fs].
  rewrite FsLookup.lookup_removeSync. by case_bool_decide.
Qed.

Lemma keeps_copy (src dst : path) :
  ¬ dst `prefix_of` p →
  respects (no_file_at p) (update (λ fs, Fs.copySync fs src dst)).
Proof.
  intros Hd. apply (Respect.respects_update (no_file_at p)).
  intros st fs'. unfold Fs.copySync, no_file_at. cbn [fs].
  destruct (fs st !! src) as [[c|]|]; [| |done].
  - destruct (fs st !! dst) as [[c'|]|]; try done; intros [= <-];
      rewrite is_file_insert_ne; try done; by intros ->.
  - assert (∀ fs', Ok (Fs.copy_tree (fs st) src dst (fs st)) = Ok fs' →
              Fs.is_file (fs st) p = false → Fs.is_file fs' p = false) as Hc.
    { intros ? [= <-]. unfold Fs.is_file.
      rewrite FsLookup.lookup_copy_tree. by rewrite bool_decide_eq_false_2. }
    destruct (fs st !! dst) as [[c'|]|]; try done;
      destruct (Path.under src dst); try done; apply Hc.
Qed.

Lemma keeps_git_init (w : world) (dir : path) :
  respects (no_file_at p) (git_init w dir).
Proof.
  unfold git_init.
  apply (Respect.respects_bind (no_file_at p)); [apply keeps_event|intros _].
  apply (Respect.respects_update (no_file_at p)).
  intros st fs'. unfold no_file_at. cbn [fs].
  destruct (negb _); [done|]. destruct (git_init_ok w dir); [|done].
  intros [= <-]. unfold Fs.is_file. rewrite FsLookup.lookup_make_dir.
  case_bool_decide; [|done]. subst. by destruct (fs st !! _) as [[]|].
Qed.

Lemma keeps_git_clone (w : world) (dir : path) :
  ¬ dir `prefix_of` p → respects (no_file_at p) (git_clone w dir).
Proof.
  intros Hd. unfold git_clone.
  apply (Respect.respects_bind (no_file_at p)); [apply keeps_event|intros _].
  apply (Respect.respects_update (no_file_at p)).
  intros st fs'. unfold no_file_at. cbn [fs].
  destruct (origin w) as [tree|]; [|done]. destruct (_ || _); [done|].
  intros [= <-]. unfold Fs.is_file.
  change (<[dir:=Dir]> (Fs.copy_tree tree [] dir (fs st)))
    with (cloned tree dir (fs st)).
  by rewrite (Setup.cloned_outside tree dir (fs st) p Hd).
Qed.

End At.

End NoFile.

(** Breaks a goal [respects (no_file_at p) m] down to the writes that
    could touch [p]. *)
Ltac keeps_walk :=
  unfold Process.console_log, Process.console_warn, Process.console_error;
  repeat
    lazymatch goal with
    | |- Process.respects _ (Extern.git_init _ _) => apply NoFile.keeps_git_init
    | |- Process.respects _ (Extern.git_clone _ _) => fail
    | |- Process.respects _ (Process.update (λ fs, Fs.copySync fs _ _)) => fail
    | |- Process.respects _ (Process.update (λ fs, Fs.writeFileSync fs _ _)) => fail
    | |- _ =>
      first
        [ apply NoFile.keeps_event
        | apply NoFile.keeps_mkdir
        | apply NoFile.keeps_mkdir_recursive
        | apply NoFile.keeps_remove
        | respects_step ]
    end.

Section OtherBranding.
Import Process Extern Spec.
Variables (w : world) (nm l m other : string).

Let projectDir := Path.resolve (cwd w) nm.
Let chosen := JsString.toUpperCase m.
Let p := projectDir ++ [other +:+ ".md"].

Hypothesis given : argv w = mkRaw (Some nm) (Some l) (Some m).
Hypothesis other_llm : other ∈ SUPPORTED_LLMS.
Hypothesis other_not_selected : other ≠ chosen.
Hypothesis temp_apart : ¬ Clone.tempDir w `prefix_of` p.

Lemma sibling_apart (entry : string) :
  Path.simple entry = true → entry ≠ other +:+ ".md" →
  ¬ Path.join projectDir [entry] `prefix_of` p.
Proof.
  intros Hs Hne. rewrite PathFacts.join_simple by (cbn [forallb]; by rewrite Hs).
  unfold p. intros [k Hk]%prefix_app_inv.
  injection Hk as Hk _. by apply Hne.
Qed.

Lemma supported_cases (s : string) :
  s ∈ SUPPORTED_LLMS → s = "GEMINI" ∨ s = "CLAUDE".
Proof.
  unfold SUPPORTED_LLMS. intros [H|H]%elem_of_cons; [by left|].
  apply list_elem_of_singleton in H. by right.
Qed.

Lemma other_cases : other +:+ ".md" = "GEMINI.md" ∨ other +:+ ".md" = "CLAUDE.md".
Proof.
  destruct (supported_cases other other_llm) as [H|H]; rewrite H; auto.
Qed.

Lemma fixed_entry_apart (entry : string) :
  entry ∈ [".context"; "examples"; "INITIAL_EXAMPLE.md"; "INITIAL.md"; "README.md"] →
  ¬ Path.join projectDir [entry] `prefix_of` p.
Proof.
  intros H. apply sibling_apart.
  - repeat (apply elem_of_cons in H as [->|H]; [done|]). by apply elem_of_nil in H.
  - destruct other_cases as [Ho|Ho]; rewrite Ho;
      repeat (apply elem_of_cons in H as [->|H]; [done|]); by apply elem_of_nil in H.
Qed.

Lemma selected_apart (selected : string) :
  selected ∈ SUPPORTED_LLMS → other ≠ selected →
  ¬ Path.join projectDir [selected +:+ ".md"] `prefix_of` p.
Proof.
  intros Hs Hne.
  destruct (supported_cases selected Hs) as [Hsel|Hsel];
    destruct (supported_cases other other_llm) as [Ho|Ho];
    try congruence; apply sibling_apart; rewrite Hsel, ?Ho; done.
Qed.

Lemma generic_apart (dir : string) :
  Path.simple dir = true →
  Path.join projectDir [dir; "templates"; "prp_template.md"] ≠ p.
Proof.
  intros Hd. rewrite PathFacts.join_simple by (cbn [forallb]; by rewrite Hd).
  unfold p. intros H%app_inv_head. discriminate.
Qed.

Lemma target_apart (selected : string) :
  selected ∈ SUPPORTED_LLMS → other ≠ selected →
  Path.join projectDir [selected +:+ ".md"] ≠ p.
Proof.
  intros Hs Hne Heq. apply (selected_apart selected Hs Hne). by rewrite Heq.
Qed.

(** The refactored script. *)

Lemma refactored_creation_keeps (dir : path) :
  chosen ∈ SUPPORTED_LLMS →
  respects (no_file_at p)
    (Refactored.creation_phase dir projectDir (mkArgs nm l chosen)).
Proof.
  intros Hllm.
  unfold Refactored.creation_phase, Refactored.createProjectDirectory,
    Refactored.copyCoreDiretories, Refactored.copyRequiredFiles,
    Refactored.copyLLMFile, REQUIRED_FILES.
  cbn [name lang llm].
  keeps_walk; apply NoFile.keeps_copy;
    first [ by apply selected_apart
          | apply fixed_entry_apart; repeat constructor ].
Qed.

Lemma refactored_configuration_keeps (dir : path) :
  chosen ∈ SUPPORTED_LLMS →
  respects (no_file_at p)
    (Refactored.configuration_phase w dir projectDir (mkArgs nm l chosen)).
Proof.
  intros Hllm.
  unfold Refactored.configuration_phase, Refactored.configurePRPTemplate,
    Refactored.applyLanguageRules, Refactored.initializeProjectStructure.
  cbn [name lang llm].
  keeps_walk; apply NoFile.keeps_write.
  - by apply generic_apart.
  - by apply target_apart.
Qed.

Lemma refactored_cleanup_keeps :
  respects (no_file_at p) (Refactored.cleanupTemplateFiles projectDir).
Proof. unfold Refactored.cleanupTemplateFiles. keeps_walk. Qed.

Lemma refactored_report_keeps (a : args) :
  respects (no_file_at p) (Refactored.report projectDir a).
Proof. unfold Refactored.report. keeps_walk. Qed.

Lemma yargs_keeps (langs llms : list string) (raw : raw_args) :
  respects (no_file_at p) (yargs langs llms raw).
Proof.
  unfold yargs. destruct raw as [[?|] [?|] [?|]];
    cbn [given_name given_lang given_llm fmap option_fmap option_map];
    keeps_walk.
Qed.

Lemma refactored_setup_keeps :
  respects (no_file_at p)
    (Refactored.setup_phase w (Refactored.generateTempDir w)).
Proof.
  unfold Refactored.setup_phase, Refactored.cloneRepository,
    Refactored.getAvailableLanguages, Refactored.parseArguments.
  apply (Respect.respects_bind (no_file_at p)); [|intros _].
  { keeps_walk. by apply NoFile.keeps_git_clone. }
  apply (Respect.respects_bind (no_file_at p)); [|intros langs].
  { keeps_walk. }
  apply yargs_keeps.
Qed.

Lemma refactored_main_keeps : respects (no_file_at p) (Refactored.main w).
Proof.
  unfold Refactored.main, try_catch_finally. cbv zeta.
  apply (Respect.respects_try_finally (no_file_at p)).
  - apply (Respect.respects_try_catch (no_file_at p)); [|intros e; keeps_walk].
    unfold Refactored.pipeline.
    apply (NoFile.respects_bind_val (no_file_at p));
      [apply refactored_setup_keeps|].
    intros st a st1 Hs.
    pose proof (RefactoredSetup.setup_phase_inv w (Refactored.generateTempDir w) st) as Hi.
    rewrite Hs in Hi. destruct Hi as (tree & n' & l' & m' & _ & _ & Hraw & -> & _ & Hm).
    rewrite given in Hraw. injection Hraw as <- <- <-.
    cbn [name]. fold projectDir chosen in Hm |- *.
    apply (Respect.respects_bind (no_file_at p)); [|intros _].
    { unfold Refactored.validateProjectDirectory. keeps_walk. }
    apply (Respect.respects_bind (no_file_at p)); [|intros _].
    { by apply refactored_creation_keeps. }
    apply (Respect.respects_bind (no_file_at p)); [|intros _].
    { by apply refactored_configuration_keeps. }
    apply (Respect.respects_bind (no_file_at p)); [|intros _].
    { apply refactored_cleanup_keeps. }
    apply refactored_report_keeps.
  - unfold Refactored.cleanupTempDirectory. keeps_walk.
Qed.

(** The first cloning script. *)

Hypothesis rules_apart : Clone.langRulesPath (Clone.tempDir w) l ≠ p.

Lemma clone_build_keeps :
  chosen ∈ SUPPORTED_LLMS →
  respects (no_file_at p) (Clone.build w (mkArgs nm l chosen)).
Proof.
  intros Hllm. unfold Clone.build. cbn [name lang llm]. cbv zeta.
  fold projectDir.
  assert (respects (no_file_at p)
            (if String.eqb chosen "CLAUDE"
             then Clone.copy (Clone.tempDir w) projectDir "CLAUDE.md"
             else Clone.copy (Clone.tempDir w) projectDir "GEMINI.md")) as Hstep.
  { destruct (supported_cases chosen Hllm) as [Hc|Hc]; rewrite Hc;
      cbn [String.eqb Ascii.eqb Bool.eqb]; unfold Clone.copy;
      apply NoFile.keeps_copy;
      [apply (selected_apart "GEMINI")|apply (selected_apart "CLAUDE")];
      first [ by rewrite <- Hc | repeat constructor ]. }
  apply (Respect.respects_bind (no_file_at p)); [keeps_walk|intros _].
  apply (Respect.respects_bind (no_file_at p)); [|intros _].
  { unfold Clone.copy. apply NoFile.keeps_copy, fixed_entry_apart.
    repeat constructor. }
  apply (Respect.respects_bind (no_file_at p)); [|intros _].
  { unfold Clone.copy. apply NoFile.keeps_copy, fixed_entry_apart.
    repeat constructor. }
  apply (Respect.respects_bind (no_file_at p)); [exact Hstep|intros _].
  apply (Respect.respects_bind (no_file_at p)); [|intros _].
  { unfold Clone.copy. apply NoFile.keeps_copy, fixed_entry_apart.
    repeat constructor. }
  apply (Respect.respects_bind (no_file_at p)); [|intros _].
  { unfold Clone.copy. apply NoFile.keeps_copy, fixed_entry_apart.
    repeat constructor. }
  apply (Respect.respects_bind (no_file_at p)); [|intros _].
  { unfold Clone.copy. apply NoFile.keeps_copy, fixed_entry_apart.
    repeat constructor. }
  apply (Respect.respects_bind (no_file_at p)); [|intros _].
  { unfold Clone.configure_prp_template.
    keeps_walk; apply NoFile.keeps_write; by apply generic_apart. }
  apply (Respect.respects_bind (no_file_at p)); [|intros _].
  { unfold Clone.write_language_rules.
    keeps_walk; apply NoFile.keeps_write; exact rules_apart. }
  keeps_walk.
Qed.

Lemma clone_script_keeps : respects (no_file_at p) (Clone.script w).
Proof.
  unfold Clone.script.
  apply (NoFile.respects_bind_val (no_file_at p)).
  - unfold Clone.discover.
    apply (Respect.respects_bind (no_file_at p)); [|intros _].
    { by apply NoFile.keeps_git_clone. }
    apply (Respect.respects_bind (no_file_at p)); [keeps_walk|intros files].
    apply yargs_keeps.
  - intros st a st1 Hs.
    pose proof (CloneSetup.clone_discover_inv w st) as Hi.
    rewrite Hs in Hi. destruct Hi as (tree & n' & l' & m' & _ & _ & Hraw & -> & _ & Hm).
    rewrite given in Hraw. injection Hraw as <- <- <-.
    by apply clone_build_keeps.
Qed.

End OtherBranding.



(** ** What the scripts leave alone *)

Module Frame.
Import Process Extern Spec.

#[global] Instance same_at_preorder (p : path) : PreOrder (same_at p).
Proof.
  split; unfold same_at; [by intros ?|].
  intros a b c Hab Hbc. by rewrite Hbc.
Qed.

Lemma below_apart (d r q : path) : ¬ d `prefix_of` q → ¬ (d ++ r) `prefix_of` q.
Proof. intros H [k ->]. apply H. exists (r ++ k). by rewrite app_assoc. Qed.

Lemma below_ne (d r q : path) : ¬ d `prefix_of` q → d ++ r ≠ q.
Proof. intros H <-. apply H. by eexists. Qed.

Lemma self_ne (d q : path) : ¬ d `prefix_of` q → d ≠ q.
Proof. by intros H <-. Qed.

Lemma above_snoc (d q : path) (c : string) :
  ¬ d `prefix_of` q → ¬ q `prefix_of` d → ¬ q `prefix_of` (d ++ [c]).
Proof.
  intros Hd Hq [k Hk]. induction k as [|x k' _] using rev_ind.
  - rewrite app_nil_r in Hk. subst. apply Hd. by eexists.
  - rewrite app_assoc in Hk. apply app_inj_tail in Hk as [-> _].
    apply Hq. by eexists.
Qed.

Section At.
Variable p : path.

Lemma frame_event (ev : event) : respects (same_at p) (emit ev).
Proof. apply (Respect.respects_emit (same_at p)). by intros st. Qed.

Lemma frame_write (q : path) (content : string) :
  q ≠ p →
  respects (same_at p) (update (λ fs, Fs.writeFileSync fs q content)).
Proof.
  intros Hq. apply (Respect.respects_update (same_at p)).
  intros st fs'. unfold Fs.writeFileSync, same_at. cbn [fs].
  destruct (fs st !! q) as [[c|]|]; try done;
    destruct (Fs.is_dir _ _); try done; intros [= <-];
    by rewrite lookup_insert_ne.
Qed.

Lemma frame_mkdir (q : path) :
  q ≠ p → respects (same_at p) (update (λ fs, Fs.mkdirSync fs q)).
Proof.
  intros Hq. apply (Respect.respects_update (same_at p)).
  intros st fs'. unfold Fs.mkdirSync, same_at. cbn [fs].
  destruct (fs st !! q); [done|]. destruct (Fs.is_dir _ _); [|done].
  intros [= <-]. by rewrite lookup_insert_ne.
Qed.

Lemma frame_mkdir_recursive (q : path) :
  ¬ p `prefix_of` q →
  respects (same_at p) (update (λ fs, Fs.mkdirSync_recursive fs q)).
Proof.
  intros Hq. apply (Respect.respects_update (same_at p)).
  intros st fs'. unfold Fs.mkdirSync_recursive, same_at. cbn [fs].
  assert (fold_left Fs.make_dir (Fs.ancestors q) (fs st) !! p = fs st !! p) as H.
  { rewrite FsLookup.lookup_make_dirs, bool_decide_eq_false_2; [done|].
    by rewrite FsLookup.elem_of_ancestors. }
  destruct (fs st !! q) as [[c|]|]; try done;
    destruct (forallb _ _); try done; by intros [= <-].
Qed.

Lemma frame_remove (q : path) :
  ¬ q `prefix_of` p →
  respects (same_at p) (update (λ fs, Ok (Fs.removeSync fs q))).
Proof.
  intros Hq. apply (Respect.respects_update (same_at p)).
  intros st fs' [= <-]. unfold same_at. cbn [fs].
  by rewrite FsLookup.lookup_removeSync, bool_decide_eq_false_2.
Qed.

Lemma frame_copy (src dst : path) :
  ¬ dst `prefix_of` p →
  respects (same_at p) (update (λ fs, Fs.copySync fs src dst)).
Proof.
  intros Hd. apply (Respect.respects_update (same_at p)).
  intros st fs'. unfold Fs.copySync, same_at. cbn [fs].
  destruct (fs st !! src) as [[c|]|]; [| |done].
  - destruct (fs st !! dst) as [[c'|]|]; try done; intros [= <-];
      rewrite lookup_insert_ne; try done; by intros ->.
  - assert (∀ fs', Ok (Fs.copy_tree (fs st) src dst (fs st)) = Ok fs' →
              fs' !! p = fs st !! p) as Hc.
    { intros ? [= <-].
      by rewrite FsLookup.lookup_copy_tree, bool_decide_eq_false_2. }
    destruct (fs st !! dst) as [[c'|]|]; try done;
      destruct (Path.under src dst); try done; apply Hc.
Qed.

Lemma frame_rename (old new : path) :
  ¬ old `prefix_of` p → ¬ new `prefix_of` p →
  respects (same_at p) (update (λ fs, Fs.renameSync fs old new)).
Proof.
  intros Ho Hn. apply (Respect.respects_update (same_at p)).
  intros st fs'. unfold Fs.renameSync, same_at. cbn [fs].
  assert (∀ into, Fs.removeSync (Fs.copy_tree (fs st) old new into) old !! p
                  = into !! p) as Hmove.
  { intros into. rewrite FsLookup.lookup_removeSync, bool_decide_eq_false_2 by done.
    by rewrite FsLookup.lookup_copy_tree, bool_decide_eq_false_2. }
  assert (Fs.removeSync (fs st) new !! p = fs st !! p) as Hgone.
  { by rewrite FsLookup.lookup_removeSync, bool_decide_eq_false_2. }
  destruct (fs st !! old) as [o|]; [|done].
  case_bool_decide; [by intros [= <-]|].
  destruct (Path.under old new); [done|].
  destruct (negb _); [done|].
  destruct o as [c|], (fs st !! new) as [[c'|]|]; try done;
    try (intros [= <-]; by rewrite Hmove, ?Hgone).
  destruct (Fs.entries (fs st) new); [|done].
  intros [= <-]. by rewrite Hmove.
Qed.

Lemma frame_git_init (w : world) (dir : path) :
  dir ++ [".git"] ≠ p → respects (same_at p) (git_init w dir).
Proof.
  intros Hd. unfold git_init.
  apply (Respect.respects_bind (same_at p)); [apply frame_event|intros _].
  apply (Respect.respects_update (same_at p)).
  intros st fs'. unfold same_at. cbn [fs].
  destruct (negb _); [done|]. destruct (git_init_ok w dir); [|done].
  intros [= <-]. rewrite FsLookup.lookup_make_dir.
  by rewrite bool_decide_eq_false_2.
Qed.

Lemma frame_git_clone (w : world) (dir : path) :
  ¬ dir `prefix_of` p → respects (same_at p) (git_clone w dir).
Proof.
  intros Hd. unfold git_clone.
  apply (Respect.respects_bind (same_at p)); [apply frame_event|intros _].
  apply (Respect.respects_update (same_at p)).
  intros st fs'. unfold same_at. cbn [fs].
  destruct (origin w) as [tree|]; [|done]. destruct (_ || _); [done|].
  intros [= <-].
  change (<[dir:=Dir]> (Fs.copy_tree tree [] dir (fs st)))
    with (cloned tree dir (fs st)).
  by rewrite (Setup.cloned_outside tree dir (fs st) p Hd).
Qed.

Lemma frame_yargs (langs llms : list string) (raw : raw_args) :
  respects (same_at p) (yargs langs llms raw).
Proof.
  intros st. pose proof (Setup.yargs_inv langs llms raw st) as H.
  unfold same_at.
  destruct (yargs langs llms raw st) as [[a|e|c] st']; simpl.
  - by destruct H as [-> _].
  - done.
  - destruct H as (_ & -> & _). done.
Qed.

End At.

End Frame.

(** Breaks a goal [respects (same_at p) m] down to the writes of [m]. *)
Ltac frame_walk :=
  unfold Process.console_log, Process.console_warn, Process.console_error;
  repeat
    lazymatch goal with
    | |- Process.respects _ (Extern.git_init _ _) => fail
    | |- Process.respects _ (Extern.git_clone _ _) => fail
    | |- Process.respects _ (Extern.yargs _ _ _) => apply Frame.frame_yargs
    | |- Process.respects _ (Process.update _) => fail
    | |- _ => first [ apply Frame.frame_event | respects_step ]
    end.

(** Applies the rule of the write at hand, leaving its side condition. *)
Ltac frame_write :=
  lazymatch goal with
  | |- Process.respects _ (Extern.git_init _ _) => apply Frame.frame_git_init
  | |- Process.respects _ (Extern.git_clone _ _) => apply Frame.frame_git_clone
  | |- Process.respects _ (Process.update (λ fs, Fs.copySync fs _ _)) =>
      apply Frame.frame_copy
  | |- Process.respects _ (Process.update (λ fs, Fs.writeFileSync fs _ _)) =>
      apply Frame.frame_write
  | |- Process.respects _ (Process.update (λ fs, Fs.mkdirSync_recursive fs _)) =>
      apply Frame.frame_mkdir_recursive
  | |- Process.respects _ (Process.update (λ fs, Fs.mkdirSync fs _)) =>
      apply Frame.frame_mkdir
  | |- Process.respects _ (Process.update (λ fs, Fs.renameSync fs _ _)) =>
      apply Frame.frame_rename
  | |- Process.respects _ (Process.update (λ fs, Ok (Fs.removeSync fs _))) =>
      apply Frame.frame_remove
  end.

(** Side conditions on paths: joins of ordinary names are appended,
    and what lies below a directory apart from [q] is apart from [q]. *)
Ltac simple_names :=
  cbn [forallb];
  repeat match goal with
         | H : Path.simple _ = true |- _ => rewrite H
         end;
  reflexivity.

Ltac apart :=
  rewrite ?PathFacts.join_simple by simple_names;
  rewrite <- ?app_assoc;
  first
    [ assumption
    | apply Frame.below_apart; assumption
    | apply Frame.below_ne; assumption
    | apply Frame.self_ne; assumption
    | apply Frame.above_snoc; assumption ].

Section Footprint.
Import Process Extern Spec.
Variables (w : world) (nm : string) (q : path).

Let projectDir := cwd w ++ [nm].

Hypothesis named : given_name (argv w) = Some nm.
Hypothesis simple_name : Path.simple nm = true.
Hypothesis not_below : ¬ projectDir `prefix_of` q.

Lemma local_build_frame (l m : string) :
  respects (same_at q) (Local.build w (mkArgs nm l m)).
Proof.
  unfold Local.build, Local.copy. cbn [name lang llm]. cbv zeta.
  rewrite (PathFacts.resolve_simple _ _ simple_name). fold projectDir.
  frame_walk; frame_write; apart.
Qed.

Lemma local_script_frame : respects (same_at q) (Local.script w).
Proof.
  unfold Local.script.
  apply (NoFile.respects_bind_val (same_at q)).
  - unfold Local.discover. frame_walk.
  - intros st a st1 Hs.
    pose proof (LocalSetup.local_discover_inv w st) as Hi.
    rewrite Hs in Hi. destruct Hi as (_ & n' & l' & m' & Hraw & -> & _).
    pose proof named as Hn. rewrite Hraw in Hn. injection Hn as ->.
    apply local_build_frame.
Qed.

Hypothesis not_in_clone : ¬ Clone.tempDir w `prefix_of` q.

Lemma clone_build_frame (l m : string) :
  Path.simple (l +:+ ".md") = true →
  respects (same_at q) (Clone.build w (mkArgs nm l m)).
Proof.
  intros Hl.
  unfold Clone.build, Clone.copy, Clone.configure_prp_template,
    Clone.write_language_rules, Clone.langRulesPath.
  cbn [name lang llm]. cbv zeta.
  rewrite (PathFacts.resolve_simple _ _ simple_name). fold projectDir.
  frame_walk; frame_write; apart.
Qed.

Lemma clone_script_frame :
  (∀ l, given_lang (argv w) = Some l → Path.simple (l +:+ ".md") = true) →
  respects (same_at q) (Clone.script w).
Proof.
  intros Hlang. unfold Clone.script.
  apply (NoFile.respects_bind_val (same_at q)).
  - unfold Clone.discover. frame_walk. frame_write. apart.
  - intros st a st1 Hs.
    pose proof (CloneSetup.clone_discover_inv w st) as Hi.
    rewrite Hs in Hi.
    destruct Hi as (tree & n' & l' & m' & _ & _ & Hraw & -> & _).
    pose proof named as Hn. rewrite Hraw in Hn. injection Hn as ->.
    apply clone_build_frame. apply Hlang. by rewrite Hraw.
Qed.

End Footprint.

(** ** Proper file systems *)

Module Proper.
Import Process Extern Spec.

#[global] Instance stays_proper_preorder : PreOrder stays_proper.
Proof. split; unfold stays_proper; [by intros ?|intros a b c; auto]. Qed.

#[global] Instance kept_preorder (q : path) : PreOrder (kept q).
Proof.
  split; unfold kept; [by intros ?|].
  intros a b c Hab Hbc Ha. destruct (Hab Ha) as [Hb Hq].
  destruct (Hbc Hb) as [Hc Hq']. split; [done|]. by rewrite Hq'.
Qed.

Lemma kept_intro {A} (q : path) (m : Js A) :
  respects stays_proper m → respects (same_at q) m → respects (kept q) m.
Proof. intros Hp Hs st H. split; [by apply Hp|apply Hs]. Qed.

Lemma proper_insert (fs : gmap path node) (k : path) (n : node) :
  forallb Path.simple k = true → proper fs → proper (<[k := n]> fs).
Proof. intros Hk H. by apply map_Forall_insert_2. Qed.

Lemma proper_remove (fs : gmap path node) (p : path) :
  proper fs → proper (Fs.removeSync fs p).
Proof.
  intros H k n Hk. apply map_lookup_filter_Some in Hk as [Hk _].
  by apply (H k n).
Qed.

Lemma proper_drop (k : path) (n : nat) :
  forallb Path.simple k = true → forallb Path.simple (drop n k) = true.
Proof.
  intros H. rewrite <- (take_drop n k), forallb_app in H.
  by apply andb_true_iff in H as [_ H].
Qed.

Lemma proper_take (k : path) (n : nat) :
  forallb Path.simple k = true → forallb Path.simple (take n k) = true.
Proof.
  intros H. rewrite <- (take_drop n k), forallb_app in H.
  by apply andb_true_iff in H as [H _].
Qed.

Lemma proper_copy_tree (from into : gmap path node) (src dst : path) :
  forallb Path.simple dst = true → proper from → proper into →
  proper (Fs.copy_tree from src dst into).
Proof.
  intros Hd Hf Hi. revert Hf. unfold Fs.copy_tree.
  apply (map_fold_weak_ind (λ acc m, proper m → proper acc)); [done|].
  intros k n m acc Hk IH Hm.
  apply map_Forall_insert in Hm as [Hks Hm]; [|done].
  unfold Fs.copy_entry. case_bool_decide; [|by apply IH].
  apply proper_insert; [|by apply IH].
  rewrite forallb_app, Hd. by apply proper_drop.
Qed.

Lemma proper_make_dirs (ds : list path) (fs : gmap path node) :
  (∀ d, d ∈ ds → forallb Path.simple d = true) → proper fs →
  proper (fold_left Fs.make_dir ds fs).
Proof.
  revert fs. induction ds as [|d ds IH]; intros fs Hds Hfs; [done|].
  cbn [fold_left]. apply IH.
  - intros d' Hd'. apply Hds. by apply list_elem_of_further.
  - unfold Fs.make_dir. destruct (fs !! d); [done|].
    apply proper_insert; [|done]. apply Hds, list_elem_of_here.
Qed.

Lemma proper_entry (fs : gmap path node) (dir : path) (c : string) :
  proper fs → c ∈ Fs.entries fs dir → Path.simple c = true.
Proof.
  intros H [n Hn]%FsLookup.elem_of_entries.
  specialize (H _ _ Hn). simpl in H.
  rewrite forallb_app in H. apply andb_true_iff in H as [_ H].
  simpl in H. by rewrite andb_true_r in H.
Qed.

Lemma proper_event (ev : event) : respects stays_proper (emit ev).
Proof.
  apply (Respect.respects_emit stays_proper). intros st.
  unfold stays_proper. done.
Qed.

Lemma proper_write (q : path) (content : string) :
  forallb Path.simple q = true →
  respects stays_proper (update (λ fs, Fs.writeFileSync fs q content)).
Proof.
  intros Hq. apply (Respect.respects_update stays_proper).
  intros st fs'. unfold Fs.writeFileSync, stays_proper. cbn [fs].
  destruct (fs st !! q) as [[c|]|]; try done;
    destruct (Fs.is_dir _ _); try done; intros [= <-];
    by apply proper_insert.
Qed.

Lemma proper_mkdir (q : path) :
  forallb Path.simple q = true →
  respects stays_proper (update (λ fs, Fs.mkdirSync fs q)).
Proof.
  intros Hq. apply (Respect.respects_update stays_proper).
  intros st fs'. unfold Fs.mkdirSync, stays_proper. cbn [fs].
  destruct (fs st !! q); [done|]. destruct (Fs.is_dir _ _); [|done].
  intros [= <-]. by apply proper_insert.
Qed.

Lemma proper_mkdir_recursive (q : path) :
  forallb Path.simple q = true →
  respects stays_proper (update (λ fs, Fs.mkdirSync_recursive fs q)).
Proof.
  intros Hq. apply (Respect.respects_update stays_proper).
  intros st fs'. unfold Fs.mkdirSync_recursive, stays_proper. cbn [fs].
  assert (proper (fs st) →
          proper (fold_left Fs.make_dir (Fs.ancestors q) (fs st))) as H.
  { apply proper_make_dirs. intros d Hd. unfold Fs.ancestors in Hd.
    apply list_elem_of_fmap in Hd as (k & -> & _). by apply proper_take. }
  destruct (fs st !! q) as [[c|]|]; try done;
    destruct (forallb _ (Fs.ancestors q)); try done; by intros [= <-].
Qed.

Lemma proper_rm (q : path) :
  respects stays_proper (update (λ fs, Ok (Fs.removeSync fs q))).
Proof.
  apply (Respect.respects_update stays_proper).
  intros st fs' [= <-]. unfold stays_proper. cbn [fs]. apply proper_remove.
Qed.

Lemma proper_copy (src dst : path) :
  forallb Path.simple dst = true →
  respects stays_proper (update (λ fs, Fs.copySync fs src dst)).
Proof.
  intros Hd. apply (Respect.respects_update stays_proper).
  intros st fs'. unfold Fs.copySync, stays_proper. cbn [fs].
  destruct (fs st !! src) as [[c|]|]; [| |done].
  - destruct (fs st !! dst) as [[c'|]|]; try done; intros [= <-];
      by apply proper_insert.
  - assert (∀ fs', Ok (Fs.copy_tree (fs st) src dst (fs st)) = Ok fs' →
              proper (fs st) → proper fs') as Hc.
    { intros ? [= <-] H. by apply proper_copy_tree. }
    destruct (fs st !! dst) as [[c'|]|]; try done;
      destruct (Path.under src dst); try done; apply Hc.
Qed.

Lemma proper_git_init (w : world) (dir : path) :
  forallb Path.simple dir = true → respects stays_proper (git_init w dir).
Proof.
  intros Hd. unfold git_init.
  apply (Respect.respects_bind stays_proper); [apply proper_event|intros _].
  apply (Respect.respects_update stays_proper).
  intros st fs'. unfold stays_proper. cbn [fs].
  destruct (negb _); [done|]. destruct (git_init_ok w dir); [|done].
  intros [= <-] H. unfold Fs.make_dir. destruct (fs st !! _); [done|].
  apply proper_insert; [|done]. by rewrite forallb_app, Hd.
Qed.

Lemma proper_git_clone (w : world) (dir : path) :
  forallb Path.simple dir = true →
  (∀ tree, origin w = Some tree → proper tree) →
  respects stays_proper (git_clone w dir).
Proof.
  intros Hd Ht. unfold git_clone.
  apply (Respect.respects_bind stays_proper); [apply proper_event|intros _].
  apply (Respect.respects_update stays_proper).
  intros st fs'. unfold stays_proper. cbn [fs].
  destruct (origin w) as [tree|]; [|done]. destruct (_ || _); [done|].
  intros [= <-] H. apply proper_insert; [done|].
  apply proper_copy_tree; [done| |done]. by apply Ht.
Qed.

Lemma proper_yargs (langs llms : list string) (raw : raw_args) :
  respects stays_proper (yargs langs llms raw).
Proof.
  intros st. pose proof (Setup.yargs_inv langs llms raw st) as H.
  unfold stays_proper.
  destruct (yargs langs llms raw st) as [[a|e|c] st']; simpl.
  - by destruct H as [-> _].
  - done.
  - destruct H as (_ & -> & _). done.
Qed.

End Proper.

(** Breaks a goal [respects stays_proper m] down to the writes of [m]. *)
Ltac proper_walk :=
  unfold Process.console_log, Process.console_warn, Process.console_error;
  repeat
    lazymatch goal with
    | |- Process.respects _ (Extern.git_init _ _) => fail
    | |- Process.respects _ (Extern.git_clone _ _) => fail
    | |- Process.respects _ (Extern.yargs _ _ _) => apply Proper.proper_yargs
    | |- Process.respects _ (Process.update (λ fs, Ok (Fs.removeSync fs _))) =>
        apply Proper.proper_rm
    | |- Process.respects _ (Process.update _) => fail
    | |- _ => first [ apply Proper.proper_event | respects_step ]
    end.

Ltac proper_write :=
  lazymatch goal with
  | |- Process.respects _ (Extern.git_init _ _) => apply Proper.proper_git_init
  | |- Process.respects _ (Extern.git_clone _ _) => apply Proper.proper_git_clone
  | |- Process.respects _ (Process.update (λ fs, Fs.copySync fs _ _)) =>
      apply Proper.proper_copy
  | |- Process.respects _ (Process.update (λ fs, Fs.writeFileSync fs _ _)) =>
      apply Proper.proper_write
  | |- Process.respects _ (Process.update (λ fs, Fs.mkdirSync_recursive fs _)) =>
      apply Proper.proper_mkdir_recursive
  | |- Process.respects _ (Process.update (λ fs, Fs.mkdirSync fs _)) =>
      apply Proper.proper_mkdir
  end.

(** A path made of ordinary names. *)
Ltac proper_path :=
  rewrite ?PathFacts.join_simple by simple_names;
  rewrite ?forallb_app;
  repeat match goal with
         | H : forallb Path.simple _ = true |- _ => rewrite H
         end;
  simple_names.

Section RefactoredFootprint.
Import Process Extern Spec.
Variables (w : world) (nm : string) (q : path).

Let projectDir := cwd w ++ [nm].
Let tempDir := Refactored.generateTempDir w.

Hypothesis simple_name : Path.simple nm = true.
Hypothesis proper_cwd : forallb Path.simple (cwd w) = true.
Hypothesis proper_temp : forallb Path.simple tempDir = true.
Hypothesis proper_origin : ∀ tree, origin w = Some tree → proper tree.
Hypothesis not_below : ¬ projectDir `prefix_of` q.
Hypothesis not_above : ¬ q `prefix_of` projectDir.

Lemma proper_project : forallb Path.simple projectDir = true.
Proof.
  unfold projectDir. rewrite forallb_app, proper_cwd. simpl.
  by rewrite simple_name.
Qed.

Lemma refactored_setup_proper :
  respects stays_proper (Refactored.setup_phase w tempDir).
Proof.
  unfold Refactored.setup_phase, Refactored.cloneRepository,
    Refactored.getAvailableLanguages, Refactored.parseArguments.
  proper_walk; proper_write; first [proper_path | exact proper_origin].
Qed.

Lemma refactored_setup_kept :
  ¬ tempDir `prefix_of` q →
  respects (kept q) (Refactored.setup_phase w tempDir).
Proof.
  intros not_in_clone.
  apply Proper.kept_intro; [apply refactored_setup_proper|].
  unfold Refactored.setup_phase, Refactored.cloneRepository,
    Refactored.getAvailableLanguages, Refactored.parseArguments.
  frame_walk; frame_write; apart.
Qed.

Lemma refactored_creation_proper (l m : string) :
  m ∈ SUPPORTED_LLMS →
  respects stays_proper
    (Refactored.creation_phase tempDir projectDir (mkArgs nm l m)).
Proof.
  intros Hm. pose proof proper_project as Hd.
  destruct (supported_cases m Hm) as [-> | ->];
    unfold Refactored.creation_phase, Refactored.createProjectDirectory,
      Refactored.copyCoreDiretories, Refactored.copyRequiredFiles,
      Refactored.copyLLMFile, REQUIRED_FILES;
    cbn [name lang llm]; proper_walk; proper_write; proper_path.
Qed.

Lemma refactored_creation_kept (l m : string) :
  m ∈ SUPPORTED_LLMS →
  respects (kept q) (Refactored.creation_phase tempDir projectDir (mkArgs nm l m)).
Proof.
  intros Hm. apply Proper.kept_intro; [by apply refactored_creation_proper|].
  destruct (supported_cases m Hm) as [-> | ->];
    unfold Refactored.creation_phase, Refactored.createProjectDirectory,
      Refactored.copyCoreDiretories, Refactored.copyRequiredFiles,
      Refactored.copyLLMFile, REQUIRED_FILES;
    cbn [name lang llm]; frame_walk; frame_write; apart.
Qed.

Lemma refactored_configuration_proper (l m : string) :
  m ∈ SUPPORTED_LLMS →
  respects stays_proper
    (Refactored.configuration_phase w tempDir projectDir (mkArgs nm l m)).
Proof.
  intros Hm. pose proof proper_project as Hd.
  destruct (supported_cases m Hm) as [-> | ->];
    unfold Refactored.configuration_phase, Refactored.configurePRPTemplate,
      Refactored.applyLanguageRules, Refactored.initializeProjectStructure;
    cbn [name lang llm]; proper_walk; proper_write; proper_path.
Qed.

Lemma refactored_configuration_kept (l m : string) :
  m ∈ SUPPORTED_LLMS →
  respects (kept q)
    (Refactored.configuration_phase w tempDir projectDir (mkArgs nm l m)).
Proof.
  intros Hm. apply Proper.kept_intro; [by apply refactored_configuration_proper|].
  destruct (supported_cases m Hm) as [-> | ->];
    unfold Refactored.configuration_phase, Refactored.configurePRPTemplate,
      Refactored.applyLanguageRules, Refactored.initializeProjectStructure;
    cbn [name lang llm]; frame_walk; frame_write; apart.
Qed.

(** The entries of a directory of a proper file system have ordinary
    names, so the removal of any of them stays below the directory. *)
Lemma removals_kept (dir : path) (files : list string) :
  (∀ file, file ∈ files → Path.simple file = true) →
  ¬ dir `prefix_of` q →
  respects (kept q)
    (for_each files (λ file,
       when (negb (String.eqb file "prp_template.md")) (
         update (λ fs, Ok (Fs.removeSync fs (Path.join dir [file])))))).
Proof.
  intros Hfiles Hdir. apply Proper.kept_intro.
  - proper_walk.
  - apply (Respect.respects_for_each (same_at q)). intros file Hfile.
    apply (Respect.respects_when (same_at q)). frame_write.
    pose proof (Hfiles file Hfile) as Hs. apart.
Qed.

Lemma refactored_cleanup_kept :
  respects (kept q) (Refactored.cleanupTemplateFiles projectDir).
Proof.
  intros st Hp. unfold Refactored.cleanupTemplateFiles. cbv zeta.
  rewrite Run.bind_eq, Run.query_eq.
  destruct (negb _); [done|].
  rewrite Run.bind_eq. unfold attempt, Fs.readdirSync.
  destruct (fs st !! _) as [[c|]|] eqn:E; [done| |done].
  apply (Respect.respects_bind (kept q)); [|intros _| exact Hp].
  - apply removals_kept.
    + intros file Hfile. by apply (Proper.proper_entry (fs st) _ file Hp Hfile).
    + apart.
  - apply Proper.kept_intro; [proper_walk|frame_walk].
Qed.

Lemma refactored_report_kept (a : args) :
  respects (kept q) (Refactored.report projectDir a).
Proof.
  unfold Refactored.report. apply Proper.kept_intro; [proper_walk|frame_walk].
Qed.

(** What follows the setup phase in the pipeline. *)
Lemma refactored_after_setup_kept (l m : string) :
  m ∈ SUPPORTED_LLMS →
  respects (kept q)
    (Refactored.validateProjectDirectory projectDir;;
     Refactored.creation_phase tempDir projectDir (mkArgs nm l m);;
     Refactored.configuration_phase w tempDir projectDir (mkArgs nm l m);;
     Refactored.cleanupTemplateFiles projectDir;;
     Refactored.report projectDir (mkArgs nm l m)).
Proof.
  intros Hm.
  apply (Respect.respects_bind (kept q)); [|intros _].
  { unfold Refactored.validateProjectDirectory.
    apply Proper.kept_intro; [proper_walk|frame_walk]. }
  apply (Respect.respects_bind (kept q)); [|intros _].
  { by apply refactored_creation_kept. }
  apply (Respect.respects_bind (kept q)); [|intros _].
  { by apply refactored_configuration_kept. }
  apply (Respect.respects_bind (kept q)); [|intros _].
  { apply refactored_cleanup_kept. }
  apply refactored_report_kept.
Qed.

Lemma refactored_main_kept :
  given_name (argv w) = Some nm →
  ¬ tempDir `prefix_of` q →
  respects (kept q) (Refactored.main w).
Proof.
  intros named not_in_clone.
  unfold Refactored.main, try_catch_finally. cbv zeta. fold tempDir.
  apply (Respect.respects_try_finally (kept q)).
  - apply (Respect.respects_try_catch (kept q)).
    2:{ intros e. apply Proper.kept_intro; [proper_walk|frame_walk]. }
    unfold Refactored.pipeline.
    apply (NoFile.respects_bind_val (kept q));
      [by apply refactored_setup_kept|].
    intros st a st1 Hs.
    pose proof (RefactoredSetup.setup_phase_inv w tempDir st) as Hi.
    rewrite Hs in Hi. destruct Hi as (tree & n' & l' & m' & _ & _ & Hraw & -> & _ & Hm).
    rewrite Hraw in named. injection named as ->.
    cbn [name]. rewrite (PathFacts.resolve_simple _ _ simple_name).
    fold projectDir. by apply refactored_after_setup_kept.
  - unfold Refactored.cleanupTempDirectory.
    apply Proper.kept_intro; [proper_walk|].
    frame_walk; frame_write; apart.
Qed.

End RefactoredFootprint.

(** The local script and the first cloning script write only at and
    below the destination [<cwd>/<name>], and the cloning script also
    at and below its temporary clone: whatever else is on the disk,
    the template the local script copies from included, is after the
    run, however it ends, what it was before. *)
Theorem writes_stay_below_destination
    (w : world) (st : state) (nm : string) (q : path) :
  given_name (argv w) = Some nm →
  Path.simple nm = true →
  ¬ (cwd w ++ [nm]) `prefix_of` q →
  fs (Local.main w st).2 !! q = fs st !! q
  ∧ (¬ Clone.tempDir w `prefix_of` q →
     (∀ l, given_lang (argv w) = Some l → Path.simple (l +:+ ".md") = true) →
     fs (Clone.main w st).2 !! q = fs st !! q).
Proof.
  intros Hn Hs Hq. split.
  - apply (Respect.run_respects (Process.same_at q)).
    + by apply (local_script_frame w nm q).
    + intros e. unfold Process.default_uncaught. frame_walk.
  - intros Ht Hl. apply (Respect.run_respects (Process.same_at q)).
    + by apply (clone_script_frame w nm q).
    + intros e. unfold Process.default_uncaught. frame_walk.
Qed.

Lemma writes_stay_below_destination_witness :
  let template := ["opt"; "tpl"; "Rules"; "react.md"] in
  let disk := mkState Scenario.disk_with_template [] in
  fs (Local.main Scenario.request disk).2 !! template = fs disk !! template
  ∧ fs (Clone.main Scenario.request disk).2 !! template = fs disk !! template.
Proof.
  intros template disk.
  destruct (writes_stay_below_destination Scenario.request disk "app" template)
    as [Hlocal Hclone].
  - reflexivity.
  - reflexivity.
  - vm_compute. intros [k Hk]. discriminate.
  - split; [exact Hlocal|]. apply Hclone.
    + vm_compute. intros [k Hk]. discriminate.
    + intros l [= <-]. reflexivity.
Defined.

(** The refactored script writes only at and below the destination,
    at the directories above it that [mkdir] with [recursive] may have
    to make, and at and below its temporary clone.  On a proper disk
    whatever else there is, is after the run, however it ends, what it
    was before. *)
Theorem refactored_writes_stay_below_destination
    (w : world) (st : state) (nm : string) (q : path) :
  given_name (argv w) = Some nm →
  Path.simple nm = true →
  forallb Path.simple (cwd w) = true →
  forallb Path.simple (Refactored.generateTempDir w) = true →
  (∀ tree, origin w = Some tree → Spec.proper tree) →
  Spec.proper (fs st) →
  ¬ (cwd w ++ [nm]) `prefix_of` q →
  ¬ q `prefix_of` (cwd w ++ [nm]) →
  ¬ Refactored.generateTempDir w `prefix_of` q →
  fs (Refactored.start w st).2 !! q = fs st !! q.
Proof.
  intros Hn Hs Hc Ht Ho Hp Hb Ha Hq.
  apply (Respect.run_respects (Spec.kept q)); [| |exact Hp].
  - by apply (refactored_main_kept w nm q).
  - intros e. unfold Refactored.on_uncaught.
    apply Proper.kept_intro; [proper_walk|frame_walk].
Qed.

Lemma refactored_writes_stay_below_destination_witness :
  let other := ["home"; "u"; "notes.txt"] in
  let disk := mkState (<[other := File "keep"]> Scenario.disk) [] in
  fs (Refactored.start Scenario.request disk).2 !! other = Some (File "keep").
Proof.
  intros other disk.
  rewrite (refactored_writes_stay_below_destination Scenario.request disk "app" other).
  - reflexivity.
  - reflexivity.
  - reflexivity.
  - reflexivity.
  - reflexivity.
  - intros tree [= <-]. compute_done.
  - compute_done.
  - vm_compute. intros [k Hk]. discriminate.
  - vm_compute. intros [k Hk]. discriminate.
  - vm_compute. intros [k Hk]. discriminate.
Defined.

(** The refactored script only reads its clone of the template: when
    the pipeline has returned, every entry of the clone is what was
    fetched.  (The first cloning script overwrites a rules document of
    its clone.) *)
Theorem refactored_leaves_clone_intact
    (w : world) (st : state) (nm : string) (tree : gmap path node) (r : path) :
  let tempDir := Refactored.generateTempDir w in
  let run := Refactored.pipeline w tempDir st in
  origin w = Some tree →
  given_name (argv w) = Some nm →
  Path.simple nm = true →
  forallb Path.simple (cwd w) = true →
  forallb Path.simple tempDir = true →
  Spec.proper tree →
  Spec.proper (fs st) →
  Spec.vacant tempDir (fs st) →
  ¬ tempDir `prefix_of` (cwd w ++ [nm]) →
  ¬ (cwd w ++ [nm]) `prefix_of` tempDir →
  r ≠ [] →
  run.1 = Returned () →
  fs run.2 !! (tempDir ++ r) = tree !! r.
Proof.
  intros tempDir run Ho Hn Hs Hc Ht Htree Hp Hv Htd Hdt Hr. unfold run.
  unfold Refactored.pipeline. rewrite Run.bind_eq.
  pose proof (RefactoredSetup.setup_phase_inv w tempDir st) as Hi.
  assert (Spec.stays_proper st (Refactored.setup_phase w tempDir st).2) as Hp0.
  { apply (refactored_setup_proper w); [done|]. intros t Hot.
    rewrite Ho in Hot. by injection Hot as <-. }
  destruct (Refactored.setup_phase w tempDir st) as [[a|e|c] st0]; [|done..].
  destruct Hi as (tree' & n' & l' & m' & Ho' & Hfs & Hraw & -> & _ & Hm).
  rewrite Ho in Ho'. injection Ho' as <-.
  rewrite Hraw in Hn. injection Hn as ->.
  cbv zeta. cbn [name]. rewrite (PathFacts.resolve_simple _ _ Hs).
  intros _.
  assert (¬ (cwd w ++ [nm]) `prefix_of` (tempDir ++ r)) as Hbelow.
  { intros H.
    destruct (prefix_weak_total (cwd w ++ [nm]) tempDir (tempDir ++ r));
      [done|by eexists|done..]. }
  assert (¬ (tempDir ++ r) `prefix_of` (cwd w ++ [nm])) as Habove.
  { intros [k Hk]. apply Htd. exists (r ++ k). by rewrite app_assoc. }
  destruct (refactored_after_setup_kept w nm (tempDir ++ r) Hs Hc Hbelow Habove
              l' (JsString.toUpperCase m') Hm st0 (Hp0 Hp)) as [_ Hq].
  transitivity (fs st0 !! (tempDir ++ r)); [exact Hq|].
  rewrite Hfs. by apply Vacant.lookup_cloned.
Qed.

Lemma refactored_leaves_clone_intact_witness :
  fs (Refactored.pipeline Scenario.request Scenario.temp Scenario.fresh).2
    !! (Scenario.temp ++ ["Rules"; "react.md"]) = Some (File "react rules").
Proof.
  apply (refactored_leaves_clone_intact Scenario.request Scenario.fresh "app"
           Scenario.template ["Rules"; "react.md"]).
  - reflexivity.
  - reflexivity.
  - reflexivity.
  - reflexivity.
  - reflexivity.
  - compute_done.
  - compute_done.
  - compute_done.
  - vm_compute. intros [k Hk]. discriminate.
  - vm_compute. intros [k Hk]. discriminate.
  - discriminate.
  - vm_compute. reflexivity.
Defined.

(** ** Exit codes and the last line printed *)

Module Verdict.
Import Process Extern Spec.

Lemma error_after (st : state) (before : list event) (line : string) :
  console st = before ++ [Stderr line] → ends_in_error st.
Proof. intros H. exists line. rewrite H. apply last_snoc. Qed.

Lemma refactored_setup_exit (w : world) (dir : path) (st st' : state) (c : Z) :
  Refactored.setup_phase w dir st = (Exited c, st') → ends_in_error st'.
Proof.
  unfold Refactored.setup_phase. rewrite Run.bind_eq.
  pose proof (RefactoredSetup.cloneRepository_inv w dir st) as Hc.
  destruct (Refactored.cloneRepository w dir st) as [[[]|e|c'] st1]; [|done..].
  rewrite Run.bind_eq.
  pose proof (RefactoredSetup.getAvailableLanguages_inv dir st1) as Hl.
  destruct (Refactored.getAvailableLanguages dir st1) as [[langs|e|c'] st2];
    [|done..].
  unfold Refactored.parseArguments.
  pose proof (Setup.yargs_inv langs SUPPORTED_LLMS (argv w) st2) as Hy.
  destruct (yargs _ _ _ st2) as [[a|e|c'] st3]; [done..|].
  intros [= -> ->]. destruct Hy as (_ & _ & line & Hline).
  by eapply error_after.
Qed.

Lemma refactored_pipeline_exit (w : world) (dir : path) (st st' : state) (c : Z) :
  Refactored.pipeline w dir st = (Exited c, st') → c = 1 ∧ ends_in_error st'.
Proof.
  intros H. split; [by apply (RefactoredQuiet.pipeline_exit_code w dir st st')|].
  revert H. unfold Refactored.pipeline. rewrite Run.bind_eq.
  destruct (Refactored.setup_phase w dir st) as [[a|e|c'] st0] eqn:Es; [|done|].
  - intros H. exfalso.
    assert (quiet (Refactored.validateProjectDirectory (Path.resolve (cwd w) (name a));;
                   Refactored.creation_phase dir (Path.resolve (cwd w) (name a)) a;;
                   Refactored.configuration_phase w dir (Path.resolve (cwd w) (name a)) a;;
                   Refactored.cleanupTemplateFiles (Path.resolve (cwd w) (name a));;
                   Refactored.report (Path.resolve (cwd w) (name a)) a)) as Hq.
    { apply Quiet.quiet_bind; [apply RefactoredQuiet.validate_quiet|intros _].
      apply Quiet.quiet_bind; [apply RefactoredQuiet.creation_quiet|intros _].
      apply Quiet.quiet_bind; [apply RefactoredQuiet.configuration_quiet|intros _].
      apply Quiet.quiet_bind; [apply RefactoredQuiet.cleanup_quiet|intros _].
      apply RefactoredQuiet.report_quiet. }
    apply (Hq st0 c). by rewrite H.
  - intros [= <- <-]. by apply (refactored_setup_exit w dir st _ c').
Qed.

Lemma refactored_pipeline_report (w : world) (dir : path) (st st' : state) :
  Refactored.pipeline w dir st = (Returned (), st') →
  ∃ nm l m before,
    argv w = mkRaw (Some nm) (Some l) (Some m)
    ∧ console st'
      = before
        ++ [Stdout ("Project '" +:+ nm +:+ "' created successfully!");
            Stdout ("Location: " +:+ Path.show (Path.resolve (cwd w) nm));
            Stdout ("Language: " +:+ l);
            Stdout ("LLM: " +:+ JsString.toUpperCase m)].
Proof.
  intros H. unfold Refactored.pipeline in H. bind_inv H.
  pose proof (RefactoredSetup.setup_phase_inv w dir st) as Hi.
  rewrite Hstep in Hi.
  destruct Hi as (tree & nm & l & m & _ & _ & Hraw & -> & _).
  exists nm, l, m. cbv zeta in H. cbn [name lang llm] in H.
  do 4 bind_inv H. exists (console s3). split; [done|].
  revert H. unfold Refactored.report. cbn [name lang llm].
  rewrite !Run.bind_eq. unfold console_log. rewrite !Run.emit_eq.
  cbn [console fs]. intros [= <-]. cbn [console].
  by rewrite <- !app_assoc.
Qed.

Lemma quiet_local_build (w : world) (a : args) : quiet (Local.build w a).
Proof. unfold Local.build, Local.copy. quiet_walk. Qed.

Lemma clone_build_report (w : world) (a : args) (st st' : state) :
  Clone.build w a st = (Returned (), st') →
  ends_with [Stdout ("Project " +:+ name a +:+ " created successfully!")] st'.
Proof.
  intros H. unfold Clone.build in H. cbv zeta in H.
  do 12 bind_inv H. exists (console s10).
  revert H. unfold console_log. rewrite Run.emit_eq. by intros [= <-].
Qed.

Lemma local_build_report (w : world) (a : args) (st st' : state) :
  Local.build w a st = (Returned (), st') →
  ends_with [Stdout ("Project " +:+ name a +:+ " created successfully!")] st'.
Proof.
  intros H. unfold Local.build in H. cbv zeta in H.
  do 19 bind_inv H. exists (console s17).
  revert H. unfold console_log. rewrite Run.emit_eq. by intros [= <-].
Qed.

Lemma uncaught_error (e : error) (st : state) :
  ends_in_error (default_uncaught e st).2
  ∧ ∀ o st', default_uncaught e st = (o, st') → o = Returned ().
Proof.
  unfold default_uncaught, console_error. rewrite Run.emit_eq. split.
  - by eapply error_after.
  - by intros o st' [= <- _].
Qed.

End Verdict.



(** ** The temporary clone after a successful run *)



(** ** Failures of the discovery *)

Section CloneFails.
Import Process Extern Spec.
Variables (w : world) (st : state).
Hypothesis unreachable : origin w = None.

Lemma git_clone_fails (dir : path) (s : state) :
  git_clone w dir s
  = (Thrown (Error "Command failed: git clone"),
     mkState (fs s)
       (console s ++ [Spawn ("git clone --depth 1 " +:+ REPO_URL +:+ " "
                             +:+ Path.show dir) None])).
Proof.
  unfold git_clone. rewrite Run.bind_eq, Run.emit_eq.
  unfold update. cbn [fs console]. by rewrite unreachable.
Qed.

Lemma refactored_clone_fails :
  ∃ st', Refactored.start w st = (1, st')
         ∧ fs st' = fs st
         ∧ last (console st')
           = Some (Stderr "Error: Failed to clone repository: Command failed: git clone").
Proof.
  set (dir := Refactored.generateTempDir w).
  assert (∃ st1, Refactored.pipeline w dir st
                 = (Thrown (Error "Failed to clone repository: Command failed: git clone"), st1)
                 ∧ fs st1 = fs st) as (st1 & Hp & Hfs).
  { eexists. split.
    - unfold Refactored.pipeline, Refactored.setup_phase.
      apply Run.bind_thrown, Run.bind_thrown.
      unfold Refactored.cloneRepository, try_catch.
      rewrite Run.bind_eq. unfold console_log. rewrite Run.emit_eq.
      rewrite git_clone_fails. reflexivity.
    - done. }
  destruct (RefactoredSetup.start_failed w st st1 _ Hp I) as (st' & Hs & Hf & Hc).
  exists st'. split; [done|]. split; [congruence|].
  rewrite (Hc _ eq_refl). apply last_snoc.
Qed.

Lemma first_clone_fails :
  ∃ st', Clone.main w st = (1, st')
         ∧ fs st' = fs st
         ∧ last (console st') = Some (Stderr "Command failed: git clone").
Proof.
  unfold Clone.main, run, Clone.script, Clone.discover.
  rewrite !Run.bind_eq, git_clone_fails.
  unfold default_uncaught, console_error. rewrite Run.emit_eq.
  eexists. split; [done|]. split; [done|]. cbn [console]. apply last_snoc.
Qed.

End CloneFails.

(** When the template repository cannot be cloned, both cloning scripts
    end with exit code 1, with the file system as it was and the failure
    of the clone as the last line on the error stream; the refactored
    script says that it failed to clone the repository. *)
Theorem clone_failure_is_fatal (w : world) (st : state) :
  origin w = None →
  (∃ st', Refactored.start w st = (1, st')
          ∧ fs st' = fs st
          ∧ last (console st')
            = Some (Stderr "Error: Failed to clone repository: Command failed: git clone"))
  ∧ (∃ st', Clone.main w st = (1, st')
            ∧ fs st' = fs st
            ∧ last (console st') = Some (Stderr "Command failed: git clone")).
Proof.
  intros Ho. split.
  - by apply refactored_clone_fails.
  - by apply first_clone_fails.
Qed.

Lemma clone_failure_is_fatal_witness :
  let offline := Scenario.world_of None true (Scenario.invocation "app" "react" "claude") in
  (∃ st', Refactored.start offline Scenario.fresh = (1, st')
          ∧ fs st' = fs Scenario.fresh
          ∧ last (console st')
            = Some (Stderr "Error: Failed to clone repository: Command failed: git clone"))
  ∧ (∃ st', Clone.main offline Scenario.fresh = (1, st')
            ∧ fs st' = fs Scenario.fresh
            ∧ last (console st') = Some (Stderr "Command failed: git clone")).
Proof.
  intros offline. apply (clone_failure_is_fatal offline Scenario.fresh).
  reflexivity.
Defined.

(** When the discovery cannot return, the run is over with exit code 1
    and the disk is as it was or holds the clone. *)
Module Rejects.
Import Process Extern Spec.

Lemma refactored_never_parsed (w : world) (st : state) :
  (∀ a st0, Refactored.setup_phase w (Refactored.generateTempDir w) st
            ≠ (Returned a, st0)) →
  ∃ st', Refactored.start w st = (1, st')
         ∧ reached w (Refactored.generateTempDir w) st st'.
Proof.
  intros Hnever. set (dir := Refactored.generateTempDir w) in *.
  destruct (Refactored.pipeline w dir st) as [o st1] eqn:Ep.
  assert (match o with
          | Returned _ => False
          | Thrown _ => True
          | Exited code => code = 1
          end ∧ reached w dir st st1) as [Ho Hr].
  { revert Ep. unfold Refactored.pipeline. rewrite Run.bind_eq.
    pose proof (RefactoredSetup.setup_phase_inv w dir st) as Hs.
    destruct (Refactored.setup_phase w dir st) as [[a|e|c] st0].
    - by destruct (Hnever a st0).
    - intros [= <- <-]. done.
    - intros [= <- <-]. done. }
  destruct (RefactoredSetup.start_failed w st st1 o Ep Ho) as (st' & Hst & Hfs & _).
  exists st'. split; [done|]. unfold reached in *. by rewrite Hfs.
Qed.

Lemma clone_never_parsed (w : world) (st : state) :
  (∀ a st0, Clone.discover w st ≠ (Returned a, st0)) →
  ∃ st', Clone.main w st = (1, st') ∧ reached w (Clone.tempDir w) st st'.
Proof.
  intros Hnever.
  destruct (Clone.script w st) as [o st1] eqn:Ep.
  assert (match o with
          | Returned _ => False
          | Thrown _ => True
          | Exited code => code = 1
          end ∧ reached w (Clone.tempDir w) st st1) as [Ho Hr].
  { revert Ep. unfold Clone.script. rewrite Run.bind_eq.
    pose proof (CloneSetup.clone_discover_inv w st) as Hs.
    destruct (Clone.discover w st) as [[a|e|c] st0].
    - by destruct (Hnever a st0).
    - intros [= <- <-]. done.
    - intros [= <- <-]. destruct Hs as (? & ? & _). done. }
  destruct (CloneSetup.clone_main_failed w st st1 o Ep Ho) as (st' & Hst & Hfs).
  exists st'. split; [done|]. unfold reached in *. by rewrite Hfs.
Qed.

Lemma local_never_parsed (w : world) (st : state) :
  (∀ a st0, Local.discover w st ≠ (Returned a, st0)) →
  ∃ st', Local.main w st = (1, st') ∧ fs st' = fs st.
Proof.
  intros Hnever.
  destruct (Local.script w st) as [o st1] eqn:Ep.
  assert (match o with
          | Returned _ => False
          | Thrown _ => True
          | Exited code => code = 1
          end ∧ fs st1 = fs st) as [Ho Hr].
  { revert Ep. unfold Local.script. rewrite Run.bind_eq.
    pose proof (LocalSetup.local_discover_inv w st) as Hs.
    destruct (Local.discover w st) as [[a|e|c] st0].
    - by destruct (Hnever a st0).
    - intros [= <- <-]. by subst.
    - intros [= <- <-]. destruct Hs as (? & ? & _). done. }
  destruct (LocalSetup.local_main_failed w st st1 o Ep Ho) as (st' & Hst & Hfs).
  exists st'. split; [done|]. congruence.
Qed.

End Rejects.



(** ** A template without a Rules directory *)

Section NoRulesDirectory.
Import Process Extern Spec.
Variables (w : world) (st : state) (tree : gmap path node).

Let dir := Refactored.generateTempDir w.

Hypothesis fetched : origin w = Some tree.
Hypothesis no_rules_dir : tree !! ["Rules"] = None.
Hypothesis fresh_temp : vacant dir (fs st).

Lemma cloned_no_rules_dir : cloned tree dir (fs st) !! (dir ++ ["Rules"]) = None.
Proof. by rewrite Vacant.lookup_cloned. Qed.

Lemma refactored_no_rules_dir :
  ∃ st', Refactored.start w st = (1, st')
         ∧ fs st' = cloned tree dir (fs st)
         ∧ last (console st')
           = Some (Stderr "Error: Rules directory not found in the cloned repository").
Proof.
  assert (∃ st1, Refactored.pipeline w dir st
                 = (Thrown (Error "Rules directory not found in the cloned repository"), st1)
                 ∧ fs st1 = cloned tree dir (fs st)) as (st1 & Hp & Hfs).
  { set (st1 := mkState (cloned tree dir (fs st))
                  ((console st ++ [Stdout "Cloning repository..."])
                   ++ [Spawn ("git clone --depth 1 " +:+ REPO_URL +:+ " "
                              +:+ Path.show dir) None])).
    assert (Refactored.cloneRepository w dir st = (Returned (), st1)) as Hc.
    { unfold Refactored.cloneRepository, try_catch.
      rewrite Run.bind_eq. unfold console_log. rewrite Run.emit_eq.
      by rewrite (Vacant.git_clone_vacant w dir _ tree). }
    exists st1. split; [|done].
    unfold Refactored.pipeline, Refactored.setup_phase.
    apply Run.bind_thrown. rewrite (Run.bind_returned _ _ _ _ _ Hc).
    apply Run.bind_thrown.
    unfold Refactored.getAvailableLanguages. cbv zeta.
    rewrite (PathFacts.join_simple dir ["Rules"]) by done.
    rewrite Run.bind_eq, Run.query_eq.
    unfold Fs.existsSync, st1. cbn [fs]. rewrite cloned_no_rules_dir.
    rewrite bool_decide_eq_false_2 by by intros [? ?]. done. }
  destruct (RefactoredSetup.start_failed w st st1 _ Hp I) as (st' & Hs & Hf & Hc).
  exists st'. split; [done|]. split; [congruence|].
  rewrite (Hc _ eq_refl). apply last_snoc.
Qed.

Lemma clone_no_rules_dir :
  ∃ st', Clone.main w st = (1, st')
         ∧ fs st' = cloned tree dir (fs st)
         ∧ ends_in_error st'.
Proof.
  unfold Clone.main, run, Clone.script, Clone.discover.
  change (Clone.tempDir w) with dir.
  rewrite Run.bind_eq.
  erewrite (Run.bind_returned (git_clone w dir));
    [|by apply (Vacant.git_clone_vacant w dir _ tree)].
  set (st1 := mkState _ _).
  rewrite (PathFacts.join_simple dir ["Rules"]) by done.
  rewrite Run.bind_eq. unfold attempt, Fs.readdirSync, st1. cbn [fs].
  rewrite cloned_no_rules_dir.
  unfold default_uncaught, console_error. rewrite Run.emit_eq.
  eexists. split; [done|]. split; [done|].
  by eapply Verdict.error_after.
Qed.

End NoRulesDirectory.

(** When the clone of the template has no Rules directory, both cloning
    scripts stop at the discovery: the exit code is 1, the last thing
    printed is an error on the error stream (in the refactored script,
    that the Rules directory was not found), and nothing outside the
    temporary clone directory has been written. *)
Theorem missing_rules_directory_fails
    (w : world) (st : state) (tree : gmap path node) :
  origin w = Some tree →
  tree !! ["Rules"] = None →
  Spec.vacant (Refactored.generateTempDir w) (fs st) →
  (∃ st', Refactored.start w st = (1, st')
          ∧ last (console st')
            = Some (Stderr "Error: Rules directory not found in the cloned repository")
          ∧ Spec.outside (Refactored.generateTempDir w) (fs st) (fs st'))
  ∧ (∃ st', Clone.main w st = (1, st')
            ∧ Spec.ends_in_error st'
            ∧ Spec.outside (Clone.tempDir w) (fs st) (fs st')).
Proof.
  intros Ho Hr Hv. split.
  - destruct (refactored_no_rules_dir w st tree Ho Hr Hv) as (st' & Hs & Hf & Hc).
    exists st'. split; [done|]. split; [done|]. rewrite Hf.
    apply Setup.cloned_outside.
  - destruct (clone_no_rules_dir w st tree Ho Hr Hv) as (st' & Hs & Hf & Hc).
    exists st'. split; [done|]. split; [done|]. rewrite Hf.
    apply Setup.cloned_outside.
Qed.

Lemma missing_rules_directory_fails_witness :
  let bare : gmap path node :=
    list_to_map [([], Dir); (["README.md"], File "readme")] in
  let w := Scenario.world_of (Some bare) true
             (Scenario.invocation "app" "react" "claude") in
  (∃ st', Refactored.start w Scenario.fresh = (1, st')
          ∧ last (console st')
            = Some (Stderr "Error: Rules directory not found in the cloned repository")
          ∧ Spec.outside (Refactored.generateTempDir w) (fs Scenario.fresh) (fs st'))
  ∧ (∃ st', Clone.main w Scenario.fresh = (1, st')
            ∧ Spec.ends_in_error st'
            ∧ Spec.outside (Clone.tempDir w) (fs Scenario.fresh) (fs st')).
Proof.
  intros bare w.
  apply (missing_rules_directory_fails w Scenario.fresh bare).
  - reflexivity.
  - vm_compute. reflexivity.
  - compute_done.
Defined.

(** ** The cleanup of the templates directory *)

Module Sweep.
Import Process Spec.

Lemma swept_cons (dir : path) (file : string) (files : list string) (q : path) :
  swept dir (file :: files) q
  = (negb (String.eqb file "prp_template.md")
     && bool_decide ((dir ++ [file]) `prefix_of` q))
    || swept dir files q.
Proof. done. Qed.

Lemma sweep_loop (dir : path) (files : list string) (st : state) :
  (∀ file, file ∈ files → Path.simple file = true) →
  ∃ st',
    for_each files (λ file,
      when (negb (String.eqb file "prp_template.md")) (
        update (λ fs, Ok (Fs.removeSync fs (Path.join dir [file]))))) st
    = (Returned (), st')
    ∧ console st' = console st
    ∧ ∀ q, fs st' !! q = if swept dir files q then None else fs st !! q.
Proof.
  revert st. induction files as [|file files IH]; intros st Hs.
  - by exists st.
  - cbn [for_each]. rewrite Run.bind_eq.
    assert (Path.simple file = true) as Hfile by apply Hs, list_elem_of_here.
    rewrite (PathFacts.join_simple dir [file])
      by (cbn [forallb]; by rewrite Hfile).
    assert (∀ x, x ∈ files → Path.simple x = true) as Hrest.
    { intros x Hx. by apply Hs, list_elem_of_further. }
    destruct (String.eqb file "prp_template.md") eqn:E; cbn [negb when].
    + rewrite Run.ret_eq.
      destruct (IH st Hrest) as (st' & Hrun & Hc & Hq).
      exists st'. split; [done|]. split; [done|].
      intros q. rewrite swept_cons, E. cbn [negb andb orb]. apply Hq.
    + unfold update at 1. cbn [fs console].
      destruct (IH (mkState (Fs.removeSync (fs st) (dir ++ [file])) (console st))
                  Hrest) as (st' & Hrun & Hc & Hq).
      exists st'. split; [done|]. split; [done|].
      intros q. rewrite swept_cons, E, Hq. cbn [negb andb orb fs].
      rewrite FsLookup.lookup_removeSync.
      case_bool_decide; cbn [orb]; [by destruct (swept _ _ _)|done].
Qed.

Lemma swept_entry (dir : path) (files : list string) (c : string) (rest : path) :
  c ∈ files → c ≠ "prp_template.md" → swept dir files (dir ++ c :: rest) = true.
Proof.
  intros Hc Hne. unfold swept. apply existsb_exists. exists c.
  split; [by apply list_elem_of_In|].
  apply andb_true_iff. split.
  - apply negb_true_iff. by apply String.eqb_neq.
  - apply bool_decide_eq_true. exists rest. by rewrite <- app_assoc.
Qed.

Lemma swept_inv (dir : path) (files : list string) (q : path) :
  swept dir files q = true →
  ∃ c rest, c ∈ files ∧ c ≠ "prp_template.md" ∧ q = dir ++ c :: rest.
Proof.
  unfold swept. intros (c & Hc & H)%existsb_exists.
  apply andb_true_iff in H as [Hne [rest ->]%bool_decide_eq_true].
  exists c, rest. split; [by apply list_elem_of_In|]. split.
  - apply negb_true_iff in Hne. by apply String.eqb_neq.
  - by rewrite <- app_assoc.
Qed.

End Sweep.

(** [cleanupTemplateFiles] on a templates directory of a proper file
    system returns; of the entries of the directory only
    [prp_template.md] is left, each other entry is gone with all below
    it, and the directory itself, [prp_template.md] and everything
    outside the directory are as they were. *)
Theorem cleanup_keeps_only_prp_template (projectDir : path) (st : state) :
  let templates := projectDir ++ [".context"; "templates"] in
  let run := Refactored.cleanupTemplateFiles projectDir st in
  Spec.proper (fs st) →
  fs st !! templates = Some Dir →
  run.1 = Returned ()
  ∧ (∀ c, c ∈ Fs.entries (fs run.2) templates → c = "prp_template.md")
  ∧ (∀ c rest, c ∈ Fs.entries (fs st) templates → c ≠ "prp_template.md" →
               fs run.2 !! (templates ++ c :: rest) = None)
  ∧ (∀ q, ¬ templates `prefix_of` q ∨ q = templates
          ∨ (templates ++ ["prp_template.md"]) `prefix_of` q →
          fs run.2 !! q = fs st !! q)
  ∧ console run.2 = console st ++ [Stdout "Cleaned up template files"].
Proof.
  intros templates run Hp Hdir. unfold run, Refactored.cleanupTemplateFiles.
  cbv zeta. rewrite (PathFacts.join_simple projectDir) by done.
  fold templates.
  rewrite Run.bind_eq, Run.query_eq.
  rewrite (FsFacts.existsSync_true _ _ _ Hdir). cbn [negb].
  rewrite Run.bind_eq. unfold Process.attempt, Fs.readdirSync. rewrite Hdir.
  rewrite Run.bind_eq.
  destruct (Sweep.sweep_loop templates (Fs.entries (fs st) templates) st)
    as (st' & -> & Hc & Hq).
  { intros file Hfile. by apply (Proper.proper_entry (fs st) templates). }
  unfold Process.console_log. rewrite Run.emit_eq. cbn [fst snd fs console].
  split; [done|]. split; [|split; [|split]].
  - intros c [n Hn]%FsLookup.elem_of_entries. rewrite Hq in Hn.
    destruct (Spec.swept _ _ _) eqn:Es; [done|].
    destruct (decide (c = "prp_template.md")) as [|Hne]; [done|].
    rewrite (Sweep.swept_entry templates _ c []) in Es; [done| |done].
    apply FsLookup.elem_of_entries. by exists n.
  - intros c rest Hin Hne. by rewrite Hq, Sweep.swept_entry.
  - intros q Hcases. rewrite Hq.
    destruct (Spec.swept _ _ _) eqn:Es; [|done]. exfalso.
    apply Sweep.swept_inv in Es as (c & rest & _ & Hne & ->).
    destruct Hcases as [H|[H|[k H]]].
    + apply H. by eexists.
    + apply (f_equal length) in H. rewrite length_app in H. simpl in H. lia.
    + rewrite <- app_assoc in H. apply app_inv_head in H.
      injection H as H _. done.
  - by rewrite Hc.
Qed.

Lemma cleanup_keeps_only_prp_template_witness :
  let templates := Scenario.app ++ [".context"; "templates"] in
  let before :=
    mkState (Fs.copy_tree Scenario.template [] Scenario.app Scenario.disk) [] in
  let run := Refactored.cleanupTemplateFiles Scenario.app before in
  fs before !! (templates ++ ["prp_template_react.md"])
  = Some (File "standards: {{LLM_AGENT}}.md, agent: {{LLM_AGENT}}")
  ∧ fs run.2 !! (templates ++ ["prp_template_react.md"]) = None
  ∧ fs run.2 !! (templates ++ ["prp_template.md"]) = Some (File "generic").
Proof.
  intros templates before run.
  destruct (cleanup_keeps_only_prp_template Scenario.app before)
    as (_ & _ & Hgone & Hkept & _).
  - compute_done.
  - vm_compute. reflexivity.
  - split; [vm_compute; reflexivity|]. split.
    + apply (Hgone "prp_template_react.md" []); [|discriminate].
      apply FsLookup.elem_of_entries. vm_compute. by eexists.
    + etransitivity.
      * apply (Hkept (templates ++ ["prp_template.md"])). right. right. done.
      * vm_compute. reflexivity.
Defined.

(** ** Language names *)

Module Languages.
Import JsString Extern.

Lemma drop_append (s t : string) : drop (String.length s) (s +:+ t) = t.
Proof.
  induction s as [|c s IH]; [done|].
  rewrite StringFacts.append_cons. simpl. apply IH.
Qed.

Lemma endsWith_append (s t : string) : endsWith (s +:+ t) t = true.
Proof.
  unfold endsWith. rewrite StringFacts.length_append.
  apply andb_true_iff. split.
  - apply Nat.leb_le. lia.
  - replace (String.length s + String.length t - String.length t)%nat
      with (String.length s) by lia.
    rewrite drop_append. apply String.eqb_refl.
Qed.

(** The extension can only be found where the stem already holds it,
    or at the end. *)
Lemma startsWith_extension (u : string) :
  startsWith (u +:+ ".md") ".md" = true →
  u = "" ∨ startsWith u ".md" = true.
Proof.
  destruct u as [|a [|b [|c u]]]; [by left|..]; intros H; right;
    rewrite ?StringFacts.append_cons, ?StringFacts.append_nil in H;
    simpl in H |- *;
    repeat (apply andb_true_iff in H as [? H]);
    repeat match goal with
           | E : Ascii.eqb _ _ = true |- _ => apply Ascii.eqb_eq in E; subst
           end;
    try discriminate; done.
Qed.

Lemma replace_extension (stem : string) :
  occurrences ".md" stem = 0%nat →
  replace_first ".md" "" (stem +:+ ".md") = stem.
Proof.
  induction stem as [|c stem IH]; intros Ho; [done|].
  rewrite StringFacts.append_cons.
  rewrite StringFacts.occurrences_cons in Ho.
  destruct (startsWith (String c stem) ".md") eqn:Es; [done|].
  simpl in Ho.
  destruct (startsWith (String c (stem +:+ ".md")) ".md") eqn:Ee.
  - rewrite <- StringFacts.append_cons in Ee.
    apply startsWith_extension in Ee as [?|?]; [done|congruence].
  - cbn [replace_first]. rewrite Ee. f_equal. by apply IH.
Qed.

End Languages.

(** The discovery offers, for a rules document [<stem>.md] whose stem
    does not itself hold [.md], the language [<stem>]; and the name
    under which the scripts then look for the rules of that language,
    [<lang>.md], is the name of that document. *)
Theorem language_names_its_rules_document (files : list string) (stem : string) :
  JsString.occurrences ".md" stem = 0%nat →
  stem +:+ ".md" ∈ files →
  ∃ lang, lang ∈ Extern.languages_of files
          ∧ lang = stem
          ∧ lang +:+ ".md" ∈ files.
Proof.
  intros Ho Hin. exists stem. split; [|done].
  unfold Extern.languages_of. apply list_elem_of_fmap.
  exists (stem +:+ ".md"). split.
  - by rewrite Languages.replace_extension.
  - apply list_elem_of_In, filter_In. split.
    + by apply list_elem_of_In.
    + apply Languages.endsWith_append.
Qed.

Lemma language_names_its_rules_document_witness :
  ∃ lang, lang ∈ Extern.languages_of ["react.md"; "notes.txt"; "dotnet.md"]
          ∧ lang = "dotnet"
          ∧ lang +:+ ".md" ∈ ["react.md"; "notes.txt"; "dotnet.md"].
Proof.
  apply (language_names_its_rules_document
           ["react.md"; "notes.txt"; "dotnet.md"] "dotnet").
  - reflexivity.
  - repeat constructor.
Defined.

(** ** A request that is served *)

Module Wf.
Import Fs.

Lemma wfb_wf (fs : gmap path node) : wfb fs = true → wf fs.
Proof.
  unfold wfb, wf. intros H p c [n Hn].
  rewrite forallb_forall in H.
  specialize (H (p ++ [c])).
  assert (In (p ++ [c]) (map_to_list fs).*1) as Hin.
  { apply list_elem_of_In, list_elem_of_fmap. exists (p ++ [c], n).
    split; [done|]. by apply elem_of_map_to_list. }
  specialize (H Hin). destruct (p ++ [c]) as [|x k] eqn:E.
  - by destruct p.
  - rewrite <- E, removelast_last in H. by apply bool_decide_eq_true in H.
Qed.

(** What exists sits below directories only. *)
Lemma wf_above (fs : gmap path node) (p r : path) :
  wf fs → r ≠ [] → is_Some (fs !! (p ++ r)) → fs !! p = Some Dir.
Proof.
  intros Hwf. induction r as [|c r IH] using rev_ind; [done|].
  intros _ Hs. rewrite app_assoc in Hs. apply Hwf in Hs.
  destruct r as [|x r]; [by rewrite app_nil_r in Hs|].
  apply IH; [done|]. by rewrite Hs.
Qed.

Lemma wf_below_none (fs : gmap path node) (p r : path) :
  wf fs → fs !! p ≠ Some Dir → r ≠ [] → fs !! (p ++ r) = None.
Proof.
  intros Hwf Hp Hr. destruct (fs !! (p ++ r)) as [n|] eqn:E; [|done].
  exfalso. apply Hp. apply (wf_above fs p r); [done..|]. by rewrite E.
Qed.

End Wf.

Module Listing.
Import Extern.

(** The languages offered depend on the names listed, not on their order. *)
Lemma languages_of_same (f1 f2 : list string) (l : string) :
  (∀ c, c ∈ f1 → c ∈ f2) → l ∈ languages_of f1 → l ∈ languages_of f2.
Proof.
  unfold languages_of. intros H (f & -> & Hf)%list_elem_of_fmap.
  apply list_elem_of_In, filter_In in Hf as [Hf He].
  apply list_elem_of_fmap. exists f. split; [done|].
  apply list_elem_of_In, filter_In. split; [|done].
  by apply list_elem_of_In, H, list_elem_of_In.
Qed.

Lemma languages_of_entry (files : list string) (l : string) :
  l ∈ languages_of files → ∃ f, f ∈ files.
Proof.
  unfold languages_of. intros (f & -> & Hf)%list_elem_of_fmap.
  apply list_elem_of_In, filter_In in Hf as [Hf He].
  exists f. by apply list_elem_of_In.
Qed.

End Listing.

Section Served.
Import Process Extern Spec.
Variables (w : world) (st : state) (tree : gmap path node) (nm l m : string).
Hypothesis ok : ready w st tree nm l m.

Let chosen := JsString.toUpperCase m.
Let tempDir := Refactored.generateTempDir w.
Let projectDir := cwd w ++ [nm].

Let staged (copied : list string) (s : state) : Prop :=
  ∀ q, fs s !! q = stage tree tempDir projectDir copied (fs st) q.

Lemma temp_not_below (r : path) : ¬ tempDir `prefix_of` (projectDir ++ r).
Proof.
  intros H.
  destruct (prefix_weak_total tempDir projectDir (projectDir ++ r));
    [done|by eexists| |].
  - by apply (ready_temp_apart _ _ _ _ _ _ ok).
  - by apply (ready_dest_apart _ _ _ _ _ _ ok).
Qed.

Lemma dest_not_below (r : path) : ¬ projectDir `prefix_of` (tempDir ++ r).
Proof.
  intros H.
  destruct (prefix_weak_total projectDir tempDir (tempDir ++ r));
    [done|by eexists| |].
  - by apply (ready_dest_apart _ _ _ _ _ _ ok).
  - by apply (ready_temp_apart _ _ _ _ _ _ ok).
Qed.

Lemma rules_dir : tree !! ["Rules"] = Some Dir.
Proof.
  destruct (Listing.languages_of_entry _ _ (ready_lang _ _ _ _ _ _ ok))
    as [f Hf].
  apply FsLookup.elem_of_entries in Hf.
  by apply (ready_tree_wf _ _ _ _ _ _ ok) in Hf.
Qed.

(** *** The stage *)

Lemma stage_root (copied : list string) :
  stage tree tempDir projectDir copied (fs st) projectDir = Some Dir.
Proof.
  unfold stage. rewrite bool_decide_eq_true_2 by done.
  by rewrite drop_ge.
Qed.

Lemma stage_dest (copied : list string) (c : string) (rest : path) :
  stage tree tempDir projectDir copied (fs st) (projectDir ++ c :: rest)
  = if bool_decide (c ∈ copied) then tree !! (c :: rest) else None.
Proof.
  unfold stage. rewrite bool_decide_eq_true_2 by by eexists.
  by rewrite drop_app_length.
Qed.

Lemma stage_temp (copied : list string) (r : path) :
  r ≠ [] →
  stage tree tempDir projectDir copied (fs st) (tempDir ++ r) = tree !! r.
Proof.
  intros Hr. unfold stage.
  rewrite bool_decide_eq_false_2 by apply dest_not_below.
  rewrite bool_decide_eq_true_2 by by eexists.
  rewrite drop_app_length. by destruct r.
Qed.

Lemma stage_outside (copied : list string) (q : path) :
  ¬ projectDir `prefix_of` q → ¬ tempDir `prefix_of` q →
  stage tree tempDir projectDir copied (fs st) q = fs st !! q.
Proof.
  intros Hd Ht. unfold stage. by rewrite !bool_decide_eq_false_2.
Qed.

Lemma stage_more (copied : list string) (c : string) (q : path) :
  ¬ (projectDir ++ [c]) `prefix_of` q →
  stage tree tempDir projectDir (c :: copied) (fs st) q
  = stage tree tempDir projectDir copied (fs st) q.
Proof.
  intros Hq. unfold stage. case_bool_decide as Hd; [|done].
  destruct Hd as [r ->]. rewrite drop_app_length.
  destruct r as [|c' rest]; [done|].
  assert (c' ≠ c) as Hne.
  { intros ->. apply Hq. exists rest. by rewrite <- app_assoc. }
  destruct (decide (c' ∈ copied)) as [Hin|Hout].
  - rewrite !bool_decide_eq_true_2; [done..|]. by apply list_elem_of_further.
  - rewrite !bool_decide_eq_false_2; [done..|].
    by intros [?|?]%elem_of_cons.
Qed.

(** *** The setup *)

Lemma setup_served :
  ∃ con,
    Refactored.setup_phase w tempDir st
    = (Returned (mkArgs nm l chosen), mkState (cloned tree tempDir (fs st)) con).
Proof.
  pose proof (ready_temp_vacant _ _ _ _ _ _ ok) as Hv. fold tempDir in Hv.
  set (st1 := mkState (cloned tree tempDir (fs st))
                ((console st ++ [Stdout "Cloning repository..."])
                 ++ [Spawn ("git clone --depth 1 " +:+ REPO_URL +:+ " "
                            +:+ Path.show tempDir) None])).
  assert (Refactored.cloneRepository w tempDir st = (Returned (), st1)) as Hc.
  { unfold Refactored.cloneRepository, try_catch.
    rewrite Run.bind_eq. unfold console_log. rewrite Run.emit_eq.
    by rewrite (Vacant.git_clone_vacant w tempDir _ tree
                  (ready_origin _ _ _ _ _ _ ok)). }
  exists (console st1). unfold Refactored.setup_phase.
  rewrite (Run.bind_returned _ _ _ _ _ Hc).
  assert (l ∈ languages_of (Fs.entries (fs st1) (tempDir ++ ["Rules"]))) as Hl.
  { apply (Listing.languages_of_same (Fs.entries tree ["Rules"]));
      [|apply (ready_lang _ _ _ _ _ _ ok)].
    intros c Hc'. by apply (Vacant.entries_cloned tree tempDir (fs st) ["Rules"] c). }
  assert (fs st1 !! (tempDir ++ ["Rules"]) = Some Dir) as Hr.
  { unfold st1. cbn [fs]. rewrite Vacant.lookup_cloned; [|done..].
    apply rules_dir. }
  pose proof (RefactoredSetup.getAvailableLanguages_inv tempDir st1) as Hi.
  rewrite Run.bind_eq.
  destruct (Refactored.getAvailableLanguages tempDir st1) as [[langs|e|c] st2];
    [|exfalso|done].
  - destruct Hi as (-> & _ & -> & _).
    unfold Refactored.parseArguments, yargs.
    rewrite (ready_argv _ _ _ _ _ _ ok).
    cbn [given_name given_lang given_llm fmap option_fmap option_map].
    fold chosen.
    rewrite (bool_decide_eq_true_2 _ Hl).
    rewrite (bool_decide_eq_true_2 _ (ready_llm _ _ _ _ _ _ ok)).
    done.
  - destruct Hi as (_ & Hi). destruct (Hi Hr) as [_ Hnil].
    rewrite Hnil in Hl. by apply elem_of_nil in Hl.
Qed.

(** *** The creation phase *)

Lemma cwd_above (a : path) : a `prefix_of` cwd w → fs st !! a = Some Dir.
Proof.
  intros [r Hr]. destruct r as [|x r].
  - rewrite app_nil_r in Hr. subst. apply (ready_cwd _ _ _ _ _ _ ok).
  - apply (Wf.wf_above (fs st) a (x :: r)); [apply (ready_disk_wf _ _ _ _ _ _ ok)|done|].
    rewrite <- Hr, (ready_cwd _ _ _ _ _ _ ok). by eexists.
Qed.

Lemma above_dest (a : path) :
  a `prefix_of` projectDir → a = projectDir ∨ a `prefix_of` cwd w.
Proof.
  intros [r Hr]. unfold projectDir in Hr.
  destruct r as [|x r _] using rev_ind.
  - left. by rewrite app_nil_r in Hr.
  - right. rewrite app_assoc in Hr. apply app_inj_tail in Hr as [-> _].
    by eexists.
Qed.

Lemma dest_free : fs st !! projectDir = None.
Proof. apply (ready_free _ _ _ _ _ _ ok). Qed.

Lemma below_dest_free (r : path) : fs st !! (projectDir ++ r) = None.
Proof.
  destruct r as [|x r].
  - rewrite app_nil_r. apply (ready_free _ _ _ _ _ _ ok).
  - apply Wf.wf_below_none; [apply (ready_disk_wf _ _ _ _ _ _ ok)| |done].
    pose proof (ready_free _ _ _ _ _ _ ok) as H. fold projectDir in H.
    by rewrite H.
Qed.

Lemma cloned_elsewhere (q : path) :
  ¬ tempDir `prefix_of` q → cloned tree tempDir (fs st) !! q = fs st !! q.
Proof. apply Setup.cloned_outside. Qed.

Lemma created (s : state) :
  fs s = cloned tree tempDir (fs st) →
  ∃ s', Refactored.createProjectDirectory projectDir s = (Returned (), s')
        ∧ staged [] s'.
Proof.
  intros Hs.
  assert (∀ a, a `prefix_of` projectDir → Fs.is_file (fs s) a = false) as Hanc.
  { intros a Ha. unfold Fs.is_file. rewrite Hs, cloned_elsewhere.
    - destruct (above_dest a Ha) as [->|Hc].
      + by rewrite dest_free.
      + by rewrite (cwd_above a Hc).
    - intros Ht. apply (temp_not_below []). rewrite app_nil_r.
      by transitivity a. }
  assert (Fs.mkdirSync_recursive (fs s) projectDir
          = Ok (fold_left Fs.make_dir (Fs.ancestors projectDir) (fs s))) as Hm.
  { unfold Fs.mkdirSync_recursive.
    pose proof (Hanc projectDir (reflexivity _)) as Hd. unfold Fs.is_file in Hd.
    assert (forallb (λ q, negb (Fs.is_file (fs s) q)) (Fs.ancestors projectDir)
            = true) as ->.
    { apply forallb_forall. intros a Ha%list_elem_of_In.
      apply FsLookup.elem_of_ancestors in Ha. by rewrite (Hanc a Ha). }
    by destruct (fs s !! projectDir) as [[c|]|]. }
  eexists. split.
  - unfold Refactored.createProjectDirectory, try_catch.
    rewrite Run.bind_eq, (Run.update_ok _ _ _ Hm).
    unfold console_log. rewrite Run.emit_eq. reflexivity.
  - intros q. cbn [fs]. rewrite FsLookup.lookup_make_dirs, Hs.
    case_bool_decide as Ha.
    + apply FsLookup.elem_of_ancestors in Ha.
      assert (¬ tempDir `prefix_of` q) as Ht.
      { intros Ht. apply (temp_not_below []). rewrite app_nil_r.
        by transitivity q. }
      rewrite cloned_elsewhere by done.
      destruct (above_dest q Ha) as [->|Hc].
      * rewrite stage_root. by rewrite dest_free.
      * rewrite (cwd_above q Hc). simpl.
        rewrite stage_outside, (cwd_above q Hc); [done| |done].
        intros Hd. destruct Hc as [k Hk]. destruct Hd as [k' Hk'].
        unfold projectDir in Hk'.
        apply (f_equal length) in Hk, Hk'.
        rewrite !length_app in Hk. rewrite !length_app in Hk'.
        simpl in Hk'. lia.
    + rewrite FsLookup.elem_of_ancestors in Ha.
      destruct (decide (projectDir `prefix_of` q)) as [[r ->]|Hd].
      * destruct r as [|c rest]; [exfalso; apply Ha; by rewrite app_nil_r|].
        rewrite stage_dest. rewrite bool_decide_eq_false_2 by apply not_elem_of_nil.
        rewrite cloned_elsewhere by apply temp_not_below.
        apply below_dest_free.
      * destruct (decide (tempDir `prefix_of` q)) as [[r ->]|Ht].
        -- destruct r as [|c rest].
           ++ rewrite app_nil_r. unfold cloned. rewrite lookup_insert_eq.
              unfold stage. rewrite bool_decide_eq_false_2.
              ** rewrite bool_decide_eq_true_2 by done. by rewrite drop_ge.
              ** intros H. apply (dest_not_below []). by rewrite app_nil_r.
           ++ rewrite stage_temp by done.
              by rewrite Vacant.lookup_cloned;
                [|apply (ready_temp_vacant _ _ _ _ _ _ ok)|].
        -- rewrite cloned_elsewhere by done. by rewrite stage_outside.
Qed.

(** One entry of the template is copied, or passed over when the
    template does not have it. *)
Lemma copy_step (c line : string) (copied : list string) (s : state) :
  staged copied s → Path.simple c = true → c ∉ copied →
  ∃ s',
    (present ← query (λ fs, Fs.existsSync fs (Path.join tempDir [c]));
     when present (
       update (λ fs, Fs.copySync fs (Path.join tempDir [c])
                                    (Path.join projectDir [c]));;
       console_log line)) s
    = (Returned (), s')
    ∧ staged (c :: copied) s'.
Proof.
  intros Hs Hc Hnew.
  rewrite !PathFacts.join_simple by (cbn [forallb]; by rewrite Hc).
  pose proof (Hs (tempDir ++ [c])) as Hsrc. rewrite stage_temp in Hsrc by done.
  pose proof (Hs (projectDir ++ [c])) as Hdst.
  rewrite stage_dest, bool_decide_eq_false_2 in Hdst by done.
  rewrite Run.bind_eq, Run.query_eq. unfold Fs.existsSync.
  destruct (tree !! [c]) as [n|] eqn:En.
  - rewrite bool_decide_eq_true_2 by (rewrite Hsrc; by eexists).
    cbn [when]. rewrite Run.bind_eq. unfold update at 1, Fs.copySync.
    rewrite Hsrc, Hdst. destruct n as [content|].
    + (* a file *)
      unfold console_log. rewrite Run.emit_eq. eexists. split; [done|].
      intros q. cbn [fs].
      destruct (decide (q = projectDir ++ [c])) as [->|Hne].
      * rewrite lookup_insert_eq, stage_dest.
        by rewrite bool_decide_eq_true_2 by apply list_elem_of_here.
      * rewrite lookup_insert_ne by done. rewrite Hs.
        destruct (decide ((projectDir ++ [c]) `prefix_of` q)) as [[r Hr]|Hq];
          [|by rewrite stage_more].
        destruct r as [|x r]; [by rewrite app_nil_r in Hr|].
        subst q. rewrite <- app_assoc. cbn [app]. rewrite !stage_dest.
        rewrite bool_decide_eq_false_2 by done.
        rewrite bool_decide_eq_true_2 by apply list_elem_of_here.
        symmetry.
        apply (Wf.wf_below_none tree [c] (x :: r));
          [apply (ready_tree_wf _ _ _ _ _ _ ok)|by rewrite En|done].
    + (* a directory *)
      unfold Path.under. rewrite bool_decide_eq_false_2.
      2:{ intros H. apply (temp_not_below [c]).
          transitivity (tempDir ++ [c]); [by eexists|done]. }
      unfold console_log. rewrite Run.emit_eq. eexists. split; [done|].
      intros q. cbn [fs]. rewrite FsLookup.lookup_copy_tree.
      case_bool_decide as Hq.
      * destruct Hq as [r ->]. rewrite drop_app_length.
        rewrite <- !app_assoc. cbn [app]. rewrite !Hs.
        rewrite stage_temp by done. rewrite !stage_dest.
        rewrite bool_decide_eq_false_2 by done.
        rewrite bool_decide_eq_true_2 by apply list_elem_of_here.
        by destruct (tree !! (c :: r)).
      * rewrite Hs. by rewrite stage_more.
  - rewrite bool_decide_eq_false_2 by (rewrite Hsrc; by intros [? ?]).
    cbn [when]. rewrite Run.ret_eq. exists s. split; [done|].
    intros q. rewrite Hs.
    destruct (decide ((projectDir ++ [c]) `prefix_of` q)) as [[r ->]|Hq];
      [|by rewrite stage_more].
    rewrite <- app_assoc. cbn [app]. rewrite !stage_dest.
    rewrite bool_decide_eq_false_2 by done.
    rewrite bool_decide_eq_true_2 by apply list_elem_of_here.
    destruct r as [|x r]; [done|]. symmetry.
    apply (Wf.wf_below_none tree [c] (x :: r));
      [apply (ready_tree_wf _ _ _ _ _ _ ok)|by rewrite En|done].
Qed.

Lemma core_served (copied : list string) (s : state) :
  staged copied s → ".context" ∉ copied → "examples" ∉ copied →
  ∃ s', Refactored.copyCoreDiretories tempDir projectDir s = (Returned (), s')
        ∧ staged ("examples" :: ".context" :: copied) s'.
Proof.
  intros Hs H1 H2. unfold Refactored.copyCoreDiretories.
  cbv zeta. cbn [for_each]. cbv beta zeta.
  destruct (copy_step ".context" ("Copied " +:+ ".context" +:+ " directory")
              copied s Hs eq_refl H1) as (s1 & E1 & I1).
  erewrite Run.bind_returned; [|exact E1].
  destruct (copy_step "examples" ("Copied " +:+ "examples" +:+ " directory")
              _ s1 I1 eq_refl) as (s2 & E2 & I2).
  { intros [?|?]%elem_of_cons; [done|by apply H2]. }
  erewrite Run.bind_returned; [|exact E2].
  rewrite Run.ret_eq. by exists s2.
Qed.

Lemma required_served (copied : list string) (s : state) :
  staged copied s →
  (∀ c, c ∈ REQUIRED_FILES → c ∉ copied) →
  ∃ s', Refactored.copyRequiredFiles tempDir projectDir s = (Returned (), s')
        ∧ staged ("README.md" :: "INITIAL.md" :: "INITIAL_EXAMPLE.md" :: copied) s'.
Proof.
  intros Hs Hnew. unfold Refactored.copyRequiredFiles, REQUIRED_FILES in *.
  cbn [for_each]. cbv beta zeta.
  destruct (copy_step "INITIAL_EXAMPLE.md" ("Copied " +:+ "INITIAL_EXAMPLE.md")
              copied s Hs eq_refl) as (s1 & E1 & I1).
  { apply Hnew. repeat constructor. }
  erewrite Run.bind_returned; [|exact E1].
  destruct (copy_step "INITIAL.md" ("Copied " +:+ "INITIAL.md")
              _ s1 I1 eq_refl) as (s2 & E2 & I2).
  { intros [?|?]%elem_of_cons; [done|]. eapply Hnew; [|done]. repeat constructor. }
  erewrite Run.bind_returned; [|exact E2].
  destruct (copy_step "README.md" ("Copied " +:+ "README.md")
              _ s2 I2 eq_refl) as (s3 & E3 & I3).
  { intros [?|[?|?]%elem_of_cons]%elem_of_cons; [done..|].
    eapply Hnew; [|done]. repeat constructor. }
  erewrite Run.bind_returned; [|exact E3].
  rewrite Run.ret_eq. by exists s3.
Qed.

Lemma chosen_cases : chosen = "GEMINI" ∨ chosen = "CLAUDE".
Proof. apply supported_cases, (ready_llm _ _ _ _ _ _ ok). Qed.

Lemma chosen_simple : Path.simple (chosen +:+ ".md") = true.
Proof. by destruct chosen_cases as [-> | ->]. Qed.

Lemma branding_served (copied : list string) (s : state) :
  staged copied s → chosen +:+ ".md" ∉ copied →
  ∃ s', Refactored.copyLLMFile tempDir projectDir chosen s = (Returned (), s')
        ∧ staged ((chosen +:+ ".md") :: copied) s'.
Proof.
  intros Hs Hnew. unfold Refactored.copyLLMFile. cbv zeta.
  apply (copy_step (chosen +:+ ".md") ("Copied " +:+ (chosen +:+ ".md"))
           copied s Hs chosen_simple Hnew).
Qed.

(** The entries of the template the creation phase copies. *)
Let copied : list string :=
  [chosen +:+ ".md"; "README.md"; "INITIAL.md"; "INITIAL_EXAMPLE.md";
   "examples"; ".context"].

Lemma creation_served (s : state) :
  fs s = cloned tree tempDir (fs st) →
  ∃ s', Refactored.creation_phase tempDir projectDir (mkArgs nm l chosen) s
        = (Returned (), s')
        ∧ staged copied s'.
Proof.
  intros Hs. unfold Refactored.creation_phase. cbn [name lang llm].
  rewrite Run.bind_eq. unfold console_log at 1. rewrite Run.emit_eq.
  destruct (created (mkState (fs s) (console s ++ [Stdout
              ("Creating project '" +:+ nm +:+ "' with " +:+ l
               +:+ " language rules for " +:+ chosen +:+ "...")])) Hs)
    as (s1 & E1 & I1).
  erewrite Run.bind_returned; [|exact E1].
  destruct (core_served [] s1 I1) as (s2 & E2 & I2);
    [apply not_elem_of_nil..|].
  erewrite Run.bind_returned; [|exact E2].
  destruct (required_served _ s2 I2) as (s3 & E3 & I3).
  { unfold REQUIRED_FILES. intros c Hc Hin.
    repeat (apply elem_of_cons in Hc as [->|Hc];
            [repeat (apply elem_of_cons in Hin as [?|Hin]; [done|]);
             by apply elem_of_nil in Hin|]).
    by apply elem_of_nil in Hc. }
  erewrite Run.bind_returned; [|exact E3].
  destruct (branding_served _ s3 I3) as (s4 & E4 & I4).
  { destruct chosen_cases as [-> | ->]; intros Hin;
      repeat (apply elem_of_cons in Hin as [?|Hin]; [done|]);
      by apply elem_of_nil in Hin. }
  exists s4. by split.
Qed.

(** *** The configuration phase *)

Let variant : path :=
  [".context"; "templates"; "prp_template_" +:+ l +:+ ".md"].
Let generic : path := [".context"; "templates"; "prp_template.md"].
Let rules : path := ["Rules"; l +:+ ".md"].
Let target : path := projectDir ++ [chosen +:+ ".md"].
Let srcDir : path := projectDir ++ [nm].
Let templatesDir : path := projectDir ++ [".context"; "templates"].

Lemma prp_served (s : state) :
  fs s !! (projectDir ++ variant) = tree !! variant →
  fs s !! (projectDir ++ generic) ≠ Some Dir →
  (is_Some (tree !! variant) → fs s !! templatesDir = Some Dir) →
  ∃ s', Refactored.configurePRPTemplate projectDir l chosen s = (Returned (), s')
        ∧ fs s' = match tree !! variant with
                  | Some (File content) =>
                      <[projectDir ++ generic :=
                          File (JsString.replace_global PLACEHOLDER chosen content)]>
                        (fs s)
                  | _ => fs s
                  end.
Proof.
  intros Hv Hg Hd. unfold Refactored.configurePRPTemplate. cbv zeta.
  rewrite !PathFacts.join_simple
    by (cbn [forallb]; by rewrite ?(ready_variant_simple _ _ _ _ _ _ ok)).
  fold variant generic.
  rewrite Run.bind_eq, Run.query_eq. unfold Fs.existsSync. rewrite Hv.
  pose proof (ready_variant_file _ _ _ _ _ _ ok) as Hfile. fold variant in Hfile.
  destruct (tree !! variant) as [[content|]|] eqn:Ev; [|done|].
  - rewrite bool_decide_eq_true_2 by by eexists. cbn [when].
    erewrite Run.bind_returned;
      [|apply Run.attempt_ok; unfold Fs.readFileSync; by rewrite Hv].
    erewrite Run.bind_returned.
    2:{ apply Run.update_ok, FsFacts.writeFileSync_ok; [done|].
        replace (projectDir ++ generic) with (templatesDir ++ ["prp_template.md"])
          by (unfold templatesDir, generic; by rewrite <- app_assoc).
        rewrite FsFacts.parent_snoc. apply Hd. by eexists. }
    unfold console_log. rewrite Run.emit_eq. by eexists.
  - rewrite bool_decide_eq_false_2 by by intros [? ?].
    cbn [when]. rewrite Run.ret_eq. by eexists.
Qed.

Lemma rules_served (s : state) :
  fs s !! (tempDir ++ rules) = tree !! rules →
  fs s !! target ≠ Some Dir →
  fs s !! projectDir = Some Dir →
  ∃ s', Refactored.applyLanguageRules tempDir projectDir l chosen s
        = (Returned (), s')
        ∧ fs s' = match tree !! rules with
                  | Some (File content) => <[target := File content]> (fs s)
                  | _ => fs s
                  end.
Proof.
  intros Hr Ht Hd. unfold Refactored.applyLanguageRules. cbv zeta.
  rewrite !PathFacts.join_simple
    by (cbn [forallb];
        by rewrite ?(ready_lang_simple _ _ _ _ _ _ ok), ?chosen_simple).
  fold rules target.
  rewrite Run.bind_eq, Run.query_eq. unfold Fs.existsSync. rewrite Hr.
  pose proof (ready_rules_file _ _ _ _ _ _ ok) as Hfile. fold rules in Hfile.
  destruct (tree !! rules) as [[content|]|] eqn:Ev; [|done|].
  - rewrite bool_decide_eq_true_2 by by eexists. cbn [negb].
    erewrite Run.bind_returned;
      [|apply Run.attempt_ok; unfold Fs.readFileSync; by rewrite Hr].
    erewrite Run.bind_returned.
    2:{ apply Run.update_ok, FsFacts.writeFileSync_ok; [done|].
        unfold target. by rewrite FsFacts.parent_snoc. }
    unfold console_log. rewrite Run.emit_eq. by eexists.
  - rewrite bool_decide_eq_false_2 by by intros [? ?].
    cbn [negb]. unfold console_warn. rewrite Run.emit_eq. by eexists.
Qed.

Lemma init_served (s : state) :
  (∀ a, a `prefix_of` projectDir → fs s !! a = Some Dir) →
  fs s !! srcDir = None →
  fs s !! (srcDir ++ [".git"]) = None →
  ∃ s', Refactored.initializeProjectStructure w projectDir nm s = (Returned (), s')
        ∧ ∀ q, fs s' !! q =
                 if bool_decide (q = srcDir) then Some Dir
                 else if bool_decide (q = srcDir ++ [".git"])
                      then (if git_init_ok w srcDir then Some Dir else None)
                      else fs s !! q.
Proof.
  intros Hanc Hsrc Hgit. unfold Refactored.initializeProjectStructure. cbv zeta.
  rewrite !PathFacts.join_simple
    by (cbn [forallb]; by rewrite (ready_name _ _ _ _ _ _ ok)).
  fold srcDir.
  assert (∀ a, a `prefix_of` srcDir → Fs.is_file (fs s) a = false) as Hfiles.
  { intros a [r Hr]. unfold Fs.is_file, srcDir in *.
    destruct r as [|x r _] using rev_ind.
    - rewrite app_nil_r in Hr. subst a. by rewrite Hsrc.
    - rewrite app_assoc in Hr. apply app_inj_tail in Hr as [Hr _].
      rewrite (Hanc a); [done|]. by exists r. }
  assert (Fs.mkdirSync_recursive (fs s) srcDir
          = Ok (fold_left Fs.make_dir (Fs.ancestors srcDir) (fs s))) as Hm.
  { unfold Fs.mkdirSync_recursive. rewrite Hsrc.
    assert (forallb (λ q, negb (Fs.is_file (fs s) q)) (Fs.ancestors srcDir)
            = true) as ->; [|done].
    apply forallb_forall. intros a Ha%list_elem_of_In.
    apply FsLookup.elem_of_ancestors in Ha. by rewrite (Hfiles a Ha). }
  set (fs1 := fold_left Fs.make_dir (Fs.ancestors srcDir) (fs s)).
  assert (∀ q, fs1 !! q = if bool_decide (q = srcDir) then Some Dir else fs s !! q)
    as Hfs1.
  { intros q. unfold fs1. rewrite FsLookup.lookup_make_dirs.
    case_bool_decide as Ha.
    - apply FsLookup.elem_of_ancestors in Ha. case_bool_decide as Hq.
      + subst q. by rewrite Hsrc.
      + destruct Ha as [r Hr]. unfold srcDir in Hr.
        destruct r as [|x r _] using rev_ind.
        * rewrite app_nil_r in Hr. by subst q.
        * rewrite app_assoc in Hr. apply app_inj_tail in Hr as [Hr _].
          rewrite (Hanc q); [done|]. by exists r.
    - rewrite bool_decide_eq_false_2; [done|].
      intros ->. apply Ha. by apply FsLookup.elem_of_ancestors. }
  erewrite Run.bind_returned; [|by apply Run.update_ok].
  rewrite Run.bind_eq. unfold console_log at 1. rewrite Run.emit_eq.
  unfold try_catch, git_init. rewrite !Run.bind_eq, Run.emit_eq.
  unfold update. cbn [fs console].
  fold fs1.
  assert (Fs.is_dir fs1 srcDir = true) as ->.
  { apply FsFacts.is_dir_true. rewrite Hfs1. by rewrite bool_decide_eq_true_2. }
  cbn [negb].
  assert (srcDir ++ [".git"] ≠ srcDir) as Hne.
  { intros H. apply (f_equal length) in H. rewrite length_app in H.
    simpl in H. lia. }
  destruct (git_init_ok w srcDir).
  - unfold console_log. rewrite Run.emit_eq. eexists. split; [done|].
    intros q. cbn [fs]. rewrite FsLookup.lookup_make_dir, !Hfs1.
    rewrite (bool_decide_eq_false_2 (srcDir ++ [".git"] = srcDir)) by done.
    rewrite Hgit. cbn [default].
    case_bool_decide as H1; case_bool_decide as H2; try done; congruence.
  - unfold console_warn. rewrite Run.emit_eq. eexists. split; [done|].
    intros q. cbn [fs]. rewrite Hfs1.
    case_bool_decide as H1; [done|]. case_bool_decide as H2; [|done].
    by rewrite H2.
Qed.

Lemma sweep_served (s : state) :
  proper (fs s) →
  Fs.is_file (fs s) templatesDir = false →
  ∃ s', Refactored.cleanupTemplateFiles projectDir s = (Returned (), s')
        ∧ ∀ q, fs s' !! q =
                 if Fs.is_dir (fs s) templatesDir
                    && swept templatesDir (Fs.entries (fs s) templatesDir) q
                 then None else fs s !! q.
Proof.
  intros Hp Hf. unfold Refactored.cleanupTemplateFiles. cbv zeta.
  rewrite (PathFacts.join_simple projectDir) by done. fold templatesDir.
  rewrite Run.bind_eq, Run.query_eq.
  unfold Fs.existsSync, Fs.is_dir, Fs.is_file in *.
  destruct (fs s !! templatesDir) as [[c|]|] eqn:Ed; [done| |].
  - rewrite bool_decide_eq_true_2 by by eexists. cbn [negb].
    rewrite Run.bind_eq. unfold attempt, Fs.readdirSync. rewrite Ed.
    rewrite Run.bind_eq.
    destruct (Sweep.sweep_loop templatesDir (Fs.entries (fs s) templatesDir) s)
      as (s' & -> & Hc & Hq).
    { intros file Hfile. by apply (Proper.proper_entry (fs s) templatesDir). }
    unfold console_log. rewrite Run.emit_eq. eexists. split; [done|].
    intros q. cbn [fs]. rewrite Hq.
    by rewrite bool_decide_eq_true_2.
  - rewrite bool_decide_eq_false_2 by by intros [? ?]. cbn [negb].
    rewrite Run.ret_eq. exists s. split; [done|]. intros q.
    by rewrite bool_decide_eq_false_2.
Qed.

(** *** The whole pipeline *)

(** What the configuration phase leaves at [q]. *)
Let configured (q : path) : option node :=
  if bool_decide (q = srcDir) then Some Dir
  else if bool_decide (q = srcDir ++ [".git"])
  then (if git_init_ok w srcDir then Some Dir else None)
  else if bool_decide (q = target)
  then match tree !! rules with
       | Some (File content) => Some (File content)
       | _ => tree !! [chosen +:+ ".md"]
       end
  else if bool_decide (q = projectDir ++ generic)
  then match tree !! variant with
       | Some (File content) =>
           Some (File (JsString.replace_global PLACEHOLDER chosen content))
       | _ => tree !! generic
       end
  else stage tree tempDir projectDir copied (fs st) q.

Lemma name_not_copied : nm ∉ copied.
Proof.
  pose proof (ready_name_free _ _ _ _ _ _ ok) as Hfree. unfold copied.
  destruct chosen_cases as [-> | ->]; intros Hin; apply Hfree;
    repeat (apply elem_of_cons in Hin as [->|Hin]; [set_solver|]);
    by apply elem_of_nil in Hin.
Qed.

Lemma name_not_chosen : nm ≠ chosen +:+ ".md".
Proof.
  intros H. apply name_not_copied. rewrite H. apply list_elem_of_here.
Qed.

Lemma in_copied (c : string) :
  c ∈ [".context"; "examples"; "INITIAL_EXAMPLE.md"; "INITIAL.md"; "README.md"] →
  c ∈ copied.
Proof.
  intros H. unfold copied. apply list_elem_of_further.
  repeat (apply elem_of_cons in H as [->|H]; [repeat constructor|]).
  by apply elem_of_nil in H.
Qed.

Lemma staged_context (s : state) (r : path) :
  staged copied s → fs s !! (projectDir ++ ".context" :: r) = tree !! (".context" :: r).
Proof.
  intros Hs. rewrite Hs, stage_dest, bool_decide_eq_true_2; [done|].
  apply in_copied. repeat constructor.
Qed.

Lemma pipeline_served :
  ∃ s7 s9,
    Refactored.pipeline w tempDir st = (Returned (), s9)
    ∧ (∀ q, fs s7 !! q = configured q)
    ∧ (∀ q, fs s9 !! q =
              if Fs.is_dir (fs s7) templatesDir
                 && swept templatesDir (Fs.entries (fs s7) templatesDir) q
              then None else fs s7 !! q).
Proof.
  pose proof (ready_tree_wf _ _ _ _ _ _ ok) as Hwf.
  destruct setup_served as (con & E0). set (s1 := mkState _ con) in E0.
  assert (proper (fs s1)) as P1.
  { assert (∀ t, origin w = Some t → proper t) as Ho.
    { intros t Ht. rewrite (ready_origin _ _ _ _ _ _ ok) in Ht.
      injection Ht as <-. apply (ready_tree_proper _ _ _ _ _ _ ok). }
    pose proof (refactored_setup_proper w (ready_temp_proper _ _ _ _ _ _ ok) Ho
                  st (ready_disk_proper _ _ _ _ _ _ ok)) as H.
    fold tempDir in H. by rewrite E0 in H. }
  unfold Refactored.pipeline. rewrite (Run.bind_returned _ _ _ _ _ E0).
  cbv zeta. cbn [name].
  rewrite (PathFacts.resolve_simple _ _ (ready_name _ _ _ _ _ _ ok)).
  fold projectDir.
  (* the validation *)
  assert (Refactored.validateProjectDirectory projectDir s1 = (Returned (), s1))
    as Ev.
  { unfold Refactored.validateProjectDirectory.
    rewrite Run.bind_eq, Run.query_eq. unfold Fs.existsSync, s1. cbn [fs].
    rewrite cloned_elsewhere.
    2:{ intros H. apply (temp_not_below []). by rewrite app_nil_r. }
    rewrite dest_free. by rewrite bool_decide_eq_false_2 by by intros [? ?]. }
  rewrite (Run.bind_returned _ _ _ _ _ Ev).
  (* the creation *)
  destruct (creation_served s1 eq_refl) as (s4 & E4 & I4).
  rewrite (Run.bind_returned _ _ _ _ _ E4).
  assert (proper (fs s4)) as P4.
  { pose proof (refactored_creation_proper w nm (ready_name _ _ _ _ _ _ ok)
                  (ready_cwd_proper _ _ _ _ _ _ ok) l chosen
                  (ready_llm _ _ _ _ _ _ ok) s1 P1) as H.
    fold tempDir projectDir in H. by rewrite E4 in H. }
  (* the configuration *)
  destruct (prp_served s4) as (s5 & E5 & F5).
  { by apply staged_context. }
  { unfold generic. rewrite staged_context by done.
    apply (ready_generic_file _ _ _ _ _ _ ok). }
  { intros Hv. unfold templatesDir. rewrite staged_context by done.
    by apply (Hwf [".context"; "templates"]) in Hv. }
  assert (∀ q, q ≠ projectDir ++ generic → fs s5 !! q = fs s4 !! q) as L5.
  { intros q Hq. rewrite F5. destruct (tree !! variant) as [[c|]|]; try done.
    by rewrite lookup_insert_ne. }
  assert (projectDir ++ generic ≠ target) as Hgt.
  { unfold target, generic. intros H%app_inv_head. discriminate. }
  destruct (rules_served s5) as (s6 & E6 & F6).
  { rewrite L5, I4, stage_temp; [done..|].
    intros H. apply (dest_not_below rules). rewrite H. by eexists. }
  { rewrite L5 by done. unfold target. rewrite I4, stage_dest.
    rewrite bool_decide_eq_true_2 by apply list_elem_of_here.
    apply (ready_branding_file _ _ _ _ _ _ ok). }
  { rewrite L5, I4, stage_root; [done|].
    intros H. apply (f_equal length) in H. rewrite length_app in H.
    simpl in H. lia. }
  assert (∀ q, q ≠ target → fs s6 !! q = fs s5 !! q) as L6.
  { intros q Hq. rewrite F6. destruct (tree !! rules) as [[c|]|]; try done.
    by rewrite lookup_insert_ne. }
  assert (∀ r, r ≠ [chosen +:+ ".md"] → r ≠ generic →
               fs s6 !! (projectDir ++ r) = fs s4 !! (projectDir ++ r)) as L64.
  { intros r H1 H2. rewrite L6, L5; [done| |].
    - by intros ?%app_inv_head.
    - unfold target. by intros ?%app_inv_head. }
  destruct (init_served s6) as (s7 & E7 & F7).
  { intros a Ha.
    assert ((length a ≤ length projectDir)%nat) as Hlen by by apply prefix_length.
    rewrite L6, L5, I4.
    - destruct (above_dest a Ha) as [->|Hc]; [apply stage_root|].
      rewrite stage_outside; [by apply cwd_above| |].
      + intros Hd. apply prefix_length in Hd, Hc.
        unfold projectDir in Hd. rewrite length_app in Hd. simpl in Hd. lia.
      + intros Ht. apply (temp_not_below []). rewrite app_nil_r.
        by transitivity a.
    - intros ->. rewrite length_app in Hlen. simpl in Hlen. lia.
    - intros ->. unfold target in Hlen. rewrite length_app in Hlen.
      simpl in Hlen. lia. }
  { unfold srcDir. rewrite L64, I4, stage_dest.
    - by rewrite bool_decide_eq_false_2 by apply name_not_copied.
    - intros [= H]. by apply name_not_chosen.
    - unfold generic. intros [=]. }
  { unfold srcDir. rewrite <- app_assoc. cbn [app].
    rewrite L64, I4, stage_dest; [|done..].
    by rewrite bool_decide_eq_false_2 by apply name_not_copied. }
  assert (Refactored.configuration_phase w tempDir projectDir (mkArgs nm l chosen) s4
          = (Returned (), s7)) as Ec.
  { unfold Refactored.configuration_phase. cbn [name lang llm].
    rewrite (Run.bind_returned _ _ _ _ _ E5).
    by rewrite (Run.bind_returned _ _ _ _ _ E6). }
  rewrite (Run.bind_returned _ _ _ _ _ Ec).
  assert (proper (fs s7)) as P7.
  { pose proof (refactored_configuration_proper w nm (ready_name _ _ _ _ _ _ ok)
                  (ready_cwd_proper _ _ _ _ _ _ ok) l chosen
                  (ready_llm _ _ _ _ _ _ ok) s4 P4) as H.
    fold tempDir projectDir in H. by rewrite Ec in H. }
  assert (∀ q, fs s7 !! q = configured q) as C7.
  { intros q. rewrite F7. unfold configured.
    case_bool_decide; [done|]. case_bool_decide; [done|].
    case_bool_decide as Ht.
    - subst q. rewrite F6. destruct (tree !! rules) as [[c|]|].
      + by rewrite lookup_insert_eq.
      + rewrite L5 by done. unfold target. rewrite I4, stage_dest.
        by rewrite bool_decide_eq_true_2 by apply list_elem_of_here.
      + rewrite L5 by done. unfold target. rewrite I4, stage_dest.
        by rewrite bool_decide_eq_true_2 by apply list_elem_of_here.
    - rewrite L6 by done. case_bool_decide as Hg.
      + subst q. rewrite F5. destruct (tree !! variant) as [[c|]|].
        * by rewrite lookup_insert_eq.
        * unfold generic. by rewrite staged_context.
        * unfold generic. by rewrite staged_context.
      + rewrite L5 by done. apply I4. }
  (* the cleanup *)
  destruct (sweep_served s7 P7) as (s8 & E8 & F8).
  { unfold Fs.is_file. rewrite C7. unfold configured, templatesDir.
    rewrite !bool_decide_eq_false_2.
    - rewrite stage_dest, bool_decide_eq_true_2
        by (apply in_copied; repeat constructor).
      apply (ready_templates_dir _ _ _ _ _ _ ok).
    - unfold generic. intros H%app_inv_head. discriminate.
    - unfold target. intros H%app_inv_head. discriminate.
    - unfold srcDir. rewrite <- app_assoc. intros H%app_inv_head. discriminate.
    - unfold srcDir. intros H%app_inv_head. discriminate. }
  rewrite (Run.bind_returned _ _ _ _ _ E8).
  exists s7. eexists. split; [|split; [exact C7|]].
  - unfold Refactored.report. cbn [name lang llm].
    rewrite !Run.bind_eq. unfold console_log. rewrite !Run.emit_eq.
    reflexivity.
  - intros q. cbn [fs]. apply F8.
Qed.

(** *** The generated project *)

Let final : state := (Refactored.start w st).2.

Lemma start_served :
  ∃ s7,
    (Refactored.start w st).1 = 0
    ∧ (∀ q, fs s7 !! q = configured q)
    ∧ (∀ q, fs final !! q =
              if bool_decide (tempDir `prefix_of` q) then None
              else if Fs.is_dir (fs s7) templatesDir
                      && swept templatesDir (Fs.entries (fs s7) templatesDir) q
                   then None else fs s7 !! q).
Proof.
  destruct pipeline_served as (s7 & s9 & Ep & C7 & F9).
  destruct (TempClone.start_succeeded w st s9 Ep) as (st' & Es & Hfs & _).
  exists s7. unfold final. rewrite Es. cbn [fst snd].
  split; [done|]. split; [done|]. intros q.
  rewrite Hfs, FsLookup.lookup_removeSync. fold tempDir.
  case_bool_decide; [done|]. apply F9.
Qed.

(** Away from the entries of the templates directory that the cleanup
    removes, the project holds what the configuration phase left. *)
Lemma final_lookup (q : path) :
  ¬ tempDir `prefix_of` q →
  (∀ c rest, q = templatesDir ++ c :: rest → c = "prp_template.md") →
  fs final !! q = configured q.
Proof.
  intros Ht Hq. destruct start_served as (s7 & _ & C7 & F).
  rewrite F, bool_decide_eq_false_2 by done.
  destruct (swept _ _ q) eqn:Es; [|by rewrite andb_false_r].
  apply Sweep.swept_inv in Es as (c & rest & _ & Hne & ->).
  by destruct (Hne (Hq c rest eq_refl)).
Qed.

Lemma served_exit : (Refactored.start w st).1 = 0.
Proof. by destruct start_served as (s7 & H & _). Qed.

Lemma served_temp (q : path) : tempDir `prefix_of` q → fs final !! q = None.
Proof.
  intros Hq. destruct start_served as (s7 & _ & _ & F).
  by rewrite F, bool_decide_eq_true_2.
Qed.

Lemma served_target :
  fs final !! target
  = match tree !! rules with
    | Some (File content) => Some (File content)
    | _ => tree !! [chosen +:+ ".md"]
    end.
Proof.
  rewrite final_lookup.
  - unfold configured, target, srcDir.
    rewrite bool_decide_eq_false_2.
    2:{ intros H%app_inv_head. injection H as H. by apply name_not_chosen. }
    rewrite bool_decide_eq_false_2.
    2:{ rewrite <- app_assoc. intros H%app_inv_head. discriminate. }
    by rewrite bool_decide_eq_true_2.
  - apply temp_not_below.
  - unfold target, templatesDir. intros c rest H.
    rewrite <- app_assoc in H. apply app_inv_head in H. discriminate.
Qed.

Lemma served_other (other : string) :
  other ∈ SUPPORTED_LLMS → other ≠ chosen →
  fs final !! (projectDir ++ [other +:+ ".md"]) = None.
Proof.
  intros Ho Hne.
  assert (((other +:+ ".md") ∉ copied) ∧ ((other +:+ ".md") ≠ nm)
          ∧ ((other +:+ ".md") ≠ (chosen +:+ ".md"))) as (Hc & Hn & Hch).
  { pose proof (ready_name_free _ _ _ _ _ _ ok) as Hfree.
    unfold copied.
    destruct (supported_cases other Ho) as [-> | ->];
      destruct chosen_cases as [Hch | Hch]; try congruence; rewrite Hch;
      (split; [|split; [|done]]);
      [ intros Hin; repeat (apply elem_of_cons in Hin as [?|Hin]; [done|]);
        by apply elem_of_nil in Hin
      | intros <-; apply Hfree; repeat constructor
      | intros Hin; repeat (apply elem_of_cons in Hin as [?|Hin]; [done|]);
        by apply elem_of_nil in Hin
      | intros <-; apply Hfree; repeat constructor ]. }
  rewrite final_lookup.
  - unfold configured, target, srcDir.
    rewrite bool_decide_eq_false_2.
    2:{ intros H%app_inv_head. by injection H. }
    rewrite bool_decide_eq_false_2.
    2:{ rewrite <- app_assoc. intros H%app_inv_head. discriminate. }
    rewrite bool_decide_eq_false_2.
    2:{ intros H%app_inv_head. by injection H. }
    rewrite bool_decide_eq_false_2.
    2:{ intros H%app_inv_head. discriminate. }
    by rewrite stage_dest, bool_decide_eq_false_2.
  - apply temp_not_below.
  - unfold templatesDir. intros c rest H.
    rewrite <- app_assoc in H. apply app_inv_head in H. discriminate.
Qed.

Lemma served_generic :
  fs final !! (projectDir ++ generic)
  = match tree !! variant with
    | Some (File content) =>
        Some (File (JsString.replace_global PLACEHOLDER chosen content))
    | _ => tree !! generic
    end.
Proof.
  rewrite final_lookup.
  - unfold configured, target, srcDir.
    rewrite bool_decide_eq_false_2.
    2:{ intros H%app_inv_head. discriminate. }
    rewrite bool_decide_eq_false_2.
    2:{ rewrite <- app_assoc. intros H%app_inv_head. discriminate. }
    rewrite bool_decide_eq_false_2.
    2:{ intros H%app_inv_head. discriminate. }
    by rewrite bool_decide_eq_true_2.
  - apply temp_not_below.
  - unfold templatesDir, generic. intros c rest H.
    rewrite <- app_assoc in H. apply app_inv_head in H. by injection H as <-.
Qed.

Lemma configured_context (r : path) :
  length r ≠ 0%nat → ".context" :: r ≠ generic →
  configured (projectDir ++ ".context" :: r) = tree !! (".context" :: r).
Proof.
  intros Hr Hg. unfold configured, target, srcDir.
  rewrite bool_decide_eq_false_2.
  2:{ intros H%app_inv_head. injection H as _ ->. done. }
  rewrite bool_decide_eq_false_2.
  2:{ rewrite <- app_assoc. intros H%app_inv_head. injection H as H _.
      apply name_not_copied. rewrite <- H. apply in_copied. repeat constructor. }
  rewrite bool_decide_eq_false_2.
  2:{ intros H%app_inv_head. injection H as _ ->. done. }
  rewrite bool_decide_eq_false_2.
  2:{ by intros H%app_inv_head. }
  rewrite stage_dest, bool_decide_eq_true_2; [done|].
  apply in_copied. repeat constructor.
Qed.

Lemma served_templates (c : string) (rest : path) :
  c ≠ "prp_template.md" →
  fs final !! (templatesDir ++ c :: rest) = None.
Proof.
  intros Hc. destruct start_served as (s7 & _ & C7 & F).
  pose proof (ready_tree_wf _ _ _ _ _ _ ok) as Hwf.
  assert (∀ r, fs s7 !! (templatesDir ++ c :: r)
               = tree !! (".context" :: "templates" :: c :: r)) as Hlook.
  { intros r. rewrite C7. unfold templatesDir. rewrite <- app_assoc. cbn [app].
    rewrite configured_context; [done|done|].
    unfold generic. intros [= -> _]. done. }
  rewrite F. case_bool_decide; [done|].
  destruct (_ && _) eqn:Ec; [done|]. rewrite Hlook.
  destruct (tree !! (".context" :: "templates" :: c :: rest)) as [n|] eqn:En;
    [|done].
  exfalso.
  assert (is_Some (tree !! [".context"; "templates"; c])) as Hchild.
  { destruct rest as [|x rest]; [by eexists|].
    rewrite (Wf.wf_above tree [".context"; "templates"; c] (x :: rest));
      [by eexists|done|done|]. cbn [app]. by rewrite En. }
  apply andb_false_iff in Ec as [Ed|Es].
  - apply (Hwf [".context"; "templates"]) in Hchild.
    unfold Fs.is_dir in Ed. rewrite C7 in Ed.
    unfold templatesDir in Ed.
    rewrite (configured_context ["templates"]) in Ed; [|done|done].
    by rewrite bool_decide_eq_true_2 in Ed.
  - rewrite (Sweep.swept_entry templatesDir _ c rest) in Es; [done| |done].
    apply FsLookup.elem_of_entries. by rewrite (Hlook []).
Qed.

Lemma served_source :
  fs final !! srcDir = Some Dir
  ∧ fs final !! (srcDir ++ [".git"])
    = if git_init_ok w srcDir then Some Dir else None.
Proof.
  split.
  - rewrite final_lookup.
    + unfold configured. by rewrite bool_decide_eq_true_2.
    + apply temp_not_below.
    + unfold srcDir, templatesDir. intros c rest H.
      rewrite <- app_assoc in H. apply app_inv_head in H. discriminate.
  - rewrite final_lookup.
    + unfold configured. rewrite bool_decide_eq_false_2.
      * by rewrite bool_decide_eq_true_2.
      * intros H. apply (f_equal length) in H. rewrite length_app in H.
        simpl in H. lia.
    + unfold srcDir. rewrite <- app_assoc. apply temp_not_below.
    + unfold srcDir, templatesDir. intros c rest H.
      rewrite <- !app_assoc in H. apply app_inv_head in H.
      exfalso. injection H as Hnm Htl. discriminate Htl.
Qed.

Lemma served_copies (c : string) (rest : path) :
  c ∈ ["examples"; "INITIAL_EXAMPLE.md"; "INITIAL.md"; "README.md"] →
  fs final !! (projectDir ++ c :: rest) = tree !! (c :: rest).
Proof.
  intros Hc.
  assert (c ∈ copied ∧ c ≠ nm ∧ c ≠ chosen +:+ ".md" ∧ c ≠ ".context")
    as (Hin & Hn & Hch & Hctx).
  { split; [|split; [|split]].
    - apply in_copied. by apply list_elem_of_further.
    - intros ->. apply name_not_copied, in_copied.
      by apply list_elem_of_further.
    - destruct chosen_cases as [-> | ->]; intros ->;
        repeat (apply elem_of_cons in Hc as [?|Hc]; [done|]);
        by apply elem_of_nil in Hc.
    - intros ->. repeat (apply elem_of_cons in Hc as [?|Hc]; [done|]).
      by apply elem_of_nil in Hc. }
  rewrite final_lookup.
  - unfold configured, target, srcDir.
    rewrite bool_decide_eq_false_2.
    2:{ intros H%app_inv_head. by injection H. }
    rewrite bool_decide_eq_false_2.
    2:{ rewrite <- app_assoc. intros H%app_inv_head. by injection H. }
    rewrite bool_decide_eq_false_2.
    2:{ intros H%app_inv_head. by injection H. }
    rewrite bool_decide_eq_false_2.
    2:{ unfold generic. intros H%app_inv_head. by injection H. }
    by rewrite stage_dest, bool_decide_eq_true_2.
  - apply temp_not_below.
  - unfold templatesDir. intros c' rest' H.
    rewrite <- app_assoc in H. apply app_inv_head in H. by injection H.
Qed.

Lemma served_outside (q : path) :
  ¬ projectDir `prefix_of` q → ¬ tempDir `prefix_of` q →
  fs final !! q = fs st !! q.
Proof.
  intros Hd Ht. rewrite final_lookup; [|done|].
  - unfold configured, target, srcDir.
    rewrite !bool_decide_eq_false_2.
    + by apply stage_outside.
    + intros ->. apply Hd. by eexists.
    + intros ->. apply Hd. by eexists.
    + intros ->. apply Hd. rewrite <- app_assoc. by eexists.
    + intros ->. apply Hd. by eexists.
  - unfold templatesDir. intros c rest ->. exfalso. apply Hd.
    rewrite <- app_assoc. by eexists.
Qed.

Lemma served_root : fs final !! projectDir = Some Dir.
Proof.
  rewrite final_lookup.
  - unfold configured, target, srcDir.
    rewrite !bool_decide_eq_false_2; [apply stage_root|..];
      intros H; apply (f_equal length) in H; rewrite !length_app in H;
      simpl in H; lia.
  - intros H. apply (temp_not_below []). by rewrite app_nil_r.
  - unfold templatesDir. intros c rest H.
    apply (f_equal length) in H. rewrite !length_app in H. simpl in H. lia.
Qed.

End Served.

(** The request of the scenarios is one the refactored script can
    serve. *)
Lemma request_ready :
  Spec.ready Scenario.request Scenario.fresh Scenario.template
    "app" "react" "claude".
Proof.
  split.
  - reflexivity.
  - reflexivity.
  - vm_compute. repeat constructor.
  - vm_compute. repeat constructor.
  - reflexivity.
  - compute_done.
  - reflexivity.
  - reflexivity.
  - apply Wf.wfb_wf. vm_compute. reflexivity.
  - compute_done.
  - vm_compute. discriminate.
  - vm_compute. discriminate.
  - vm_compute. discriminate.
  - vm_compute. discriminate.
  - vm_compute. reflexivity.
  - apply Wf.wfb_wf. vm_compute. reflexivity.
  - compute_done.
  - vm_compute. reflexivity.
  - reflexivity.
  - vm_compute. reflexivity.
  - reflexivity.
  - compute_done.
  - vm_compute. intros [k Hk]. discriminate.
  - vm_compute. intros [k Hk]. discriminate.
Defined.

(** A request that can be served is served: the refactored script ends
    with exit code 0; the destination and, in it, the source directory
    named after the project are directories; the source directory
    holds a git repository when [git init] succeeded; the temporary
    clone is gone; and the rest of the disk is as it was. *)
Theorem valid_request_succeeds
    (w : world) (st : state) (tree : gmap path node) (nm l m : string) :
  Spec.ready w st tree nm l m →
  let run := Refactored.start w st in
  let projectDir := cwd w ++ [nm] in
  run.1 = 0
  ∧ fs run.2 !! projectDir = Some Dir
  ∧ fs run.2 !! (projectDir ++ [nm]) = Some Dir
  ∧ fs run.2 !! ((projectDir ++ [nm]) ++ [".git"])
    = (if git_init_ok w (projectDir ++ [nm]) then Some Dir else None)
  ∧ (∀ q, Refactored.generateTempDir w `prefix_of` q → fs run.2 !! q = None)
  ∧ (∀ q, ¬ projectDir `prefix_of` q →
          ¬ Refactored.generateTempDir w `prefix_of` q →
          fs run.2 !! q = fs st !! q).
Proof.
  intros ok run projectDir.
  split; [by apply (served_exit w st tree nm l m)|].
  split; [by apply (served_root w st tree nm l m)|].
  destruct (served_source w st tree nm l m ok) as [Hsrc Hgit].
  split; [done|]. split; [done|]. split.
  - intros q. by apply (served_temp w st tree nm l m).
  - intros q. by apply (served_outside w st tree nm l m).
Qed.

Lemma valid_request_succeeds_witness :
  let run := Refactored.start Scenario.request Scenario.fresh in
  run.1 = 0
  ∧ fs run.2 !! (Scenario.app ++ ["app"]) = Some Dir
  ∧ fs run.2 !! (Scenario.app ++ ["app"; ".git"]) = Some Dir.
Proof.
  intros run.
  destruct (valid_request_succeeds Scenario.request Scenario.fresh
              Scenario.template "app" "react" "claude" request_ready)
    as (H0 & _ & H1 & H2 & _).
  split; [exact H0|]. split; [exact H1|exact H2].
Defined.

(** In the project of a served request the branding file of the
    selected LLM holds the rules of the selected language, or, when the
    template has no rules document of that name, what the template has
    under the name of the branding file; the branding file of the
    other LLM is not there. *)
Theorem one_branding_file_with_rules
    (w : world) (st : state) (tree : gmap path node) (nm l m other : string) :
  Spec.ready w st tree nm l m →
  other ∈ SUPPORTED_LLMS →
  other ≠ JsString.toUpperCase m →
  let final := (Refactored.start w st).2 in
  let projectDir := cwd w ++ [nm] in
  fs final !! (projectDir ++ [JsString.toUpperCase m +:+ ".md"])
  = match tree !! ["Rules"; l +:+ ".md"] with
    | Some (File content) => Some (File content)
    | _ => tree !! [JsString.toUpperCase m +:+ ".md"]
    end
  ∧ fs final !! (projectDir ++ [other +:+ ".md"]) = None.
Proof.
  intros ok Ho Hne final projectDir. split.
  - by apply (served_target w st tree nm l m).
  - by apply (served_other w st tree nm l m).
Qed.

Lemma one_branding_file_with_rules_witness :
  let final := (Refactored.start Scenario.request Scenario.fresh).2 in
  fs final !! (Scenario.app ++ ["CLAUDE.md"]) = Some (File "react rules")
  ∧ fs final !! (Scenario.app ++ ["GEMINI.md"]) = None.
Proof.
  apply (one_branding_file_with_rules Scenario.request Scenario.fresh
           Scenario.template "app" "react" "claude" "GEMINI" request_ready).
  - repeat constructor.
  - discriminate.
Defined.

(** In the project of a served request the PRP template holds the
    variant of the selected language with every placeholder replaced by
    the selected LLM; when the template has no variant for the
    language, the step is passed over, the run succeeds all the same
    and the PRP template is the one of the template, or absent as it is
    there. *)
Theorem prp_template_configured_or_kept
    (w : world) (st : state) (tree : gmap path node) (nm l m : string) :
  Spec.ready w st tree nm l m →
  let run := Refactored.start w st in
  let generic := [".context"; "templates"; "prp_template.md"] in
  let variant := [".context"; "templates"; "prp_template_" +:+ l +:+ ".md"] in
  run.1 = 0
  ∧ (∀ content, tree !! variant = Some (File content) →
       fs run.2 !! ((cwd w ++ [nm]) ++ generic)
       = Some (File (JsString.replace_global PLACEHOLDER
                       (JsString.toUpperCase m) content)))
  ∧ (tree !! variant = None →
       fs run.2 !! ((cwd w ++ [nm]) ++ generic) = tree !! generic).
Proof.
  intros ok run generic variant.
  pose proof (served_generic w st tree nm l m ok) as H.
  fold variant generic in H.
  split; [by apply (served_exit w st tree nm l m)|]. split.
  - intros content Hv. unfold run. by rewrite H, Hv.
  - intros Hv. unfold run. by rewrite H, Hv.
Qed.

Lemma prp_template_configured_or_kept_witness :
  let served := Refactored.start Scenario.request Scenario.fresh in
  served.1 = 0
  ∧ fs served.2 !! (Scenario.app ++ [".context"; "templates"; "prp_template.md"])
    = Some (File "standards: CLAUDE.md, agent: CLAUDE").
Proof.
  intros served.
  destruct (prp_template_configured_or_kept Scenario.request Scenario.fresh
              Scenario.template "app" "react" "claude" request_ready)
    as (H0 & Hv & _).
  split; [exact H0|].
  apply (Hv "standards: {{LLM_AGENT}}.md, agent: {{LLM_AGENT}}").
  vm_compute. reflexivity.
Defined.

(** In the project of a served request the templates directory holds
    nothing but the PRP template: every other entry, the variants of
    all the languages among them, is gone with all below it by the time
    the script reports success. *)
Theorem template_variants_removed
    (w : world) (st : state) (tree : gmap path node) (nm l m c : string)
    (rest : path) :
  Spec.ready w st tree nm l m →
  c ≠ "prp_template.md" →
  let run := Refactored.start w st in
  run.1 = 0
  ∧ fs run.2 !! (((cwd w ++ [nm]) ++ [".context"; "templates"]) ++ c :: rest)
    = None.
Proof.
  intros ok Hc run. split.
  - by apply (served_exit w st tree nm l m).
  - by apply (served_templates w st tree nm l m).
Qed.

Lemma template_variants_removed_witness :
  let run := Refactored.start Scenario.request Scenario.fresh in
  run.1 = 0
  ∧ fs run.2
      !! ((Scenario.app ++ [".context"; "templates"]) ++ ["prp_template_react.md"])
    = None.
Proof.
  apply (template_variants_removed Scenario.request Scenario.fresh
           Scenario.template "app" "react" "claude" "prp_template_react.md" []
           request_ready).
  discriminate.
Defined.

(** In the project of a served request the examples directory and the
    three documents of the root are what the template has under these
    names, entry by entry. *)
Theorem copied_assets_match_template
    (w : world) (st : state) (tree : gmap path node) (nm l m c : string)
    (rest : path) :
  Spec.ready w st tree nm l m →
  c ∈ ["examples"; "INITIAL_EXAMPLE.md"; "INITIAL.md"; "README.md"] →
  fs (Refactored.start w st).2 !! ((cwd w ++ [nm]) ++ c :: rest)
  = tree !! (c :: rest).
Proof. intros ok Hc. by apply (served_copies w st tree nm l m). Qed.

Lemma copied_assets_match_template_witness :
  fs (Refactored.start Scenario.request Scenario.fresh).2
    !! (Scenario.app ++ ["README.md"])
  = Some (File "readme").
Proof.
  apply (copied_assets_match_template Scenario.request Scenario.fresh
           Scenario.template "app" "react" "claude" "README.md" [] request_ready).
  repeat constructor.
Defined.

(** ** The language rules in the first cloning script *)

(** Whenever the first cloning script finds the rules document of the
    language in its clone, its fifth step overwrites that document with
    the path of the branding file of the destination, printed as a
    string; the rules it has read are dropped and nothing else, the
    branding file included, is written. *)
Theorem first_script_overwrites_rules_document
    (templateDir projectDir : path) (language llm content : string)
    (st : state) :
  let rules := Path.join templateDir ["Rules"; language +:+ ".md"] in
  let run :=
    Clone.write_language_rules templateDir projectDir language llm st in
  llm ∈ SUPPORTED_LLMS →
  fs st !! rules = Some (File content) →
  fs st !! Fs.parent rules = Some Dir →
  run.1 = Returned ()
  ∧ fs run.2 = <[rules := File (Path.show (projectDir ++ [llm +:+ ".md"]))]> (fs st).
Proof.
  intros rules run Hllm Hrules Hparent.
  destruct (clone_overwrites_rules templateDir projectDir language llm content
              st Hrules Hllm Hparent) as (st' & E & Hfs).
  unfold run. by rewrite E.
Qed.

Lemma first_script_overwrites_rules_document_witness :
  let rules := Scenario.temp ++ ["Rules"; "react.md"] in
  let run :=
    Clone.write_language_rules Scenario.temp Scenario.app "react" "CLAUDE"
      Scenario.staged in
  run.1 = Returned ()
  ∧ fs run.2 = <[rules := File "/home/u/app/CLAUDE.md"]> (fs Scenario.staged).
Proof.
  apply (first_script_overwrites_rules_document Scenario.temp Scenario.app
           "react" "CLAUDE" "react rules" Scenario.staged).
  - repeat constructor.
  - vm_compute. reflexivity.
  - vm_compute. reflexivity.
Defined.

(** ** The temporary clone after a failure *)

Section FailureAfterClone.
Import Process Extern Spec.
Variables (w : world) (st : state) (tree : gmap path node) (nm : string).

Let tempDir := Refactored.generateTempDir w.
Let projectDir := cwd w ++ [nm].

Hypothesis fetched : origin w = Some tree.
Hypothesis named : given_name (argv w) = Some nm.
Hypothesis simple_name : Path.simple nm = true.
Hypothesis proper_cwd : forallb Path.simple (cwd w) = true.
Hypothesis proper_temp : forallb Path.simple tempDir = true.
Hypothesis proper_tree : proper tree.
Hypothesis proper_disk : proper (fs st).
Hypothesis fresh_temp : vacant tempDir (fs st).
Hypothesis temp_apart : ¬ tempDir `prefix_of` projectDir.
Hypothesis dest_apart : ¬ projectDir `prefix_of` tempDir.

Lemma clone_in_place_after_setup (o : outcome args) (s : state) :
  Refactored.setup_phase w tempDir st = (o, s) →
  fs s = cloned tree tempDir (fs st).
Proof.
  pose proof (RefactoredSetup.setup_phase_inv w tempDir st) as Hi.
  assert (∃ s1, Refactored.cloneRepository w tempDir st = (Returned (), s1))
    as (s1 & Hc).
  { eexists. unfold Refactored.cloneRepository, try_catch.
    rewrite Run.bind_eq. unfold console_log. rewrite Run.emit_eq.
    by rewrite (Vacant.git_clone_vacant w tempDir _ tree). }
  pose proof (RefactoredSetup.cloneRepository_inv w tempDir st) as Hci.
  rewrite Hc in Hci. destruct Hci as (t & Ht & Hfs).
  rewrite fetched in Ht. injection Ht as <-.
  unfold Refactored.setup_phase. rewrite (Run.bind_returned _ _ _ _ _ Hc).
  rewrite Run.bind_eq.
  pose proof (RefactoredSetup.getAvailableLanguages_inv tempDir s1) as Hl.
  destruct (Refactored.getAvailableLanguages tempDir s1) as [[langs|e|c] s2];
    [|destruct Hl as [-> _]; by intros [= _ <-]|done].
  destruct Hl as (-> & _). unfold Refactored.parseArguments.
  pose proof (Setup.yargs_inv langs SUPPORTED_LLMS (argv w) s1) as Hy.
  destruct (yargs _ _ _ s1) as [[a|e|c] s3]; [|done|].
  - destruct Hy as [-> _]. by intros [= _ <-].
  - destruct Hy as (_ & Hfs3 & _). intros [= _ <-]. congruence.
Qed.

Lemma clone_in_place_after_pipeline (o : outcome ()) (s : state) :
  Refactored.pipeline w tempDir st = (o, s) → fs s !! tempDir = Some Dir.
Proof.
  assert (cloned tree tempDir (fs st) !! tempDir = Some Dir) as Hdir.
  { unfold cloned. apply lookup_insert_eq. }
  unfold Refactored.pipeline. rewrite Run.bind_eq.
  pose proof (clone_in_place_after_setup) as Hs.
  pose proof (RefactoredSetup.setup_phase_inv w tempDir st) as Hi.
  assert (stays_proper st (Refactored.setup_phase w tempDir st).2) as Hp.
  { apply (refactored_setup_proper w); [done|]. intros t Hot.
    rewrite fetched in Hot. by injection Hot as <-. }
  destruct (Refactored.setup_phase w tempDir st) as [[a|e|c] s0].
  - specialize (Hs _ _ eq_refl).
    destruct Hi as (t & n' & l' & m' & _ & _ & Hraw & -> & _ & Hm).
    pose proof named as Hn. rewrite Hraw in Hn. injection Hn as ->.
    cbv zeta. cbn [name]. rewrite (PathFacts.resolve_simple _ _ simple_name).
    fold projectDir. intros E.
    destruct (refactored_after_setup_kept w nm tempDir simple_name proper_cwd
                dest_apart temp_apart l' (JsString.toUpperCase m') Hm s0
                (Hp proper_disk)) as [_ Hq].
    fold tempDir projectDir in Hq. rewrite E in Hq. simpl in Hq.
    by rewrite Hq, Hs.
  - intros [= _ <-]. by rewrite (Hs _ _ eq_refl).
  - intros [= _ <-]. by rewrite (Hs _ _ eq_refl).
Qed.

End FailureAfterClone.

(** When the refactored script has cloned the template and then fails,
    at whatever step, the process ends through [process.exit] in the
    [catch] block, or in the argument parser, and the [finally] block
    does not run: the temporary clone is still on the disk. *)
Theorem failure_leaves_temp_clone
    (w : world) (st : state) (tree : gmap path node) (nm : string) :
  let tempDir := Refactored.generateTempDir w in
  origin w = Some tree →
  given_name (argv w) = Some nm →
  Path.simple nm = true →
  forallb Path.simple (cwd w) = true →
  forallb Path.simple tempDir = true →
  Spec.proper tree →
  Spec.proper (fs st) →
  Spec.vacant tempDir (fs st) →
  ¬ tempDir `prefix_of` (cwd w ++ [nm]) →
  ¬ (cwd w ++ [nm]) `prefix_of` tempDir →
  (Refactored.start w st).1 = 1 →
  fs (Refactored.start w st).2 !! tempDir = Some Dir.
Proof.
  intros tempDir Ho Hn Hs Hc Ht Hpt Hp Hv Hta Hda.
  destruct (Refactored.pipeline w tempDir st) as [o s] eqn:Ep.
  pose proof (clone_in_place_after_pipeline w st tree nm Ho Hn Hs Hc Ht Hpt Hp
                Hv Hta Hda o s Ep) as Hdir.
  destruct o as [[]|e|c].
  - destruct (TempClone.start_succeeded w st s Ep) as (st' & -> & _). done.
  - destruct (RefactoredSetup.start_failed w st s _ Ep I) as (st' & Es & Hfs & _).
    rewrite Es. cbn [fst snd]. intros _. by rewrite Hfs.
  - pose proof (RefactoredQuiet.pipeline_exit_code w tempDir st s c Ep) as ->.
    destruct (RefactoredSetup.start_failed w st s _ Ep eq_refl)
      as (st' & Es & Hfs & _).
    rewrite Es. cbn [fst snd]. intros _. by rewrite Hfs.
Qed.

Lemma failure_leaves_temp_clone_witness :
  fs (Refactored.start Scenario.request Scenario.taken).2 !! Scenario.temp
  = Some Dir.
Proof.
  apply (failure_leaves_temp_clone Scenario.request Scenario.taken
           Scenario.template "app").
  - reflexivity.
  - reflexivity.
  - reflexivity.
  - reflexivity.
  - reflexivity.
  - compute_done.
  - compute_done.
  - compute_done.
  - vm_compute. intros [k Hk]. discriminate.
  - vm_compute. intros [k Hk]. discriminate.
  - vm_compute. reflexivity.
Defined.

(** ** The local script *)

Module LocalRun.
Import Process Extern Spec.

(** The local script ends with code 0 only when it has run to its end. *)
Lemma local_zero_inv (w : world) (st : state) :
  (Local.main w st).1 = 0 →
  Local.script w st = (Returned (), (Local.main w st).2).
Proof.
  unfold Local.main, run.
  destruct (Local.script w st) as [[[]|e|c] st1] eqn:Es; cbn [fst snd]; [done| |].
  - unfold default_uncaught, console_error. rewrite Run.emit_eq. done.
  - intros ->. exfalso. revert Es. unfold Local.script. rewrite Run.bind_eq.
    pose proof (LocalSetup.local_discover_inv w st) as Hd.
    destruct (Local.discover w st) as [[a|e|c] s0]; [|done|].
    + intros H. apply (Verdict.quiet_local_build w a s0 0). by rewrite H.
    + intros [= -> _]. by destruct Hd.
Qed.

Lemma writeFileSync_inv (fs fs' : gmap path node) (q : path) (content : string) :
  Fs.writeFileSync fs q content = Ok fs' → fs' = <[q := File content]> fs.
Proof.
  unfold Fs.writeFileSync.
  destruct (fs !! q) as [[c|]|]; try done;
    destruct (Fs.is_dir _ _); try done; by intros [= <-].
Qed.

Lemma write_returned (q : path) (content : string) (s s' : state) (u : ()) :
  update (λ fs, Fs.writeFileSync fs q content) s = (Returned u, s') →
  fs s' = <[q := File content]> (fs s).
Proof.
  unfold update. destruct (Fs.writeFileSync (fs s) q content) eqn:E; [|done].
  intros [= _ <-]. cbn [fs]. by apply writeFileSync_inv in E.
Qed.

Lemma when_true (m : Js ()) : when true m = m.
Proof. done. Qed.

Lemma when_false (m : Js ()) : when false m = mret ().
Proof. done. Qed.

Lemma starts_only_chatty (command : string) (dir : path) :
  chatty (starts_only command dir).
Proof. split; intros line c d H; discriminate. Qed.

End LocalRun.

Section LocalRules.
Import Process Extern Spec.
Variables (w : world) (st : state) (nm l content : string).

Let projectDir := cwd w ++ [nm].
Let rules := projectDir ++ ["Rules"; l +:+ ".md"].
Let gemini := projectDir ++ ["GEMINI.md"].
Let claude := projectDir ++ ["CLAUDE.md"].
Let final := (Local.main w st).2.

Hypothesis named : given_name (argv w) = Some nm.
Hypothesis spoken : given_lang (argv w) = Some l.
Hypothesis simple_name : Path.simple nm = true.
Hypothesis simple_lang : Path.simple (l +:+ ".md") = true.
Hypothesis name_free : nm ∉ ["GEMINI.md"; "CLAUDE.md"; "Rules"].
Hypothesis succeeded : (Local.main w st).1 = 0.
Hypothesis rules_there : fs final !! rules = Some (File content).

Lemma local_rules_in_both :
  fs final !! gemini = Some (File content)
  ∧ fs final !! claude = Some (File content).
Proof.
  pose proof (LocalRun.local_zero_inv w st succeeded) as Hz.
  fold final in Hz. unfold Local.script in Hz.
  apply Respect.bind_returned_inv in Hz as (a & s0 & Hd & Hz).
  pose proof (LocalSetup.local_discover_inv w st) as Hi. rewrite Hd in Hi.
  destruct Hi as (_ & n' & l' & m' & Hraw & -> & _).
  pose proof named as Hn. pose proof spoken as Hl.
  rewrite Hraw in Hn, Hl. injection Hn as ->. injection Hl as ->.
  unfold Local.build in Hz. cbv zeta in Hz. cbn [name lang llm] in Hz.
  rewrite (PathFacts.resolve_simple _ _ simple_name) in Hz.
  fold projectDir in Hz.
  rewrite !PathFacts.join_simple in Hz by simple_names.
  fold rules gemini claude in Hz.
  do 15 bind_inv Hz.
  rewrite Run.bind_eq, Run.query_eq in Hz.
  apply Respect.bind_returned_inv in Hz as (u1 & sa & Hwhen & Hz).
  apply Respect.bind_returned_inv in Hz as (u2 & sb & Hren & Hz).
  apply Respect.bind_returned_inv in Hz as (u3 & sc & Hgit & Hz).
  assert (fs final = fs sc) as Hfinal.
  { revert Hz. unfold console_log. rewrite Run.emit_eq. by intros [= <-]. }
  assert (∀ p, p = rules ∨ p = gemini ∨ p = claude →
               fs final !! p = fs sa !! p) as Hlater.
  { intros p Hp.
    assert (¬ (projectDir ++ ["src"]) `prefix_of` p
            ∧ ¬ (projectDir ++ [nm]) `prefix_of` p
            ∧ projectDir ++ [".git"] ≠ p) as (H1 & H2 & H3).
    { unfold rules, gemini, claude in Hp.
      destruct Hp as [-> | [-> | ->]];
        (split; [|split];
         [ intros [k Hk]; rewrite <- app_assoc in Hk;
           apply app_inv_head in Hk; discriminate
         | intros [k Hk]; rewrite <- app_assoc in Hk;
           apply app_inv_head in Hk; injection Hk as Hk _;
           apply name_free; rewrite <- Hk; repeat constructor
         | intros Hk%app_inv_head; discriminate ]). }
    rewrite Hfinal.
    pose proof (Frame.frame_git_init p w projectDir H3 sb) as Hg.
    rewrite Hgit in Hg. unfold same_at in Hg. simpl in Hg. rewrite Hg.
    pose proof (Frame.frame_rename p _ _ H1 H2 sa) as Hr.
    rewrite Hren in Hr. unfold same_at in Hr. simpl in Hr. by rewrite Hr. }
  assert (rules ≠ gemini ∧ rules ≠ claude ∧ gemini ≠ claude) as (Hrg & Hrc & Hgc).
  { unfold rules, gemini, claude.
    repeat split; intros H%app_inv_head; discriminate. }
  lazymatch type of Hwhen with
  | when (Fs.existsSync (fs ?s) _) _ _ = _ => rename s into sx
  end.
  assert (fs sx !! rules = Some (File content)) as Hbefore.
  { rewrite <- rules_there, (Hlater rules) by by left.
    revert Hwhen. destruct (Fs.existsSync (fs sx) rules).
    - rewrite LocalRun.when_true, Run.bind_eq. unfold attempt.
      destruct (Fs.readFileSync (fs sx) rules) as [c|]; [|done].
      intros Hw. apply Respect.bind_returned_inv in Hw as (v1 & t1 & Hw1 & Hw2).
      apply LocalRun.write_returned in Hw1, Hw2.
      by rewrite Hw2, lookup_insert_ne, Hw1, lookup_insert_ne.
    - rewrite LocalRun.when_false, Run.ret_eq. intros H.
      assert (sa = sx) as -> by congruence. done. }
  revert Hwhen. unfold Fs.existsSync. rewrite Hbefore.
  rewrite bool_decide_eq_true_2 by by eexists.
  rewrite LocalRun.when_true, Run.bind_eq.
  unfold attempt, Fs.readFileSync. rewrite Hbefore.
  intros Hw. apply Respect.bind_returned_inv in Hw as (v1 & t1 & Hw1 & Hw2).
  apply LocalRun.write_returned in Hw1, Hw2.
  rewrite !Hlater by auto. rewrite Hw2, Hw1. split.
  - by rewrite lookup_insert_ne, lookup_insert_eq.
  - by rewrite lookup_insert_eq.
Qed.

End LocalRules.



Section LocalProcesses.
Import Process Extern Spec.
Variables (w : world) (nm : string).

Let projectDir := Path.resolve (cwd w) nm.
Let P := starts_only "git init" projectDir.

Hypothesis named : given_name (argv w) = Some nm.

Lemma local_script_starts : respects (emits P) (Local.script w).
Proof.
  pose proof (LocalRun.starts_only_chatty "git init" projectDir) as talk.
  unfold Local.script.
  apply (NoFile.respects_bind_val (emits P)).
  - unfold Local.discover.
    apply (Respect.respects_bind (emits P)); [emits_walk talk|intros files].
    apply (RefactoredEvents.yargs_emits P talk).
  - intros st a st1 Hs.
    pose proof (LocalSetup.local_discover_inv w st) as Hi.
    rewrite Hs in Hi. destruct Hi as (_ & n' & l' & m' & Hraw & -> & _).
    pose proof named as Hn. rewrite Hraw in Hn. injection Hn as ->.
    unfold Local.build, Local.copy. cbv zeta. cbn [name lang llm].
    fold projectDir.
    emits_walk talk. apply (Events.emits_git_init P).
    intros c d [= <- <-]. done.
Qed.

End LocalProcesses.

(** The local script starts one kind of process only: in every run,
    however it ends, whatever it has started is [git init] in the
    destination root (never a clone, and never [git init] in an inner
    source directory). *)
Theorem local_script_starts_only_git_init
    (w : world) (st : state) (nm : string) :
  given_name (argv w) = Some nm →
  Process.emits (Spec.starts_only "git init" (Path.resolve (cwd w) nm))
    st (Local.main w st).2.
Proof.
  intros Hn.
  apply (Respect.run_respects
           (Process.emits (Spec.starts_only "git init" (Path.resolve (cwd w) nm)))).
  - by apply local_script_starts.
  - intros e. unfold Process.default_uncaught.
    apply Events.emits_error, LocalRun.starts_only_chatty.
Qed.

Lemma local_script_starts_only_git_init_witness :
  Process.emits (Spec.starts_only "git init" Scenario.app)
    (mkState Scenario.disk_with_template [])
    (Local.main Scenario.request (mkState Scenario.disk_with_template [])).2.
Proof.
  apply (local_script_starts_only_git_init Scenario.request
           (mkState Scenario.disk_with_template []) "app").
  reflexivity.
Defined.

(** ** What the first cloning script cannot do without *)

Module Needs.
Import Process Extern Spec.

Section At.
Variable p : path.

Lemma needs_bind_left {A B} (m : Js A) (f : A → Js B) :
  needs p m → needs p (m ≫= f).
Proof.
  intros Hm st b Hp. rewrite Run.bind_eq. specialize (Hm st).
  destruct (m st) as [[a|e|c] st1]; [|done..].
  by destruct (Hm a Hp).
Qed.

Lemma needs_bind_right {A B} (m : Js A) (f : A → Js B) :
  respects (same_at p) m → (∀ a, needs p (f a)) → needs p (m ≫= f).
Proof.
  intros Hm Hf st b Hp. rewrite Run.bind_eq. specialize (Hm st).
  destruct (m st) as [[a|e|c] st1]; [|done..].
  unfold same_at in Hm. simpl in Hm. apply Hf. by rewrite Hm.
Qed.

Lemma needs_copy (dst : path) :
  needs p (update (λ fs, Fs.copySync fs p dst)).
Proof.
  intros st a Hp. unfold update, Fs.copySync. by rewrite Hp.
Qed.

End At.

Lemma clone_exit_code (w : world) (st : state) :
  (Clone.main w st).1 = 0 ∨ (Clone.main w st).1 = 1.
Proof.
  destruct (Clone.script w st) as [o s] eqn:Es.
  destruct o as [[]|e|c].
  - left. unfold Clone.main, run. by rewrite Es.
  - right. by destruct (CloneSetup.clone_main_failed w st s _ Es I) as (st' & -> & _).
  - right. assert (c = 1) as ->.
    { revert Es. unfold Clone.script. rewrite Run.bind_eq.
      pose proof (CloneSetup.clone_discover_inv w st) as Hd.
      destruct (Clone.discover w st) as [[a|e|c'] s0]; [|done|].
      - intros H. exfalso. apply (CloneEvents.build_quiet w a s0 c). by rewrite H.
      - intros [= <- _]. by destruct Hd. }
    by destruct (CloneSetup.clone_main_failed w st s _ Es eq_refl) as (st' & -> & _).
Qed.

End Needs.

Section MissingEntry.
Import Process Extern Spec.
Variables (w : world) (nm l chosen c : string).

Let tempDir := Clone.tempDir w.
Let projectDir := cwd w ++ [nm].
Let p := Path.join tempDir [c].

Hypothesis simple_name : Path.simple nm = true.
Hypothesis not_below : ¬ projectDir `prefix_of` p.
Hypothesis supported : chosen ∈ SUPPORTED_LLMS.
Hypothesis copied :
  c ∈ [".context"; "examples"; chosen +:+ ".md"; "INITIAL_EXAMPLE.md";
       "INITIAL.md"; "README.md"].

Lemma build_needs_entry :
  needs p (Clone.build w (mkArgs nm l chosen)).
Proof.
  unfold Clone.build, Clone.copy. cbv zeta. cbn [name lang llm].
  rewrite (PathFacts.resolve_simple _ _ simple_name). fold projectDir tempDir.
  pose proof copied as Hc. unfold p.
  destruct (supported_cases chosen supported) as [-> | ->];
    cbn [String.eqb Ascii.eqb Bool.eqb];
    repeat (apply elem_of_cons in Hc as [->|Hc];
            [repeat first
               [ apply Needs.needs_bind_left; apply Needs.needs_copy
               | apply Needs.needs_bind_right;
                 [frame_walk; frame_write; apart|intros _] ]|]);
    by apply elem_of_nil in Hc.
Qed.

End MissingEntry.



(** ** The handlers of last resort *)

